(** * Plugin store manager of LEDMatrix: a shallow embedding

    The development follows [src/plugin_system/store_manager.py]
    (class [PluginStoreManager]).  Pure helpers are Rocq functions;
    methods that touch the network, the clock, git or the file system
    thread an explicit world through the calls and consult an
    environment record for what the outside world answers.

    Conventions shared by all parts:
    - Python [str] is [string]; [Optional[str]] is [option string];
      a value is "falsey" when it is [None] or the empty string.
    - [time.time()] is an integer number of seconds.
    - A plugin id is one path component: [plugins_dir / plugin_id] is
      the path [plugins_dir ++ [plugin_id]]. *)

From Stdlib Require Import ZArith Ascii.
From stdpp Require Import gmap strings list fin_maps pretty.

Local Open Scope Z_scope.
#[local] Set Warnings "-clear-no-such-hyp,-register-all".

(** ** Falsey values and [_distinct_sequence] *)

Module Seq.

(** Python truth value of an [Optional[str]]. *)
Definition truthy (value : option string) : bool :=
  match value with
  | None => false
  | Some s => negb (bool_decide (s = ""))
  end.

(** The loop of [_distinct_sequence]: [seen] is the set, [ordered] the
    list built so far. *)
Fixpoint distinct_loop (values : list (option string))
    (seen : gset string) (ordered : list string) : list string :=
  match values with
  | [] => ordered
  | value :: rest =>
      match value with
      | None => distinct_loop rest seen ordered
      | Some s =>
          if negb (truthy value) then distinct_loop rest seen ordered
          else if bool_decide (s ∈ seen) then distinct_loop rest seen ordered
          else distinct_loop rest ({[ s ]} ∪ seen) (ordered ++ [s])
      end
  end.

Definition _distinct_sequence (values : list (option string)) : list string :=
  distinct_loop values ∅ [].

(** The specification's wording, independent of the loop: drop the
    empty and absent entries, then keep the first occurrence of each
    remaining value. *)
Fixpoint present (values : list (option string)) : list string :=
  match values with
  | [] => []
  | None :: rest => present rest
  | Some s :: rest => if bool_decide (s = "") then present rest else s :: present rest
  end.

Fixpoint first_occurrences (l : list string) : list string :=
  match l with
  | [] => []
  | x :: rest => x :: filter (λ y, y ≠ x) (first_occurrences rest)
  end.

Definition order_preserving_dedup (values : list (option string)) : list string :=
  first_occurrences (present values).

End Seq.

(** ** Python string helpers and JSON values *)

Module Py.

(** [s[:n]] *)
Fixpoint take (n : nat) (s : string) : string :=
  match n, s with
  | S k, String c rest => String c (take k rest)
  | _, _ => ""
  end.

(** [str.lower] on the ASCII letters. *)
Definition lower_char (c : ascii) : ascii :=
  let n := nat_of_ascii c in
  if (Nat.leb 65 n && Nat.leb n 90)%bool then ascii_of_nat (n + 32) else c.

Fixpoint lower (s : string) : string :=
  match s with
  | "" => ""
  | String c rest => String (lower_char c) (lower rest)
  end.

Definition startswith (s p : string) : bool := String.prefix p s.

Definition endswith (s suffix : string) : bool :=
  String.prefix (String.rev suffix) (String.rev s).

(** [needle in hay] *)
Fixpoint contains (needle hay : string) : bool :=
  if String.prefix needle hay then true
  else match hay with
       | "" => false
       | String _ rest => contains needle rest
       end.

Fixpoint lstrip (c : ascii) (s : string) : string :=
  match s with
  | String d rest => if bool_decide (d = c) then lstrip c rest else s
  | "" => ""
  end.

Definition rstrip (c : ascii) (s : string) : string :=
  String.rev (lstrip c (String.rev s)).

Definition strip (c : ascii) (s : string) : string := rstrip c (lstrip c s).

(** [s[:-n]] for [n <= len(s)] *)
Definition drop_last (n : nat) (s : string) : string :=
  take (String.length s - n) s.

Definition removesuffix (suffix s : string) : string :=
  if endswith s suffix then drop_last (String.length suffix) s else s.

(** [s.split(sep)] for a non-empty separator: [skip] counts the
    characters of a matched separator still to be passed over, [cur]
    is the current piece, reversed. *)
Fixpoint split_go (sep : string) (skip : nat) (cur : string) (s : string) : list string :=
  match s with
  | "" => [String.rev cur]
  | String c rest =>
      match skip with
      | S k => split_go sep k cur rest
      | O =>
          if String.prefix sep s
          then String.rev cur :: split_go sep (String.length sep - 1) "" rest
          else split_go sep 0 (String c cur) rest
      end
  end.

Definition split (sep s : string) : list string := split_go sep 0 "" s.

(** [s.replace(old, new)] *)
Definition replace (old new s : string) : string :=
  String.concat new (split old s).

(** [parts[-1]] and [parts[-2]] *)
Definition last1 (parts : list string) : option string := last parts.
Definition last2 (parts : list string) : option string :=
  match reverse parts with
  | _ :: x :: _ => Some x
  | _ => None
  end.

(** Decoded JSON.  Numbers are integers; an object is the list of its
    fields in order, looked up by the first match. *)
Inductive json :=
| JNull
| JBool (b : bool)
| JNum (n : Z)
| JStr (s : string)
| JArr (items : list json)
| JObj (fields : list (string * json)).

Definition json_truthy (j : json) : bool :=
  match j with
  | JNull => false
  | JBool b => b
  | JNum n => negb (n =? 0)
  | JStr s => negb (bool_decide (s = ""))
  | JArr l => match l with [] => false | _ => true end
  | JObj f => match f with [] => false | _ => true end
  end.

Fixpoint fields_get (fields : list (string * json)) (key : string) : option json :=
  match fields with
  | [] => None
  | (k, v) :: rest => if bool_decide (k = key) then Some v else fields_get rest key
  end.

(** [d[key] = v] on a dict: replace in place, or append a new key. *)
Fixpoint fields_set (fields : list (string * json)) (key : string) (v : json)
    : list (string * json) :=
  match fields with
  | [] => [(key, v)]
  | (k, old) :: rest =>
      if bool_decide (k = key) then (k, v) :: rest
      else (k, old) :: fields_set rest key v
  end.

(** Exceptions that the modelled code can let through or catch. *)
Inductive exn :=
| AttributeError
| TypeError
| KeyError
| OSError
| JSONDecodeError
| RequestException.

(** The outcome of a call that may raise. *)
Inductive outcome (A : Type) :=
| Returned (a : A)
| Raised (e : exn).
Arguments Returned {A} a.
Arguments Raised {A} e.

(** [len(x)] *)
Definition py_len (j : json) : outcome nat :=
  match j with
  | JStr s => Returned (String.length s)
  | JArr l => Returned (length l)
  | JObj f => Returned (length f)
  | _ => Raised TypeError
  end.

(** [x.get(key, default)]: only a dict has [get]. *)
Definition py_get (j : json) (key : string) (dflt : json) : outcome json :=
  match j with
  | JObj f => Returned (default dflt (fields_get f key))
  | _ => Raised AttributeError
  end.

End Py.

(** ** Token validation: [_validate_github_token] *)

Module Token.
Import Py.

(** What [requests.get(api_url, headers, timeout=5)] does. *)
Inductive probe :=
| Response (status_code : Z) (text : string)
| Timeout
| NetworkError (msg : string)
| Unexpected (msg : string).

(** The environment: the clock and the identity endpoint.  Both are
    indexed by how many times they were consulted before. *)
Record Env := {
  clock : nat → Z;
  get_user : nat → string → probe;
}.

(** A cache entry: [(is_valid, timestamp, error_message)]. *)
Definition entry : Type := bool * Z * option string.

Record State := {
  _token_validation_cache : gmap string entry;
  clock_reads : nat;
  probes : list string;    (* tokens sent to the endpoint, oldest first *)
}.

Definition _token_validation_cache_timeout : Z := 300.

Definition time_time (env : Env) (st : State) : Z * State :=
  (clock env (clock_reads st),
   {| _token_validation_cache := _token_validation_cache st;
      clock_reads := S (clock_reads st);
      probes := probes st |}).

Definition requests_get (env : Env) (token : string) (st : State) : probe * State :=
  (get_user env (length (probes st)) token,
   {| _token_validation_cache := _token_validation_cache st;
      clock_reads := clock_reads st;
      probes := probes st ++ [token] |}).

(** [self._token_validation_cache[cache_key] = (valid, time.time(), error)] *)
Definition store (env : Env) (cache_key : string) (valid : bool)
    (error : option string) (st : State) : State :=
  let '(now, st1) := time_time env st in
  {| _token_validation_cache :=
       <[cache_key := (valid, now, error)]> (_token_validation_cache st1);
     clock_reads := clock_reads st1;
     probes := probes st1 |}.

(** The "check cache first" block: [Some result] when a fresh entry
    answers the call. *)
Definition cache_check (env : Env) (cache_key : string) (st : State)
    : option (bool * option string) * State :=
  match _token_validation_cache st !! cache_key with
  | Some (cached_valid, cached_time, cached_error) =>
      let '(now, st1) := time_time env st in
      if bool_decide (now - cached_time < _token_validation_cache_timeout)
      then (Some (cached_valid, cached_error), st1)
      else (None, st1)
  | None => (None, st)
  end.

Definition _validate_github_token (env : Env) (token : string) (st : State)
    : (bool * option string) * State :=
  if bool_decide (token = "") then ((false, Some "No token provided"), st)
  else
    let cache_key := take 10 token in
    match cache_check env cache_key st with
    | (Some result, st1) => (result, st1)
    | (None, st1) =>
        let '(response, st2) := requests_get env token st1 in
        match response with
        | Response status_code text =>
            if bool_decide (status_code = 200) then
              ((true, None), store env cache_key true None st2)
            else if bool_decide (status_code = 401) then
              let error_msg := "Token is invalid or expired" in
              ((false, Some error_msg), store env cache_key false (Some error_msg) st2)
            else if bool_decide (status_code = 403) then
              if contains "rate limit" (lower text) then
                ((false, Some "Rate limit exceeded"), st2)
              else
                let error_msg := "Token lacks required permissions" in
                ((false, Some error_msg), store env cache_key false (Some error_msg) st2)
            else
              let error_msg := "GitHub API error: " +:+ pretty status_code in
              ((false, Some error_msg), store env cache_key false (Some error_msg) st2)
        | Timeout => ((false, Some "GitHub API request timed out"), st2)
        | NetworkError msg => ((false, Some ("Network error: " +:+ msg)), st2)
        | Unexpected msg => ((false, Some ("Unexpected error: " +:+ msg)), st2)
        end
    end.

(** An entry of the cache is fresh at a clock reading. *)
Definition fresh (now : Z) (e : entry) : Prop :=
  now - e.1.2 < _token_validation_cache_timeout.

(** [token[:10]] counts characters and [take] counts the bytes of the
    string: the two agree on a token of ASCII characters. *)
Fixpoint ascii_only (s : string) : bool :=
  match s with
  | "" => true
  | String c rest => Nat.ltb (nat_of_ascii c) 128 && ascii_only rest
  end.

End Token.

(** ** The registry catalog: [fetch_registry] *)

Module Registry.
Import Py.

(** What one [requests.get] on the registry URL does: a connection
    failure, or a response whose body decodes to JSON or does not. *)
Inductive http_result :=
| ConnectionFailed
| Resp (status_code : Z) (body : option json).

Record Env := {
  clock : nat → Z;
  get : nat → http_result;
}.

Record State := {
  registry_cache : option json;
  registry_cache_time : option Z;
  clock_reads : nat;
  requests_made : nat;
}.

Definition registry_cache_timeout : Z := 300.

Definition empty_catalog : json := JObj [("plugins", JArr [])].

(** [_http_get_with_retries(url)] with [max_retries = 3]: the first
    response is returned; after three connection failures the last
    exception is raised.  [attempts] is the number of attempts left. *)
Fixpoint _http_get_with_retries (env : Env) (attempts : nat) (st : State)
    : outcome (Z * option json) * State :=
  match attempts with
  | O => (Raised RequestException, st)
  | S k =>
      let st1 := {| registry_cache := registry_cache st;
                    registry_cache_time := registry_cache_time st;
                    clock_reads := clock_reads st;
                    requests_made := S (requests_made st) |} in
      match get env (requests_made st) with
      | Resp status_code body => (Returned (status_code, body), st1)
      | ConnectionFailed => _http_get_with_retries env k st1
      end
  end.

(** [response.raise_for_status()] raises for 4xx and 5xx. *)
Definition is_error_status (status_code : Z) : bool :=
  bool_decide (400 ≤ status_code < 600).

(** The cache test of [fetch_registry]: Python truth values of the
    cached catalog and of its timestamp, then the age. *)
Definition cache_valid (st : State) (force_refresh : bool) (current_time : Z) : bool :=
  match registry_cache st, registry_cache_time st with
  | Some cached, Some cached_time =>
      json_truthy cached && negb (bool_decide (cached_time = 0))
      && negb force_refresh
      && bool_decide (current_time - cached_time < registry_cache_timeout)
  | _, _ => false
  end.

(** The logging line
    [len(self.registry_cache.get('plugins', []))]. *)
Definition count_plugins (catalog : json) : outcome nat :=
  match py_get catalog "plugins" (JArr []) with
  | Returned plugins => py_len plugins
  | Raised e => Raised e
  end.

Definition fetch_registry (env : Env) (force_refresh : bool) (st : State)
    : outcome json * State :=
  let current_time := clock env (clock_reads st) in
  let st0 := {| registry_cache := registry_cache st;
                registry_cache_time := registry_cache_time st;
                clock_reads := S (clock_reads st);
                requests_made := requests_made st |} in
  if cache_valid st0 force_refresh current_time
  then (Returned (default JNull (registry_cache st0)), st0)
  else
    match _http_get_with_retries env 3 st0 with
    | (Raised _, st1) => (Returned empty_catalog, st1)
    | (Returned (status_code, body), st1) =>
        if is_error_status status_code then (Returned empty_catalog, st1)
        else
          match body with
          | None => (Returned empty_catalog, st1)
          | Some catalog =>
              let st2 := {| registry_cache := Some catalog;
                            registry_cache_time := Some current_time;
                            clock_reads := clock_reads st1;
                            requests_made := requests_made st1 |} in
              match count_plugins catalog with
              | Returned _ => (Returned catalog, st2)
              | Raised e => (Raised e, st2)
              end
          end
    end.

End Registry.

(** ** The plugin store: file system, network and the world *)

Module Store.
Import Py Seq.

(** *** Files and directories *)

(** The content of a file: text that decodes as JSON, or anything
    else ([json.load] raises on it). *)
Inductive blob :=
| Json (j : json)
| Raw (s : string).

Inductive node :=
| NFile (b : blob)
| NDir.

(** What lies at a path: the entries below it, keyed by their path
    components; the key [[]] holds a file when the path itself is a
    file rather than a directory. *)
Abbreviation tree := (gmap (list string) node).

(** The places the store manager works in: an entry of the configured
    plugins directory, an entry of the standard [plugins/] directory
    of the project, a directory made by [tempfile.mkdtemp]. *)
Inductive path :=
| InPlugins (name : string)
| InStandard (name : string)
| Temp (n : nat).

#[global] Instance path_eq_dec : EqDecision path.
Proof. solve_decision. Defined.

Definition path_encode (p : path) : string + string + nat :=
  match p with
  | InPlugins name => inl (inl name)
  | InStandard name => inl (inr name)
  | Temp n => inr n
  end.

Definition path_decode (x : string + string + nat) : path :=
  match x with
  | inl (inl name) => InPlugins name
  | inl (inr name) => InStandard name
  | inr n => Temp n
  end.

#[global] Instance path_countable : Countable path.
Proof. apply (inj_countable' path_encode path_decode). by intros []. Defined.

Abbreviation FS := (gmap path tree).

(** *** Remote answers *)

Record tree_entry := { te_path : string; te_type : string }.

Record zip_member := { zm_name : string; zm_data : blob }.

(** The body of an HTTP response, by what it decodes to: a git tree
    listing (a JSON object with [truncated] and [tree], each entry
    with [path] and [type]), a zip archive, or neither. *)
Inductive body :=
| BTree (truncated : bool) (entries : list tree_entry)
| BZip (members : list zip_member)
| BFile (content : blob).

Definition content_of (b : body) : blob :=
  match b with
  | BFile content => content
  | _ => Raw ""
  end.

Inductive http_result :=
| ConnectionFailed
| Resp (status_code : Z) (b : body).

(** A [git clone] either fills the target or fails and leaves the
    target as [residue] ([None]: nothing there). *)
Inductive clone_result :=
| CloneOk (t : tree)
| CloneFailed (residue : option tree).

(** *** Registry entries and local checkouts *)

(** The keys of a registry entry that the installer and the updater
    read, each absent ([None]) or a string. *)
Record plugin_info := {
  info_repo : option string;
  info_plugin_path : option string;
  info_branch : option string;
  info_default_branch : option string;
  info_last_commit_branch : option string;
  info_last_commit_sha : option string;
  info_latest_version : option string;
}.

(** The dictionary that [_get_local_git_info] returns. *)
Record git_info := {
  git_sha : string;
  git_branch : string;
  git_remote_url : option string;
}.

(** *** The trace *)

Inductive strategy := PartialTree | Archive | PlainArchive.

Inductive event :=
| EvAttempt (s : strategy) (args : list string)
| EvHttp (url : string)
| EvClone (repo_url : string) (branch : option string) (target : path)
| EvRemove (p : path) (removed : bool)
| EvSecurity (entry : string)      (* "Path traversal detected" / "Zip-slip detected" *)
| EvPip (p : path)
| EvGitPull (p : path).

Record World := {
  fs : FS;
  trace : list event;     (* oldest first *)
  next_tmp : nat;         (* number of [mkdtemp] calls so far *)
}.

(** *** The environment

    Every answer of the outside world may depend on how far the run
    has come, measured by the length of the trace. *)
Record Env := {
  http_get : nat → string → http_result;
  git_clone : nat → string → option string → path → clone_result;
  (** the first two stages of [_safe_remove_directory]: [None] when
      the directory is gone afterwards, otherwise what is left of it *)
  rmtree : nat → path → tree → option tree;
  rmtree_after_chmod : nat → path → tree → option tree;
  (** Modelled from the spec: [sudo_remove_directory] lives in
      [src/common/permission_utils.py], which is not part of the
      sources at hand.  It is "a privilege-escalated recursive delete
      as a last resort": [None] when the path no longer exists
      afterwards, otherwise what is left. *)
  sudo_remove_directory : nat → path → tree → option tree;
  (** [get_plugin_info(plugin_id, fetch_latest_from_github=True,
      force_refresh=True)]: the registry entry enriched with GitHub
      metadata, [None] when the registry has no such plugin; it only
      reads the network and the caches, and it can raise *)
  get_plugin_info : nat → string → outcome (option plugin_info);
  (** [_get_local_git_info] on a directory that has [.git] *)
  git_rev_parse : nat → path → tree → outcome (option git_info);
  (** [git config --local --get remote.origin.url] and
      [git rev-parse --abbrev-ref HEAD] on a directory without a
      usable checkout *)
  git_config_remote : nat → path → option string;
  git_current_branch : nat → path → option string;
  (** everything from [git fetch origin] to [git pull], with the
      unlinking of the marker file: success and the directory after *)
  git_pull : nat → path → tree → string → option string → bool * tree;
  (** [ensure_directory_permissions(path.parent, mode)] returns
      ([true]) or raises *)
  ensure_directory_permissions : nat → path → bool;
  pip_install : nat → path → bool;
  (** the class name that [_detect_class_name] reads out of a file *)
  detect_class : blob → option string;
  (** resolved locations *)
  plugins_dir : list string;
  standard_plugins_dir : list string;
  standard_plugins_dir_usable : bool;
  tmp_dir : nat → list string;
  scratch_dir : list string;
}.

Definition components (env : Env) (p : path) : list string :=
  match p with
  | InPlugins name => plugins_dir env ++ [name]
  | InStandard name => standard_plugins_dir env ++ [name]
  | Temp n => tmp_dir env n
  end.

Definition basename (env : Env) (p : path) : string :=
  default "" (last (components env p)).

(** *** World primitives *)

Definition now (w : World) : nat := length (trace w).

Definition emit (e : event) (w : World) : World :=
  {| fs := fs w; trace := trace w ++ [e]; next_tmp := next_tmp w |}.

Definition set_fs (f : FS) (w : World) : World :=
  {| fs := f; trace := trace w; next_tmp := next_tmp w |}.

Definition path_exists (p : path) (w : World) : bool :=
  bool_decide (is_Some (fs w !! p)).

(** [tempfile.mkdtemp(...)]: a new, empty directory. *)
Definition mkdtemp (w : World) : path * World :=
  (Temp (next_tmp w),
   {| fs := <[Temp (next_tmp w) := ∅]> (fs w);
      trace := trace w;
      next_tmp := S (next_tmp w) |}).

(** One [requests.get]. *)
Definition requests_get (env : Env) (url : string) (w : World) : http_result * World :=
  (http_get env (now w) url, emit (EvHttp url) w).

(** [_http_get_with_retries] with [max_retries = 3]; [attempts] is the
    number of attempts left. *)
Fixpoint http_retry_loop (env : Env) (attempts : nat) (url : string) (w : World)
    : outcome (Z * body) * World :=
  match attempts with
  | O => (Raised RequestException, w)
  | S k =>
      match requests_get env url w with
      | (Resp status_code b, w1) => (Returned (status_code, b), w1)
      | (ConnectionFailed, w1) => http_retry_loop env k url w1
      end
  end.

Definition _http_get_with_retries (env : Env) (url : string) (w : World)
    : outcome (Z * body) * World :=
  http_retry_loop env 3 url w.

(** [response.raise_for_status()] raises for 4xx and 5xx. *)
Definition is_error_status (status_code : Z) : bool :=
  bool_decide (400 ≤ status_code < 600).

(** [_safe_remove_directory]: three stages, then the final look. *)
Definition _safe_remove_directory (env : Env) (p : path) (w : World) : bool * World :=
  match fs w !! p with
  | None => (true, w)
  | Some t =>
      match rmtree env (now w) p t with
      | None => (true, emit (EvRemove p true) (set_fs (delete p (fs w)) w))
      | Some t1 =>
          match rmtree_after_chmod env (now w) p t1 with
          | None => (true, emit (EvRemove p true) (set_fs (delete p (fs w)) w))
          | Some t2 =>
              match sudo_remove_directory env (now w) p t2 with
              | None => (true, emit (EvRemove p true) (set_fs (delete p (fs w)) w))
              | Some t3 => (false, emit (EvRemove p false) (set_fs (<[p := t3]> (fs w)) w))
              end
          end
      end
  end.

(** [if path.exists(): self._safe_remove_directory(path)], result
    ignored. *)
Definition cleanup (env : Env) (p : path) (w : World) : World :=
  if path_exists p w then (_safe_remove_directory env p w).2 else w.

(** [shutil.rmtree(path, ignore_errors=True)] *)
Definition rmtree_ignore_errors (env : Env) (p : path) (w : World) : World :=
  match fs w !! p with
  | None => w
  | Some t =>
      match rmtree env (now w) p t with
      | None => emit (EvRemove p true) (set_fs (delete p (fs w)) w)
      | Some t1 => emit (EvRemove p false) (set_fs (<[p := t1]> (fs w)) w)
      end
  end.

(** Every removal gets rid of the directory, at one stage or
    another. *)
Definition removal_succeeds (env : Env) : Prop :=
  ∀ p w, (_safe_remove_directory env p w).1 = true.


(** *** Paths inside a directory *)

(** Lexical resolution: walk the components on a stack (innermost
    first); empty and [.] components are skipped, [..] pops. *)
Fixpoint walk (stack : list string) (parts : list string) : list string :=
  match parts with
  | [] => stack
  | part :: rest =>
      if bool_decide (part = "") || bool_decide (part = ".") then walk stack rest
      else if bool_decide (part = "..") then walk (tail stack) rest
      else walk (part :: stack) rest
  end.

(** [(base / rel).resolve()]: an absolute [rel] replaces [base]. *)
Definition resolve_join (base : list string) (rel : string) : list string :=
  if startswith rel "/" then reverse (walk [] (split "/" rel))
  else reverse (walk (reverse base) (split "/" rel)).

(** [p.is_relative_to(root)] *)
Definition is_relative_to (p root : list string) : bool :=
  bool_decide (root `prefix_of` p).

(** The check of all three strategies: does [base / rel] stay inside
    [base]? *)
Definition stays_inside (base : list string) (rel : string) : bool :=
  is_relative_to (resolve_join base rel) base.

(** The key of [base / rel] below [base], once it is known to stay
    inside. *)
Definition key_below (base : list string) (rel : string) : list string :=
  drop (length base) (resolve_join base rel).

Definition is_file (o : option node) : bool :=
  match o with
  | Some (NFile _) => true
  | _ => false
  end.

(** Components of a path that must stay below its base: [None] as
    soon as [..] would leave the base. *)
Fixpoint walk_inside (stack : list string) (parts : list string) : option (list string) :=
  match parts with
  | [] => Some (reverse stack)
  | part :: rest =>
      if bool_decide (part = "") || bool_decide (part = ".") then walk_inside stack rest
      else if bool_decide (part = "..") then
        match stack with
        | [] => None
        | _ :: up => walk_inside up rest
        end
      else walk_inside (part :: stack) rest
  end.

(** The key of [dir / rel] for a relative [rel] that stays below
    [dir]. *)
Definition inner_key (rel : string) : option (list string) :=
  if startswith rel "/" then None else walk_inside [] (split "/" rel).

(** [os.makedirs] along [todo] below [done]: [None] when a file is in
    the way. *)
Fixpoint mkdirs (t : tree) (done : list string) (todo : list string) : option tree :=
  match todo with
  | [] => Some t
  | part :: rest =>
      let d := done ++ [part] in
      if is_file (t !! d) then None
      else mkdirs (<[d := NDir]> t) d rest
  end.

(** [file.parent.mkdir(parents=True, exist_ok=True)] for the file at
    [key]; [None] when it raises. *)
Definition make_parents (t : tree) (key : list string) : option tree :=
  if is_file (t !! []) then None else mkdirs t [] (removelast key).

(** [file.write_bytes(content)]: raises on a directory. *)
Definition write_bytes (t : tree) (key : list string) (content : blob) : option tree :=
  match key, t !! key with
  | [], _ => None
  | _, Some NDir => None
  | _, _ => Some (<[key := NFile content]> t)
  end.

Definition write_file (t : tree) (key : list string) (content : blob) : option tree :=
  match make_parents t key with
  | None => None
  | Some t1 => write_bytes t1 key content
  end.

(** The entries of [t] below [prefix], re-keyed relative to it;
    [None] when nothing is at [prefix]. *)
Definition strip_prefix (prefix key : list string) : option (list string) :=
  if bool_decide (prefix `prefix_of` key) then Some (drop (length prefix) key) else None.

Definition below (prefix : list string) (t : tree) : tree :=
  list_to_map
    (omap (λ kv, match strip_prefix prefix kv.1 with
                 | Some [] => match kv.2 with
                              | NFile b => Some ([], NFile b)
                              | NDir => None
                              end
                 | Some k => Some (k, kv.2)
                 | None => None
                 end)
          (map_to_list t)).

Definition subtree (prefix : list string) (t : tree) : option tree :=
  match prefix with
  | [] => Some t
  | _ => if bool_decide (is_Some (t !! prefix)) then Some (below prefix t) else None
  end.

(** [t] placed under the name [name]. *)
Definition nest (name : string) (t : tree) : tree :=
  let moved : list (list string * node) :=
    omap (λ kv : list string * node,
            match kv.1 with
            | [] => None
            | k => Some (name :: k, kv.2)
            end)
         (map_to_list t) in
  <[[name] := (if is_file (t !! []) then default NDir (t !! []) else NDir)]>
    (list_to_map moved).

(** [shutil.move(src, dst)] where [src] is named [name] and holds
    [t]: a rename when nothing is at [dst]; into [dst] when [dst] is
    a directory without an entry [name]; otherwise it raises
    ([None]). *)
Definition move_to (name : string) (t : tree) (dst : path) (f : FS) : option FS :=
  match f !! dst with
  | None => Some (<[dst := t]> f)
  | Some d =>
      if is_file (d !! []) || bool_decide (is_Some (d !! [name])) then None
      else Some (<[dst := nest name t ∪ d]> f)
  end.

(** *** Loops over branch candidates

    [for candidate in candidates: if attempt(candidate): branch_used =
    candidate; break] *)
Fixpoint first_success {A} (attempt : A → World → bool * World)
    (candidates : list A) (w : World) : option A * World :=
  match candidates with
  | [] => (None, w)
  | candidate :: rest =>
      match attempt candidate w with
      | (true, w1) => (Some candidate, w1)
      | (false, w1) => first_success attempt rest w1
      end
  end.

(** Every candidate of the list was tried in order and failed; the
    world is threaded from one attempt to the next. *)
Inductive all_failed {A} (attempt : A → World → bool * World)
    : list A → World → World → Prop :=
| all_failed_nil w : all_failed attempt [] w w
| all_failed_cons candidate rest w w1 w2 :
    attempt candidate w = (false, w1) →
    all_failed attempt rest w1 w2 →
    all_failed attempt (candidate :: rest) w w2.

(** The candidate [c] is the first that succeeded: those before it
    were tried in order and failed, none after it was tried. *)
Definition won_by {A} (attempt : A → World → bool * World)
    (candidates : list A) (c : A) (w w' : World) : Prop :=
  ∃ before after w1,
    candidates = before ++ c :: after
    ∧ all_failed attempt before w w1
    ∧ attempt c w1 = (true, w').

(** *** The partial-tree strategy: [_install_from_monorepo_api] *)

Definition max_files : nat := 500.

Definition _parse_monorepo_download_url (download_url : string)
    : option string * option string :=
  if contains "/archive/refs/heads/" download_url then
    match split "/archive/refs/heads/" download_url with
    | repo_url :: branch :: _ => (Some repo_url, Some (removesuffix ".zip" branch))
    | _ => (None, None)
    end
  else (None, None).

(** [owner, repo = parts[-2], parts[-1]] after the clean-up of the
    URL; [None] when [len(parts) < 2]. *)
Definition owner_repo (repo_url : string) : option (string * string) :=
  let clean_url := rstrip "/" repo_url in
  let clean_url := if endswith clean_url ".git" then drop_last 4 clean_url else clean_url in
  let parts := split "/" clean_url in
  match last2 parts, last1 parts with
  | Some owner, Some repo => Some (owner, repo)
  | _, _ => None
  end.

Definition trees_url (owner repo branch : string) : string :=
  "https://api.github.com/repos/" +:+ owner +:+ "/" +:+ repo
  +:+ "/git/trees/" +:+ branch +:+ "?recursive=true".

Definition raw_url (owner repo branch entry_path : string) : string :=
  "https://raw.githubusercontent.com/" +:+ owner +:+ "/" +:+ repo
  +:+ "/" +:+ branch +:+ "/" +:+ entry_path.

(** [s[n:]] *)
Fixpoint string_drop (n : nat) (s : string) : string :=
  match n, s with
  | S k, String _ rest => string_drop k rest
  | _, _ => s
  end.

(** The entries kept by step 2: under the prefix and of type blob. *)
Definition wanted (prefix : string) (entry : tree_entry) : Prop :=
  startswith (te_path entry) prefix = true ∧ te_type entry = "blob".

#[global] Instance wanted_dec prefix entry : Decision (wanted prefix entry).
Proof. unfold wanted. apply _. Defined.

(** [target_path.mkdir(parents=True, exist_ok=True)]: [None] when it
    raises (a file is there). *)
Definition mkdir_exist_ok (target : path) (w : World) : option World :=
  match fs w !! target with
  | None => Some (set_fs (<[target := ∅]> (fs w)) w)
  | Some t => if is_file (t !! []) then None else Some w
  end.

(** Step 3, the loop over [file_entries]. *)
Fixpoint download_entries (env : Env) (owner repo branch : string) (prefix_len : nat)
    (target : path) (file_entries : list tree_entry) (w : World) : bool * World :=
  match file_entries with
  | [] => (true, w)
  | entry :: rest =>
      let rel_path := string_drop prefix_len (te_path entry) in
      if negb (stays_inside (components env target) rel_path)
      then (false, cleanup env target (emit (EvSecurity (te_path entry)) w))
      else
        let key := key_below (components env target) rel_path in
        match make_parents (default ∅ (fs w !! target)) key with
        | None => (false, cleanup env target w)
        | Some t1 =>
            let w1 := set_fs (<[target := t1]> (fs w)) w in
            match _http_get_with_retries env (raw_url owner repo branch (te_path entry)) w1 with
            | (Raised _, w2) => (false, cleanup env target w2)
            | (Returned (status_code, b), w2) =>
                if negb (bool_decide (status_code = 200))
                then (false, cleanup env target w2)
                else
                  match write_bytes t1 key (content_of b) with
                  | None => (false, cleanup env target w2)
                  | Some t2 =>
                      download_entries env owner repo branch prefix_len target rest
                        (set_fs (<[target := t2]> (fs w2)) w2)
                  end
            end
        end
  end.

Definition _install_from_monorepo_api (env : Env) (repo_url branch plugin_subpath : string)
    (target : path) (w : World) : bool * World :=
  let w := emit (EvAttempt PartialTree [repo_url; branch]) w in
  match owner_repo repo_url with
  | None => (false, w)
  | Some (owner, repo) =>
      match _http_get_with_retries env (trees_url owner repo branch) w with
      | (Raised _, w1) => (false, cleanup env target w1)
      | (Returned (status_code, b), w1) =>
          if negb (bool_decide (status_code = 200)) then (false, w1)
          else
            match b with
            | BTree truncated entries =>
                if truncated then (false, w1)
                else
                  let prefix := strip "/" plugin_subpath +:+ "/" in
                  let file_entries := filter (wanted prefix) entries in
                  match file_entries with
                  | [] => (false, w1)
                  | _ =>
                      if bool_decide (max_files < length file_entries)%nat then (false, w1)
                      else if negb (ensure_directory_permissions env (now w1) target)
                      then (false, cleanup env target w1)
                      else
                        match mkdir_exist_ok target w1 with
                        | None => (false, cleanup env target w1)
                        | Some w2 =>
                            download_entries env owner repo branch
                              (String.length prefix) target file_entries w2
                        end
                  end
            | _ => (false, cleanup env target w1)
            end
      end
  end.

(** *** The archive strategies *)

(** [zipfile] writes a member below the extraction directory after
    dropping the empty, [.] and [..] components of its name. *)
Definition sanitize (name : string) : list string :=
  filter (λ part, part ≠ "" ∧ part ≠ "." ∧ part ≠ "..") (split "/" name).

(** [zip_ref.getinfo(name)]: the last member of that name. *)
Fixpoint member_data (members : list zip_member) (name : string) : blob :=
  match members with
  | [] => Raw ""
  | m :: rest =>
      if bool_decide (zm_name m = name) && negb (bool_decide (name ∈ zm_name <$> rest))
      then zm_data m
      else member_data rest name
  end.

(** [zip_ref.extract(name, temp_extract)]: a name ending in [/] is a
    directory; [None] when it raises. *)
Definition extract_member (members : list zip_member) (t : tree) (name : string)
    : option tree :=
  if endswith name "/" then
    if is_file (t !! []) then None else mkdirs t [] (sanitize name)
  else write_file t (sanitize name) (member_data members name).

(** The loop of [_install_from_monorepo_zip]: guard, then extract,
    member by member. *)
Fixpoint extract_guarded (env : Env) (members : list zip_member) (names : list string)
    (t : tree) (w : World) : option tree * World :=
  match names with
  | [] => (Some t, w)
  | member :: rest =>
      if negb (stays_inside (scratch_dir env) member)
      then (None, emit (EvSecurity member) w)
      else
        match extract_member members t member with
        | None => (None, w)
        | Some t1 => extract_guarded env members rest t1 w
        end
  end.

(** [zip_ref.extractall(temp_extract)] *)
Fixpoint extractall (members : list zip_member) (names : list string) (t : tree)
    : option tree :=
  match names with
  | [] => Some t
  | member :: rest =>
      match extract_member members t member with
      | None => None
      | Some t1 => extractall members rest t1
      end
  end.

(** [zip_contents[0].split('/')[0]] *)
Definition root_dir_of (first : string) : string := hd "" (split "/" first).

(** The key of [temp_extract / root_dir / plugin_subpath] below the
    scratch directory; [None] when it is not below it. *)
Definition source_key (root_dir plugin_subpath : string) : option (list string) :=
  if startswith plugin_subpath "/" then None
  else walk_inside [] (root_dir :: split "/" plugin_subpath).

(** [shutil.move(str(source), str(target))] for a source directory at
    [key] inside the extracted tree: [None] when it raises.  A source
    that is not below the scratch directory counts as missing. *)
Definition move_extracted (env : Env) (key : option (list string)) (extracted : tree)
    (target : path) (w : World) : option World :=
  match key with
  | None => None
  | Some k =>
      match subtree k extracted with
      | None => None
      | Some src =>
          let name := default (default "" (last (scratch_dir env))) (last k) in
          match move_to name src target (fs w) with
          | None => None
          | Some f => Some (set_fs f w)
          end
      end
  end.

Definition _install_from_monorepo_zip (env : Env) (download_url plugin_subpath : string)
    (target : path) (w : World) : bool * World :=
  let w := emit (EvAttempt Archive [download_url]) w in
  match _http_get_with_retries env download_url w with
  | (Raised _, w1) => (false, w1)
  | (Returned (status_code, b), w1) =>
      if is_error_status status_code then (false, w1)
      else
        match b with
        | BZip members =>
            let zip_contents := zm_name <$> members in
            match zip_contents with
            | [] => (false, w1)
            | first :: _ =>
                let root_dir := root_dir_of first in
                let plugin_prefix := root_dir +:+ "/" +:+ plugin_subpath +:+ "/" in
                let plugin_members :=
                  filter (λ m, startswith m plugin_prefix = true) zip_contents in
                match plugin_members with
                | [] => (false, w1)
                | _ =>
                    match extract_guarded env members plugin_members ∅ w1 with
                    | (None, w2) => (false, w2)
                    | (Some extracted, w2) =>
                        if negb (ensure_directory_permissions env (now w2) target)
                        then (false, w2)
                        else
                          let '(removed, w3) :=
                            if path_exists target w2
                            then _safe_remove_directory env target w2
                            else (true, w2) in
                          if negb removed then (false, w3)
                          else
                            match move_extracted env (source_key root_dir plugin_subpath)
                                    extracted target w3 with
                            | None => (false, w3)
                            | Some w4 => (true, w4)
                            end
                    end
                end
            end
        | _ => (false, w1)
        end
  end.

(** [_install_from_monorepo]: the partial-tree strategy first, then
    the archive strategy on the same download URL. *)
Definition _install_from_monorepo (env : Env) (download_url plugin_subpath : string)
    (target : path) (w : World) : bool * World :=
  match _parse_monorepo_download_url download_url with
  | (Some repo_url, Some branch) =>
      if negb (bool_decide (repo_url = "")) && negb (bool_decide (branch = "")) then
        match _install_from_monorepo_api env repo_url branch plugin_subpath target w with
        | (true, w1) => (true, w1)
        | (false, w1) =>
            _install_from_monorepo_zip env download_url plugin_subpath target
              (cleanup env target w1)
        end
      else _install_from_monorepo_zip env download_url plugin_subpath target w
  | _ => _install_from_monorepo_zip env download_url plugin_subpath target w
  end.



(** The first member that fails the zip-slip check, if any. *)
Fixpoint first_escaping (base : list string) (names : list string) : option string :=
  match names with
  | [] => None
  | member :: rest =>
      if negb (stays_inside base member) then Some member else first_escaping base rest
  end.

Definition _install_via_download (env : Env) (download_url : string)
    (target : path) (w : World) : bool * World :=
  let w := emit (EvAttempt PlainArchive [download_url]) w in
  match _http_get_with_retries env download_url w with
  | (Raised _, w1) => (false, w1)
  | (Returned (status_code, b), w1) =>
      if is_error_status status_code then (false, w1)
      else
        match b with
        | BZip members =>
            let zip_contents := zm_name <$> members in
            match zip_contents with
            | [] => (false, w1)
            | first :: _ =>
                let root_dir := root_dir_of first in
                match first_escaping (scratch_dir env) zip_contents with
                | Some member => (false, emit (EvSecurity member) w1)
                | None =>
                    match extractall members zip_contents ∅ with
                    | None => (false, w1)
                    | Some extracted =>
                        match walk_inside [] [root_dir] with
                        | None => (false, w1)
                        | Some k =>
                            if bool_decide (k = []) || bool_decide (is_Some (extracted !! k))
                            then
                              if negb (ensure_directory_permissions env (now w1) target)
                              then (false, w1)
                              else
                                match move_extracted env (Some k) extracted target w1 with
                                | None => (false, w1)
                                | Some w2 => (true, w2)
                                end
                            else
                              match move_extracted env (Some []) extracted target w1 with
                              | None => (false, w1)
                              | Some w2 => (true, w2)
                              end
                        end
                    end
                end
            end
        | _ => (false, w1)
        end
  end.

(** *** The checkout strategy: [_install_via_git] *)

(** One [git clone] into [target]. *)
Definition run_clone (env : Env) (repo_url : string) (branch : option string)
    (target : path) (w : World) : bool * World :=
  let w1 := emit (EvClone repo_url branch target) w in
  match git_clone env (now w) repo_url branch target with
  | CloneOk t => (true, set_fs (<[target := t]> (fs w1)) w1)
  | CloneFailed residue =>
      let f := match residue with
               | Some r => <[target := r]> (fs w1)
               | None => delete target (fs w1)
               end in
      (false, cleanup env target (set_fs f w1))
  end.

(** The body of the loop of [_install_via_git]. *)
Definition clone_attempt (env : Env) (repo_url : string) (target : path)
    (try_branch : string) : World → bool * World :=
  run_clone env repo_url (Some try_branch) target.

Definition _install_via_git (env : Env) (repo_url : string) (target : path)
    (branches : list string) (w : World) : option string * World :=
  let branches_to_try :=
    match _distinct_sequence (Some <$> branches) with
    | [] => ["main"; "master"]
    | l => l
    end in
  match first_success (clone_attempt env repo_url target) branches_to_try w with
  | (Some try_branch, w1) => (Some try_branch, w1)
  | (None, w1) => (None, (run_clone env repo_url None target w1).2)
  end.

(** *** Reading the trace *)

Definition is_attempt (e : event) : bool :=
  match e with
  | EvAttempt _ _ => true
  | _ => false
  end.


(** The strategy attempts of a run, oldest first. *)
Definition attempts_of (w : World) : list event :=
  filter (λ e, is_attempt e = true) (trace w).

(** What [_install_from_monorepo] attempts on a download URL when
    nothing succeeds: the partial tree on the repository and branch
    read out of the URL, if both are there, then the archive. *)
Definition monorepo_plan (download_url : string) : list event :=
  match _parse_monorepo_download_url download_url with
  | (Some repo_url, Some branch) =>
      if negb (bool_decide (repo_url = "")) && negb (bool_decide (branch = ""))
      then [EvAttempt PartialTree [repo_url; branch]; EvAttempt Archive [download_url]]
      else [EvAttempt Archive [download_url]]
  | _ => [EvAttempt Archive [download_url]]
  end.

(** No partial-tree attempt comes after an archive attempt. *)
Fixpoint archive_after_all_trees (log : list event) : bool :=
  match log with
  | [] => true
  | EvAttempt Archive _ :: rest =>
      forallb (λ e, match e with
                    | EvAttempt PartialTree _ => false
                    | _ => true
                    end) rest
      && archive_after_all_trees rest
  | _ :: rest => archive_after_all_trees rest
  end.

(** *** Manifests *)

Definition manifest_key : list string := ["manifest.json"].

Definition required_fields : list string := ["id"; "name"; "class_name"; "display_modes"].

(** [with open(path) as f: json.load(f)] for the entry [key] of a
    directory. *)
Definition load_json (t : tree) (key : list string) : outcome json :=
  match t !! key with
  | Some (NFile (Json j)) => Returned j
  | Some (NFile (Raw _)) => Raised JSONDecodeError
  | _ => Raised OSError
  end.

(** [field in manifest] for whatever the manifest decoded to. *)
Definition py_in (field : string) (manifest : json) : outcome bool :=
  match manifest with
  | JObj fields => Returned (bool_decide (is_Some (fields_get fields field)))
  | JArr items =>
      Returned (existsb (λ x, match x with
                              | JStr s => bool_decide (s = field)
                              | _ => false
                              end) items)
  | JStr s => Returned (contains field s)
  | _ => Raised TypeError
  end.

(** [[field for field in required_fields if field not in manifest]] *)
Fixpoint missing_of (manifest : json) (fields : list string) : outcome (list string) :=
  match fields with
  | [] => Returned []
  | field :: rest =>
      match py_in field manifest with
      | Raised e => Raised e
      | Returned present =>
          match missing_of manifest rest with
          | Raised e => Raised e
          | Returned l => Returned (if present then l else field :: l)
          end
      end
  end.

(** [_install_dependencies]: pip runs when [requirements.txt] is
    there; nothing in the plugin directory changes. *)
Definition _install_dependencies (env : Env) (plugin_path : path) (w : World) : bool * World :=
  match fs w !! plugin_path with
  | Some t =>
      if bool_decide (is_Some (t !! ["requirements.txt"]))
      then (pip_install env (now w) plugin_path, emit (EvPip plugin_path) w)
      else (true, w)
  | None => (true, w)
  end.

(** [_detect_class_name] on [plugin_path / entry_point], when that
    file exists. *)
Definition detected_class_name (env : Env) (t : tree) (entry_point : string) : option string :=
  match inner_key entry_point with
  | Some key =>
      match t !! key with
      | Some (NFile b) =>
          match detect_class env b with
          | Some c => if bool_decide (c = "") then None else Some c
          | None => None
          end
      | _ => None
      end
  | None => None
  end.

(** [json.dump(manifest, mf)] into [manifest.json] of [p]. *)
Definition dump_manifest (p : path) (fields : list (string * json)) (w : World) : World :=
  set_fs (<[p := <[manifest_key := NFile (Json (JObj fields))]> (default ∅ (fs w !! p))]> (fs w)) w.

(** [shutil.move(str(src), str(dst))] between two places of the
    world: [None] when it raises. *)
Definition move_path (env : Env) (src dst : path) (w : World) : option World :=
  match fs w !! src with
  | None => None
  | Some t =>
      match move_to (basename env src) t dst (delete src (fs w)) with
      | None => None
      | Some f => Some (set_fs f w)
      end
  end.

(** *** [install_plugin] *)

Definition archive_url (repo_url candidate : string) : string :=
  repo_url +:+ "/archive/refs/heads/" +:+ candidate +:+ ".zip".

(** The bodies of the two loops over [branch_candidates]. *)
Definition monorepo_attempt (env : Env) (repo_url plugin_subpath : string) (target : path)
    (candidate : string) : World → bool * World :=
  _install_from_monorepo env (archive_url repo_url candidate) plugin_subpath target.

Definition archive_attempt (env : Env) (repo_url : string) (target : path)
    (candidate : string) : World → bool * World :=
  _install_via_download env (archive_url repo_url candidate) target.

Definition branch_candidates_of (branch : option string) (info : plugin_info) : list string :=
  _distinct_sequence
    [branch; info_branch info; info_default_branch info;
     info_last_commit_branch info; Some "main"; Some "master"].

(** Lines 838-864: [None] when the function returns [False] there,
    otherwise [branch_used]. *)
Definition acquire (env : Env) (repo_url : string) (plugin_subpath : option string)
    (plugin_path : path) (branch_candidates : list string) (w : World)
    : option (option string) * World :=
  if truthy plugin_subpath then
    match first_success
            (monorepo_attempt env repo_url (default "" plugin_subpath) plugin_path)
            branch_candidates w with
    | (Some candidate, w1) => (Some (Some candidate), w1)
    | (None, w1) => (None, w1)
    end
  else
    let '(branch_used, w1) := _install_via_git env repo_url plugin_path branch_candidates w in
    let '(branch_used, w2) :=
      if negb (bool_decide (is_Some branch_used)) && negb (path_exists plugin_path w1)
      then first_success (archive_attempt env repo_url plugin_path) branch_candidates w1
      else (branch_used, w1) in
    if negb (bool_decide (is_Some branch_used)) && negb (path_exists plugin_path w2)
    then (None, w2)
    else (Some branch_used, w2).

(** Lines 901-944, once the directory is at its final place. *)
Definition validate_fields (env : Env) (plugin_path : path)
    (manifest : list (string * json)) (w : World) : bool * World :=
  let t := default ∅ (fs w !! plugin_path) in
  let missing := filter (λ field, fields_get manifest field = None) required_fields in
  let detection : outcome (option string) :=
    if bool_decide ("class_name" ∈ missing) then
      match default (JStr "manager.py") (fields_get manifest "entry_point") with
      | JStr entry_point => Returned (detected_class_name env t entry_point)
      | _ => Raised TypeError
      end
    else Returned None in
  match detection with
  | Raised _ => (false, (_safe_remove_directory env plugin_path w).2)
  | Returned detected =>
      let '(manifest, missing, manifest_modified) :=
        match detected with
        | Some detected_class =>
            (fields_set manifest "class_name" (JStr detected_class),
             filter (λ field, field ≠ "class_name") missing, true)
        | None => (manifest, missing, false)
        end in
      match missing with
      | _ :: _ => (false, (_safe_remove_directory env plugin_path w).2)
      | [] =>
          let '(manifest, manifest_modified) :=
            match fields_get manifest "entry_point" with
            | None => (fields_set manifest "entry_point" (JStr "manager.py"), true)
            | Some _ => (manifest, manifest_modified)
            end in
          let w1 := if manifest_modified then dump_manifest plugin_path manifest w else w in
          (true, (_install_dependencies env plugin_path w1).2)
      end
  end.

(** Lines 866-899: read the manifest, rename the directory to the
    manifest's id, then validate. *)
Definition finish_install (env : Env) (plugin_id : string) (w : World) : bool * World :=
  let plugin_path := InPlugins plugin_id in
  let t := default ∅ (fs w !! plugin_path) in
  if negb (bool_decide (is_Some (t !! manifest_key)))
  then (false, (_safe_remove_directory env plugin_path w).2)
  else
    match load_json t manifest_key with
    | Returned (JObj manifest) =>
        match fields_get manifest "id" with
        | Some (JStr manifest_plugin_id) =>
            if bool_decide (manifest_plugin_id = "")
            then (false, (_safe_remove_directory env plugin_path w).2)
            else if bool_decide (manifest_plugin_id = plugin_id)
            then validate_fields env plugin_path manifest w
            else
              let correct_path := InPlugins manifest_plugin_id in
              let '(removed, w1) :=
                if path_exists correct_path w
                then _safe_remove_directory env correct_path w
                else (true, w) in
              if negb removed then (false, w1)
              else
                match move_path env plugin_path correct_path w1 with
                | None => (false, (_safe_remove_directory env plugin_path w1).2)
                | Some w2 => validate_fields env correct_path manifest w2
                end
        | Some _ =>
            (* falsey: "missing 'id' field"; any other value cannot be
               joined to [plugins_dir] *)
            (false, (_safe_remove_directory env plugin_path w).2)
        | None => (false, (_safe_remove_directory env plugin_path w).2)
        end
    | _ => (false, (_safe_remove_directory env plugin_path w).2)
    end.

(** [install_plugin] once [get_plugin_info] has answered. *)
Definition install_plugin_with (env : Env) (info : option plugin_info)
    (plugin_id : string) (branch : option string) (w : World) : bool * World :=
  match info with
  | None => (false, w)
  | Some plugin_info =>
      if negb (truthy (info_repo plugin_info)) then (false, w)
      else
        let repo_url := default "" (info_repo plugin_info) in
        let branch_candidates := branch_candidates_of branch plugin_info in
        let plugin_path := InPlugins plugin_id in
        let '(removed, w1) :=
          if path_exists plugin_path w
          then _safe_remove_directory env plugin_path w
          else (true, w) in
        if negb removed then (false, w1)
        else
          match acquire env repo_url (info_plugin_path plugin_info) plugin_path
                  branch_candidates w1 with
          | (None, w2) => (false, w2)
          | (Some branch_used, w2) => finish_install env plugin_id w2
          end
  end.

Definition install_plugin (env : Env) (plugin_id : string) (branch : option string)
    (w : World) : outcome bool * World :=
  match get_plugin_info env (now w) plugin_id with
  | Raised e => (Raised e, w)
  | Returned info =>
      let '(ok, w1) := install_plugin_with env info plugin_id branch w in
      (Returned ok, w1)
  end.

(** *** [install_from_url] *)

(** The [error] of a failed [install_from_url], by the [return] that
    produced it. *)
Inductive url_error :=
| MonorepoFetchFailed  (* "Failed to download or extract plugin from monorepo subdirectory" *)
| FetchFailed          (* "Failed to clone or download repository" *)
| NoManifest           (* "No manifest.json found in repository" *)
| NoPluginId           (* "No plugin ID found in manifest" *)
| MissingFields (missing_fields : list string)   (* "Manifest missing required fields" *)
| RemoveFailed         (* "Failed to remove existing plugin directory" *)
| InvalidManifest      (* "Invalid manifest.json", from [json.JSONDecodeError] *)
| OtherError (e : exn). (* [str(e)] of any other exception *)

Inductive url_result :=
| UrlInstalled (plugin_id : string) (name : json) (branch : option string)
| UrlFailed (error : url_error).


(** Does [_validate_manifest_version_fields] raise?  Its warnings are
    only logged; it indexes the manifest by a string key, which only a
    dict allows. *)
Definition version_fields_raise (manifest : json) : bool :=
  match manifest with
  | JObj _ => false
  | _ =>
      match py_in "compatible_versions" manifest, py_in "versions" manifest with
      | Returned a, Returned b => a || b
      | _, _ => true
      end
  end.

(** The [finally] clause: remove the temporary directory if it is
    still there. *)
Definition finally_cleanup (env : Env) (temp_dir : path) (w : World) : World :=
  if path_exists temp_dir w then rmtree_ignore_errors env temp_dir w else w.

(** Lines 986-1018: [None] when the function returns a failure there. *)
Definition url_acquire (env : Env) (repo_url : string) (plugin_path : option string)
    (temp_dir : path) (branch_candidates : list string) (w : World)
    : (url_error + option string) * World :=
  if truthy plugin_path then
    match first_success
            (monorepo_attempt env repo_url (default "" plugin_path) temp_dir)
            branch_candidates w with
    | (Some candidate, w1) => (inr (Some candidate), w1)
    | (None, w1) => (inl MonorepoFetchFailed, w1)
    end
  else
    match _install_via_git env repo_url temp_dir branch_candidates w with
    | (Some branch_used, w1) => (inr (Some branch_used), w1)
    | (None, w1) =>
        match first_success (archive_attempt env repo_url temp_dir)
                branch_candidates w1 with
        | (Some candidate, w2) => (inr (Some candidate), w2)
        | (None, w2) => (inl FetchFailed, w2)
        end
    end.

(** Lines 1067-1093: the move into the plugins directory and the
    result. *)
Definition url_commit (env : Env) (plugin_id : string) (manifest : json)
    (temp_dir : path) (branch_used : option string) (w : World) : url_result * World :=
  let final_path := InPlugins plugin_id in
  let '(removed, w1) :=
    if path_exists final_path w
    then _safe_remove_directory env final_path w
    else (true, w) in
  if negb removed then (UrlFailed RemoveFailed, finally_cleanup env temp_dir w1)
  else
    match move_path env temp_dir final_path w1 with
    | None => (UrlFailed (OtherError OSError), finally_cleanup env temp_dir w1)
    | Some w2 =>
        let w3 := (_install_dependencies env final_path w2).2 in
        match py_get manifest "name" JNull with
        | Raised e => (UrlFailed (OtherError e), w3)
        | Returned name => (UrlInstalled plugin_id name branch_used, w3)
        end
    end.

(** Lines 1020-1063: the manifest checks on the temporary directory. *)
Definition url_validate (env : Env) (plugin_id : option string) (temp_dir : path)
    (branch_used : option string) (w : World) : url_result * World :=
  let t := default ∅ (fs w !! temp_dir) in
  let fail := λ error, (UrlFailed error, finally_cleanup env temp_dir w) in
  if negb (bool_decide (is_Some (t !! manifest_key))) then fail NoManifest
  else
    match load_json t manifest_key with
    | Raised JSONDecodeError => fail InvalidManifest
    | Raised e => fail (OtherError e)
    | Returned manifest =>
        let chosen : outcome (option json) :=
          if truthy plugin_id then Returned (JStr <$> plugin_id)
          else match manifest with
               | JObj fields => Returned (fields_get fields "id")
               | _ => Raised AttributeError
               end in
        match chosen with
        | Raised e => fail (OtherError e)
        | Returned chosen_id =>
            if negb (json_truthy (default JNull chosen_id)) then fail NoPluginId
            else
              match missing_of manifest required_fields with
              | Raised e => fail (OtherError e)
              | Returned (field :: rest) => fail (MissingFields (field :: rest))
              | Returned [] =>
                  if version_fields_raise manifest then fail (OtherError TypeError)
                  else
                    match py_in "entry_point" manifest, manifest with
                    | Raised e, _ => fail (OtherError e)
                    | Returned false, JObj fields =>
                        let manifest' := fields_set fields "entry_point" (JStr "manager.py") in
                        let w1 := dump_manifest temp_dir manifest' w in
                        match chosen_id with
                        | Some (JStr id) =>
                            url_commit env id (JObj manifest') temp_dir branch_used w1
                        | _ => (UrlFailed (OtherError TypeError),
                                finally_cleanup env temp_dir w1)
                        end
                    | Returned false, _ => fail (OtherError TypeError)
                    | Returned true, _ =>
                        match chosen_id with
                        | Some (JStr id) => url_commit env id manifest temp_dir branch_used w
                        | _ => fail (OtherError TypeError)
                        end
                    end
              end
        end
    end.

Definition install_from_url (env : Env) (repo_url : string) (plugin_id : option string)
    (plugin_path : option string) (branch : option string) (w : World)
    : url_result * World :=
  let repo_url := replace ".git" "" (rstrip "/" repo_url) in
  let '(temp_dir, w1) := mkdtemp w in
  let branch_candidates :=
    if truthy branch then _distinct_sequence [branch; Some "main"; Some "master"]
    else ["main"; "master"] in
  match url_acquire env repo_url plugin_path temp_dir branch_candidates w1 with
  | (inl error, w2) => (UrlFailed error, finally_cleanup env temp_dir w2)
  | (inr branch_used, w2) => url_validate env plugin_id temp_dir branch_used w2
  end.

(** *** [uninstall_plugin] *)

Definition _find_plugin_path (env : Env) (plugin_id : string) (w : World) : option path :=
  if path_exists (InPlugins plugin_id) w then Some (InPlugins plugin_id)
  else if standard_plugins_dir_usable env && path_exists (InStandard plugin_id) w
  then Some (InStandard plugin_id)
  else None.

Definition uninstall_plugin (env : Env) (plugin_id : string) (w : World) : bool * World :=
  match _find_plugin_path env plugin_id w with
  | None => (true, w)
  | Some plugin_path =>
      if negb (path_exists plugin_path w) then (true, w)
      else _safe_remove_directory env plugin_path w
  end.

(** *** [update_plugin] *)

Definition _normalize_repo_url (url : string) : string :=
  let url := rstrip "/" url in
  let url := if endswith url ".git" then drop_last 4 url else url in
  lower url.

(** The bundled-marker test: [Returned true] when the function
    returns [True] there; a marker that cannot be read is passed
    over; one that decodes to something else than a dict raises. *)
Definition bundled_marker (t : tree) : outcome bool :=
  match t !! [".plugin_metadata.json"] with
  | Some (NFile (Json (JObj fields))) =>
      Returned (match fields_get fields "install_type" with
                | Some (JStr install_type) => bool_decide (install_type = "bundled")
                | _ => false
                end)
  | Some (NFile (Json _)) => Raised AttributeError
  | _ => Returned false
  end.

(** [_get_local_git_info]: nothing without [.git]. *)
Definition _get_local_git_info (env : Env) (plugin_path : path) (w : World)
    : outcome (option git_info) :=
  let t := default ∅ (fs w !! plugin_path) in
  if bool_decide (is_Some (t !! [".git"])) then git_rev_parse env (now w) plugin_path t
  else Returned None.

(** [bool(x)] of an exception-free call, [False] when it raised: the
    outer [except Exception] of [update_plugin]. *)
Definition caught (r : outcome bool * World) : bool * World :=
  match r with
  | (Returned b, w) => (b, w)
  | (Raised _, w) => (false, w)
  end.

(** Lines 1814-2036: the pull, as one step of the environment, then
    the dependencies. *)
Definition update_via_pull (env : Env) (plugin_path : path) (local_branch : string)
    (remote_branch : option string) (w : World) : bool * World :=
  let t := default ∅ (fs w !! plugin_path) in
  let '(ok, t') := git_pull env (now w) plugin_path t local_branch remote_branch in
  let w1 := emit (EvGitPull plugin_path) (set_fs (<[plugin_path := t']> (fs w)) w) in
  if ok then (true, (_install_dependencies env plugin_path w1).2) else (false, w1).

(** Lines 1779-2036: the plugin is a git checkout. *)
Definition update_checkout (env : Env) (plugin_id : string) (plugin_path : path)
    (info : git_info) (w : World) : bool * World :=
  let local_branch := if bool_decide (git_branch info = "") then "main" else git_branch info in
  let local_sha := git_sha info in
  match get_plugin_info env (now w) plugin_id with
  | Raised _ => (false, w)
  | Returned None => update_via_pull env plugin_path local_branch None w
  | Returned (Some plugin_info_remote) =>
      let remote_branch :=
        if truthy (info_branch plugin_info_remote) then info_branch plugin_info_remote
        else info_default_branch plugin_info_remote in
      let remote_sha := default "" (info_last_commit_sha plugin_info_remote) in
      let registry_repo := default "" (info_repo plugin_info_remote) in
      let local_remote := default "" (git_remote_url info) in
      if negb (bool_decide (local_remote = "")) && negb (bool_decide (registry_repo = ""))
         && negb (bool_decide (_normalize_repo_url local_remote
                               = _normalize_repo_url registry_repo))
      then
        match _safe_remove_directory env plugin_path w with
        | (false, w1) => (false, w1)
        | (true, w1) => caught (install_plugin env plugin_id None w1)
        end
      else if negb (bool_decide (remote_sha = "")) && negb (bool_decide (local_sha = ""))
              && startswith remote_sha local_sha
      then (true, w)
      else update_via_pull env plugin_path local_branch remote_branch w
  end.

(** Lines 2038-2120: the plugin is not a git checkout. *)
Definition update_archive (env : Env) (plugin_id : string) (plugin_path : path)
    (w : World) : bool * World :=
  let repo_url := git_config_remote env (now w) plugin_path in
  match get_plugin_info env (now w) plugin_id with
  | Raised _ => (false, w)
  | Returned None =>
      if truthy repo_url then
        let branch :=
          match git_current_branch env (now w) plugin_path with
          | Some b => if bool_decide (b = "HEAD") || bool_decide (b = "") then "main" else b
          | None => "main"
          end in
        match install_from_url env (default "" repo_url) (Some plugin_id) None (Some branch) w with
        | (UrlInstalled _ _ _, w1) => (true, w1)
        | (UrlFailed _, w1) => (false, w1)
        end
      else (false, w)
  | Returned (Some plugin_info_remote) =>
      let t := default ∅ (fs w !! plugin_path) in
      let same_version :=
        match load_json t manifest_key with
        | Returned (JObj fields) =>
            match fields_get fields "version", info_latest_version plugin_info_remote with
            | Some (JStr local_version), Some remote_version =>
                negb (bool_decide (local_version = ""))
                && bool_decide (local_version = remote_version)
            | _, _ => false
            end
        | _ => false
        end in
      if same_version then (true, w)
      else
        match _safe_remove_directory env plugin_path w with
        | (false, w1) => (false, w1)
        | (true, w1) => caught (install_plugin env plugin_id None w1)
        end
  end.

Definition update_plugin (env : Env) (plugin_id : string) (w : World) : bool * World :=
  match _find_plugin_path env plugin_id w with
  | None => (false, w)
  | Some plugin_path =>
      let t := default ∅ (fs w !! plugin_path) in
      match bundled_marker t with
      | Raised _ => (false, w)
      | Returned true => (true, w)
      | Returned false =>
          match _get_local_git_info env plugin_path w with
          | Raised _ => (false, w)
          | Returned (Some info) => update_checkout env plugin_id plugin_path info w
          | Returned None => update_archive env plugin_id plugin_path w
          end
      end
  end.

(** [plugins_dir / name] is the entry [name] of the plugins directory
    when [name] is one path component: not empty, not [.] or [..],
    and without a separator.  Only then is [InPlugins name] the path
    that the code works on. *)
Definition is_component (name : string) : bool :=
  negb (bool_decide (name = "")) && negb (bool_decide (name = "."))
  && negb (bool_decide (name = "..")) && negb (contains "/" name).

(** *** The installed plugins: [list_installed_plugins],
    [get_installed_plugin_info] *)

(** [item.is_dir() and (item / "manifest.json").exists()] *)
Definition has_manifest (t : tree) : bool :=
  negb (is_file (t !! [])) && bool_decide (is_Some (t !! manifest_key)).

(** The names are those of [plugins_dir.iterdir()], in the order the
    file system gives them; [plugins_dir.exists()] fails only when
    there is nothing to list. *)
Definition list_installed_plugins (w : World) : list string :=
  omap (λ entry : path * tree,
          match entry.1 with
          | InPlugins name => if has_manifest entry.2 then Some name else None
          | _ => None
          end)
       (map_to_list (fs w)).

(** [None] without a manifest, and when reading it raises. *)
Definition get_installed_plugin_info (plugin_id : string) (w : World) : option json :=
  let t := default ∅ (fs w !! InPlugins plugin_id) in
  if negb (bool_decide (is_Some (t !! manifest_key))) then None
  else
    match load_json t manifest_key with
    | Returned manifest => Some manifest
    | Raised _ => None
    end.

End Store.

(** ** Concrete runs

    Environments and worlds on which the functions are evaluated. *)

Module Scenario.
Import Py Seq.

(** *** Token validation *)

Definition token_env : Token.Env :=
  {| Token.clock := λ n, 1000 + Z.of_nat n;
     Token.get_user := λ _ _, Token.Response 200 "" |}.

Definition token_start : Token.State :=
  {| Token._token_validation_cache := ∅;
     Token.clock_reads := 0;
     Token.probes := [] |}.

Definition sample_token : string := "ghp_0123456789abcdef".

(** *** The registry *)

Definition registry_start : Registry.State :=
  {| Registry.registry_cache := None;
     Registry.registry_cache_time := None;
     Registry.clock_reads := 0;
     Registry.requests_made := 0 |}.

(** The registry URL answers 200 with the given JSON document. *)
Definition registry_serving (document : json) : Registry.Env :=
  {| Registry.clock := λ n, 1000 + Z.of_nat n;
     Registry.get := λ _, Registry.Resp 200 (Some document) |}.

(** *** The store *)

Import Store.

(** No network, no git, removal always works, nothing in the
    registry. *)
Definition offline : Env :=
  {| http_get := λ _ _, ConnectionFailed;
     git_clone := λ _ _ _ _, CloneFailed None;
     rmtree := λ _ _ _, None;
     rmtree_after_chmod := λ _ _ _, None;
     sudo_remove_directory := λ _ _ _, None;
     get_plugin_info := λ _ _, Returned None;
     git_rev_parse := λ _ _ _, Returned None;
     git_config_remote := λ _ _, None;
     git_current_branch := λ _ _, None;
     git_pull := λ _ _ t _ _, (false, t);
     ensure_directory_permissions := λ _ _, true;
     pip_install := λ _ _, true;
     detect_class := λ _, None;
     plugins_dir := ["srv"; "ledmatrix"; "plugin-repos"];
     standard_plugins_dir := ["srv"; "ledmatrix"; "plugins"];
     standard_plugins_dir_usable := true;
     tmp_dir := λ n, ["tmp"; "ledmatrix_plugin_" +:+ pretty n];
     scratch_dir := ["tmp"; "extract"] |}.

(** The same environment with other answers. *)
Definition with_http (answer : nat → string → http_result) (env : Env) : Env :=
  {| http_get := answer;
     git_clone := git_clone env;
     rmtree := rmtree env;
     rmtree_after_chmod := rmtree_after_chmod env;
     sudo_remove_directory := sudo_remove_directory env;
     get_plugin_info := get_plugin_info env;
     git_rev_parse := git_rev_parse env;
     git_config_remote := git_config_remote env;
     git_current_branch := git_current_branch env;
     git_pull := git_pull env;
     ensure_directory_permissions := ensure_directory_permissions env;
     pip_install := pip_install env;
     detect_class := detect_class env;
     plugins_dir := plugins_dir env;
     standard_plugins_dir := standard_plugins_dir env;
     standard_plugins_dir_usable := standard_plugins_dir_usable env;
     tmp_dir := tmp_dir env;
     scratch_dir := scratch_dir env |}.

Definition with_clone (answer : nat → string → option string → path → clone_result)
    (env : Env) : Env :=
  {| http_get := http_get env;
     git_clone := answer;
     rmtree := rmtree env;
     rmtree_after_chmod := rmtree_after_chmod env;
     sudo_remove_directory := sudo_remove_directory env;
     get_plugin_info := get_plugin_info env;
     git_rev_parse := git_rev_parse env;
     git_config_remote := git_config_remote env;
     git_current_branch := git_current_branch env;
     git_pull := git_pull env;
     ensure_directory_permissions := ensure_directory_permissions env;
     pip_install := pip_install env;
     detect_class := detect_class env;
     plugins_dir := plugins_dir env;
     standard_plugins_dir := standard_plugins_dir env;
     standard_plugins_dir_usable := standard_plugins_dir_usable env;
     tmp_dir := tmp_dir env;
     scratch_dir := scratch_dir env |}.

Definition with_registry (answer : nat → string → outcome (option plugin_info))
    (env : Env) : Env :=
  {| http_get := http_get env;
     git_clone := git_clone env;
     rmtree := rmtree env;
     rmtree_after_chmod := rmtree_after_chmod env;
     sudo_remove_directory := sudo_remove_directory env;
     get_plugin_info := answer;
     git_rev_parse := git_rev_parse env;
     git_config_remote := git_config_remote env;
     git_current_branch := git_current_branch env;
     git_pull := git_pull env;
     ensure_directory_permissions := ensure_directory_permissions env;
     pip_install := pip_install env;
     detect_class := detect_class env;
     plugins_dir := plugins_dir env;
     standard_plugins_dir := standard_plugins_dir env;
     standard_plugins_dir_usable := standard_plugins_dir_usable env;
     tmp_dir := tmp_dir env;
     scratch_dir := scratch_dir env |}.

Definition with_checkout (answer : nat → path → tree → outcome (option git_info))
    (env : Env) : Env :=
  {| http_get := http_get env;
     git_clone := git_clone env;
     rmtree := rmtree env;
     rmtree_after_chmod := rmtree_after_chmod env;
     sudo_remove_directory := sudo_remove_directory env;
     get_plugin_info := get_plugin_info env;
     git_rev_parse := answer;
     git_config_remote := git_config_remote env;
     git_current_branch := git_current_branch env;
     git_pull := git_pull env;
     ensure_directory_permissions := ensure_directory_permissions env;
     pip_install := pip_install env;
     detect_class := detect_class env;
     plugins_dir := plugins_dir env;
     standard_plugins_dir := standard_plugins_dir env;
     standard_plugins_dir_usable := standard_plugins_dir_usable env;
     tmp_dir := tmp_dir env;
     scratch_dir := scratch_dir env |}.


Definition empty_world : World := {| fs := ∅; trace := []; next_tmp := 0 |}.

Definition world_with (p : path) (t : tree) : World :=
  {| fs := {[ p := t ]}; trace := []; next_tmp := 0 |}.

(** A complete manifest with the given id. *)
Definition manifest_of (id : string) : json :=
  JObj [("id", JStr id); ("name", JStr "Clock"); ("class_name", JStr "ClockPlugin");
        ("display_modes", JArr [JStr "clock"]); ("entry_point", JStr "manager.py")].

(** An installed checkout of the plugin [clock]. *)
Definition clock_checkout : tree :=
  {[ [".git"] := NDir;
     ["manifest.json"] := NFile (Json (manifest_of "clock"));
     ["manager.py"] := NFile (Raw "class ClockPlugin(BasePlugin): pass") ]}.

Definition clock_entry (repo : string) : plugin_info :=
  {| info_repo := Some repo;
     info_plugin_path := Some "plugins/clock";
     info_branch := Some "main";
     info_default_branch := Some "main";
     info_last_commit_branch := Some "main";
     info_last_commit_sha := Some "abc123def4567890";
     info_latest_version := Some "1.0.0" |}.

Definition clock_git (remote : string) : git_info :=
  {| git_sha := "abc123d"; git_branch := "main"; git_remote_url := Some remote |}.

(** The registry lists [clock] at [registry_repo]; the local checkout
    was cloned from [local_remote]. *)
Definition clock_env (registry_repo local_remote : string) : Env :=
  with_registry (λ _ _, Returned (Some (clock_entry registry_repo)))
    (with_checkout (λ _ _ _, Returned (Some (clock_git local_remote))) offline).

(** A repository that can be cloned at [main] and holds the clock
    plugin, whose manifest says [clock]. *)
Definition clock_repo : Env :=
  with_clone (λ _ _ branch _,
                match branch with
                | Some "main" => CloneOk clock_checkout
                | _ => CloneFailed None
                end)
    offline.

(** The monorepo [https://github.com/x/y]: branch [main] holds
    [plugins/hello-world] with a manifest and a manager. *)
Definition hello_manifest : json :=
  JObj [("id", JStr "hello-world"); ("name", JStr "Hello World");
        ("class_name", JStr "HelloWorld"); ("display_modes", JArr [JStr "hello"])].

Definition hello_listing : list tree_entry :=
  [ {| te_path := "README.md"; te_type := "blob" |};
    {| te_path := "plugins"; te_type := "tree" |};
    {| te_path := "plugins/hello-world"; te_type := "tree" |};
    {| te_path := "plugins/hello-world/manifest.json"; te_type := "blob" |};
    {| te_path := "plugins/hello-world/manager.py"; te_type := "blob" |} ].

Definition hello_manager : blob := Raw "class HelloWorld(BasePlugin): pass".

Definition hello_repo : string := "https://github.com/x/y".

Definition hello_http (listing : list tree_entry) (i : nat) (url : string) : http_result :=
  if bool_decide (url = trees_url "x" "y" "main") then Resp 200 (BTree false listing)
  else if bool_decide (url = raw_url "x" "y" "main" "plugins/hello-world/manifest.json")
  then Resp 200 (BFile (Json hello_manifest))
  else if bool_decide (url = raw_url "x" "y" "main" "plugins/hello-world/manager.py")
  then Resp 200 (BFile hello_manager)
  else Resp 404 (BFile (Raw "404: Not Found")).

Definition hello_env : Env := with_http (hello_http hello_listing) offline.

Definition hello_entry : plugin_info :=
  {| info_repo := Some hello_repo;
     info_plugin_path := Some "plugins/hello-world";
     info_branch := Some "main";
     info_default_branch := Some "main";
     info_last_commit_branch := None;
     info_last_commit_sha := None;
     info_latest_version := None |}.











(** An installed copy of the hello-world plugin that is not a git
    checkout, and a registry that lists the plugin while the network
    is down. *)
Definition hello_installed : World :=
  world_with (InPlugins "hello-world")
    {[ ["manifest.json"] := NFile (Json hello_manifest);
       ["manager.py"] := NFile hello_manager ]}.

Definition unreachable_env : Env :=
  with_registry (λ _ _, Returned (Some hello_entry)) offline.

(** *** The registry when it cannot be reached *)

Definition registry_down : Registry.Env :=
  {| Registry.clock := λ n, 5000 + Z.of_nat n;
     Registry.get := λ _, Registry.ConnectionFailed |}.

(** A manager that fetched a catalog of one plugin at time 1000. *)
Definition registry_cached : Registry.State :=
  {| Registry.registry_cache := Some (JObj [("plugins", JArr [manifest_of "clock"])]);
     Registry.registry_cache_time := Some 1000;
     Registry.clock_reads := 7;
     Registry.requests_made := 1 |}.

(** A second token that shares its first ten characters with
    [sample_token]. *)
Definition other_token : string := "ghp_012345_revoked".

End Scenario.

(** ** Warnings about version fields: [_validate_manifest_version_fields] *)

Module Manifest.
Import Py Store.

(** [manifest[key]]: a dict raises [KeyError] on a missing key, no
    other value can be indexed by a string. *)
Definition py_index (manifest : json) (key : string) : outcome json :=
  match manifest with
  | JObj fields =>
      match fields_get fields key with
      | Some v => Returned v
      | None => Raised KeyError
      end
  | _ => Raised TypeError
  end.

Definition and_then {A B} (x : outcome A) (f : A → outcome B) : outcome B :=
  match x with
  | Returned a => f a
  | Raised e => Raised e
  end.

Definition deprecated_ledmatrix_version : string :=
  "ledmatrix_version is deprecated, use compatible_versions instead".

Definition deprecated_ledmatrix_min (i : nat) : string :=
  "versions[" +:+ pretty i
  +:+ "] uses deprecated 'ledmatrix_min', should use 'ledmatrix_min_version'".

(** The test on one entry of [versions]; entries that are not dicts
    are passed over. *)
Definition uses_ledmatrix_min (version_entry : json) : bool :=
  match version_entry with
  | JObj fields =>
      bool_decide (is_Some (fields_get fields "ledmatrix_min"))
      && negb (bool_decide (is_Some (fields_get fields "ledmatrix_min_version")))
  | _ => false
  end.

(** [for i, version_entry in enumerate(...)], from index [i]. *)
Fixpoint versions_loop (i : nat) (entries : list json) : list string :=
  match entries with
  | [] => []
  | version_entry :: rest =>
      (if uses_ledmatrix_min version_entry then [deprecated_ledmatrix_min i] else [])
      ++ versions_loop (S i) rest
  end.

Definition _validate_manifest_version_fields (manifest : json) : outcome (list string) :=
  and_then (py_in "compatible_versions" manifest) (λ has_compatible,
  and_then
    (if has_compatible then
       and_then (py_index manifest "compatible_versions") (λ compatible,
         match compatible with
         | JArr [] => Returned ["compatible_versions array cannot be empty"]
         | JArr _ => Returned []
         | _ => Returned ["compatible_versions must be an array"]
         end)
     else Returned []) (λ errors1,
  and_then (py_in "ledmatrix_version" manifest) (λ has_deprecated,
  let errors2 := if has_deprecated then [deprecated_ledmatrix_version] else [] in
  and_then (py_in "versions" manifest) (λ has_versions,
  and_then
    (if has_versions then
       and_then (py_index manifest "versions") (λ versions,
         match versions with
         | JArr entries => Returned (versions_loop 0 entries)
         | _ => Returned []
         end)
     else Returned []) (λ errors3,
  Returned (errors1 ++ errors2 ++ errors3)))))).

End Manifest.

(** ** Metadata from GitHub: [_get_latest_commit_info],
    [_fetch_manifest_from_github], [_get_github_repo_info],
    [fetch_registry_from_url] *)

Module GitHub.
Import Py Seq.

(** One [requests.get]: a connection failure, or a response with its
    status and what [response.json()] gives ([None] when it raises). *)
Inductive http_result :=
| ConnectionFailed
| Resp (status_code : Z) (body : option json).

(** The clock and the network are indexed by how often they were
    consulted before; the [Authorization] header is fixed by the
    manager's configuration, and the answers are those for it.
    [strftime_date] is
    [datetime.fromisoformat(s).strftime('%Y-%m-%d')], [None] when it
    raises. *)
Record Env := {
  clock : nat → Z;
  get : nat → string → http_result;
  strftime_date : string → option string;
}.

(** The caches map a key to [(timestamp, data)]; Python's [None] as
    data is [JNull]. *)
Record State := {
  github_cache : gmap string (Z * json);        (* cache_timeout = 3600 *)
  commit_info_cache : gmap string (Z * json);   (* commit_cache_timeout = 300 *)
  manifest_cache : gmap string (Z * json);      (* manifest_cache_timeout = 300 *)
  clock_reads : nat;
  requests : list string;                       (* URLs requested, oldest first *)
}.

Definition cache_timeout : Z := 3600.
Definition commit_cache_timeout : Z := 300.
Definition manifest_cache_timeout : Z := 300.

Definition time_time (env : Env) (st : State) : Z * State :=
  (clock env (clock_reads st),
   {| github_cache := github_cache st;
      commit_info_cache := commit_info_cache st;
      manifest_cache := manifest_cache st;
      clock_reads := S (clock_reads st);
      requests := requests st |}).

Definition requests_get (env : Env) (url : string) (st : State) : http_result * State :=
  (get env (length (requests st)) url,
   {| github_cache := github_cache st;
      commit_info_cache := commit_info_cache st;
      manifest_cache := manifest_cache st;
      clock_reads := clock_reads st;
      requests := requests st ++ [url] |}).

Definition set_github_cache (c : gmap string (Z * json)) (st : State) : State :=
  {| github_cache := c;
     commit_info_cache := commit_info_cache st;
     manifest_cache := manifest_cache st;
     clock_reads := clock_reads st;
     requests := requests st |}.

Definition set_commit_info_cache (c : gmap string (Z * json)) (st : State) : State :=
  {| github_cache := github_cache st;
     commit_info_cache := c;
     manifest_cache := manifest_cache st;
     clock_reads := clock_reads st;
     requests := requests st |}.

Definition set_manifest_cache (c : gmap string (Z * json)) (st : State) : State :=
  {| github_cache := github_cache st;
     commit_info_cache := commit_info_cache st;
     manifest_cache := c;
     clock_reads := clock_reads st;
     requests := requests st |}.

(** [_http_get_with_retries] with [max_retries = 3]: [None] when the
    last exception is raised. *)
Fixpoint http_retry_loop (env : Env) (attempts : nat) (url : string) (st : State)
    : option (Z * option json) * State :=
  match attempts with
  | O => (None, st)
  | S k =>
      match requests_get env url st with
      | (Resp status_code body, st1) => (Some (status_code, body), st1)
      | (ConnectionFailed, st1) => http_retry_loop env k url st1
      end
  end.

Definition _http_get_with_retries (env : Env) (url : string) (st : State)
    : option (Z * option json) * State :=
  http_retry_loop env 3 url st.

(** [x.get(key, default)], [None] when it raises. *)
Definition get_or (j : json) (key : string) (dflt : json) : option json :=
  match py_get j key dflt with
  | Returned v => Some v
  | Raised _ => None
  end.

(** [_iso_to_date]: the empty string for a falsey value and whenever
    the conversion raises. *)
Definition _iso_to_date (env : Env) (iso_timestamp : json) : string :=
  if negb (json_truthy iso_timestamp) then ""
  else
    match iso_timestamp with
    | JStr s => default "" (strftime_date env (replace "Z" "+00:00" s))
    | _ => ""
    end.

(** [x[:7] if x else '']; [None] when the slice raises. *)
Definition short_sha (commit_sha_full : json) : option json :=
  if negb (json_truthy commit_sha_full) then Some (JStr "")
  else
    match commit_sha_full with
    | JStr s => Some (JStr (take 7 s))
    | JArr l => Some (JArr (firstn 7 l))
    | _ => None
    end.

(** *** [_get_latest_commit_info] *)

Definition commits_url (owner repo branch_name : string) : string :=
  "https://api.github.com/repos/" +:+ owner +:+ "/" +:+ repo +:+ "/commits/" +:+ branch_name.

(** The [result] dict built from a 200 answer; [None] when building
    it raises. *)
Definition commit_result (env : Env) (branch_name : string) (commit_data : json)
    : option json :=
  commit_sha_full ← get_or commit_data "sha" (JStr "");
  commit_sha_short ← short_sha commit_sha_full;
  commit_meta ← get_or commit_data "commit" (JObj []);
  commit_author ← get_or commit_meta "author" (JObj []);
  commit_date_iso ← get_or commit_author "date" (JStr "");
  author ← get_or commit_author "name" (JStr "");
  message ← get_or commit_meta "message" (JStr "");
  Some (JObj [("branch", JStr branch_name);
              ("sha", commit_sha_full);
              ("short_sha", commit_sha_short);
              ("date_iso", commit_date_iso);
              ("date", JStr (_iso_to_date env commit_date_iso));
              ("author", author);
              ("message", message)]).

(** How the loop over [branches_to_try] ends. *)
Inductive loop_end :=
| Found (result : json)     (* a branch answered 200 *)
| Failed                    (* an exception left the loop *)
| Exhausted.                (* no branch answered 200 *)

Fixpoint commit_loop (env : Env) (owner repo : string) (branches_to_try : list string)
    (st : State) : loop_end * State :=
  match branches_to_try with
  | [] => (Exhausted, st)
  | branch_name :: rest =>
      match requests_get env (commits_url owner repo branch_name) st with
      | (ConnectionFailed, st1) => (Failed, st1)
      | (Resp status_code body, st1) =>
          if bool_decide (status_code = 200) then
            match body with
            | None => (Failed, st1)
            | Some commit_data =>
                match commit_result env branch_name commit_data with
                | Some result => (Found result, st1)
                | None => (Failed, st1)
                end
            end
          else commit_loop env owner repo rest st1
      end
  end.

(** The "check cache first" block of the three functions: the clock
    is read only when there is an entry. *)
Definition cache_check (env : Env) (timeout : Z) (cache : gmap string (Z * json))
    (cache_key : string) (st : State) : option json * State :=
  match cache !! cache_key with
  | Some (cached_time, cached_data) =>
      let '(now, st1) := time_time env st in
      if bool_decide (now - cached_time < timeout) then (Some cached_data, st1)
      else (None, st1)
  | None => (None, st)
  end.

(** The value returned is a dict or [None] ([JNull]). *)
Definition _get_latest_commit_info (env : Env) (repo_url branch : string)
    (force_refresh : bool) (st : State) : json * State :=
  if negb (contains "github.com" repo_url) then (JNull, st)
  else
    match Store.owner_repo repo_url with
    | None => (JNull, st)
    | Some (owner, repo) =>
        let cache_key := owner +:+ "/" +:+ repo +:+ ":" +:+ branch in
        let '(hit, st1) :=
          if force_refresh then (None, st)
          else cache_check env commit_cache_timeout (commit_info_cache st) cache_key st in
        match hit with
        | Some cached_data => (cached_data, st1)
        | None =>
            let branches_to_try :=
              _distinct_sequence [Some branch; Some "main"; Some "master"] in
            match commit_loop env owner repo branches_to_try st1 with
            | (Found result, st2) =>
                let '(now, st3) := time_time env st2 in
                (result,
                 set_commit_info_cache
                   (<[cache_key := (now, result)]> (commit_info_cache st3)) st3)
            | (Failed, st2) => (JNull, st2)
            | (Exhausted, st2) =>
                let '(now, st3) := time_time env st2 in
                (JNull,
                 set_commit_info_cache
                   (<[cache_key := (now, JNull)]> (commit_info_cache st3)) st3)
            end
        end
    end.

(** *** [_fetch_manifest_from_github] *)

(** [self.manifest_cache[cache_key] = (time.time(), data)] *)
Definition remember_manifest (env : Env) (cache_key : string) (data : json) (st : State)
    : State :=
  let '(now, st1) := time_time env st in
  set_manifest_cache (<[cache_key := (now, data)]> (manifest_cache st1)) st1.

Definition _fetch_manifest_from_github (env : Env) (repo_url branch manifest_path : string)
    (force_refresh : bool) (st : State) : json * State :=
  if negb (contains "github.com" repo_url) then (JNull, st)
  else
    match Store.owner_repo repo_url with
    | None => (JNull, st)
    | Some (owner, repo) =>
        let cache_key := owner +:+ "/" +:+ repo +:+ ":" +:+ branch +:+ ":" +:+ manifest_path in
        let '(hit, st1) :=
          if force_refresh then (None, st)
          else cache_check env manifest_cache_timeout (manifest_cache st) cache_key st in
        match hit with
        | Some cached_data => (cached_data, st1)
        | None =>
            match _http_get_with_retries env
                    (Store.raw_url owner repo branch manifest_path) st1 with
            | (None, st2) => (JNull, st2)
            | (Some (status_code, body), st2) =>
                if bool_decide (status_code = 200) then
                  match body with
                  | None => (JNull, st2)
                  | Some result => (result, remember_manifest env cache_key result st2)
                  end
                else if bool_decide (status_code = 404) && negb (bool_decide (branch = "main"))
                then
                  match _http_get_with_retries env
                          (Store.raw_url owner repo "main" manifest_path) st2 with
                  | (None, st3) => (JNull, st3)
                  | (Some (status_code', body'), st3) =>
                      if bool_decide (status_code' = 200) then
                        match body' with
                        | None => (JNull, st3)
                        | Some result => (result, remember_manifest env cache_key result st3)
                        end
                      else (JNull, remember_manifest env cache_key JNull st3)
                  end
                else (JNull, remember_manifest env cache_key JNull st2)
            end
        end
    end.

(** *** [_get_github_repo_info] *)

Definition default_repo_info : json :=
  JObj [("stars", JNum 0); ("forks", JNum 0); ("open_issues", JNum 0);
        ("updated_at_iso", JStr ""); ("last_commit_iso", JStr "");
        ("last_commit_date", JStr ""); ("language", JStr ""); ("license", JStr "");
        ("default_branch", JStr "main")].

(** [a or b] *)
Definition py_or (a b : json) : json := if json_truthy a then a else b.

(** The [repo_info] dict built from a 200 answer; [None] when
    building it raises. *)
Definition repo_info_of (env : Env) (data : json) : option json :=
  pushed ← get_or data "pushed_at" (JStr "");
  updated ← get_or data "updated_at" (JStr "");
  let pushed_at := py_or pushed updated in
  stars ← get_or data "stargazers_count" (JNum 0);
  forks ← get_or data "forks_count" (JNum 0);
  open_issues ← get_or data "open_issues_count" (JNum 0);
  language ← get_or data "language" (JStr "");
  license ← get_or data "license" JNull;
  license_name ←
    (if json_truthy license
     then license' ← get_or data "license" (JObj []); get_or license' "name" (JStr "")
     else Some (JStr ""));
  default_branch ← get_or data "default_branch" (JStr "main");
  Some (JObj [("stars", stars); ("forks", forks); ("open_issues", open_issues);
              ("updated_at_iso", updated); ("last_commit_iso", pushed_at);
              ("last_commit_date", JStr (_iso_to_date env pushed_at));
              ("language", language); ("license", license_name);
              ("default_branch", default_branch)]).

(** [parts = repo_url.strip('/').split('/')], then the last two parts,
    the last one without a [.git] suffix. *)
Definition repo_key (repo_url : string) : option (string * string) :=
  let parts := split "/" (strip "/" repo_url) in
  match last2 parts, last1 parts with
  | Some owner, Some repo =>
      Some (owner, if endswith repo ".git" then drop_last 4 repo else repo)
  | _, _ => None
  end.

Definition repo_api_url (owner repo : string) : string :=
  "https://api.github.com/repos/" +:+ owner +:+ "/" +:+ repo.

Definition _get_github_repo_info (env : Env) (repo_url : string) (st : State)
    : json * State :=
  if negb (contains "github.com" repo_url) then (default_repo_info, st)
  else
    match repo_key repo_url with
    | None => (default_repo_info, st)
    | Some (owner, repo) =>
        let cache_key := owner +:+ "/" +:+ repo in
        match cache_check env cache_timeout (github_cache st) cache_key st with
        | (Some cached_data, st1) => (cached_data, st1)
        | (None, st1) =>
            match requests_get env (repo_api_url owner repo) st1 with
            | (ConnectionFailed, st2) => (default_repo_info, st2)
            | (Resp status_code body, st2) =>
                if bool_decide (status_code = 200) then
                  match body with
                  | None => (default_repo_info, st2)
                  | Some data =>
                      match repo_info_of env data with
                      | None => (default_repo_info, st2)
                      | Some repo_info =>
                          let '(now, st3) := time_time env st2 in
                          (repo_info,
                           set_github_cache
                             (<[cache_key := (now, repo_info)]> (github_cache st3)) st3)
                      end
                  end
                else (default_repo_info, st2)
            end
        end
    end.

(** *** [fetch_registry_from_url] *)

Definition registry_urls (repo_url : string) : list string :=
  if contains "github.com" repo_url then
    let parts := split "/" repo_url in
    match last2 parts, last1 parts with
    | Some owner, Some repo =>
        [Store.raw_url owner repo "main" "plugins.json";
         Store.raw_url owner repo "main" "registry.json";
         Store.raw_url owner repo "master" "plugins.json";
         Store.raw_url owner repo "master" "registry.json"]
    | _, _ => []
    end
  else [].

(** [isinstance(registry, dict) and 'plugins' in registry] *)
Definition looks_like_registry (registry : json) : bool :=
  match registry with
  | JObj fields => bool_decide (is_Some (fields_get fields "plugins"))
  | _ => false
  end.

(** The loop over [registry_urls]; an exception only ends the turn of
    its URL. *)
Fixpoint registry_loop (env : Env) (urls : list string) (st : State) : json * State :=
  match urls with
  | [] => (JNull, st)
  | url :: rest =>
      match _http_get_with_retries env url st with
      | (Some (status_code, Some registry), st1) =>
          if bool_decide (status_code = 200) && looks_like_registry registry
          then (registry, st1)
          else registry_loop env rest st1
      | (_, st1) => registry_loop env rest st1
      end
  end.

Definition fetch_registry_from_url (env : Env) (repo_url : string) (st : State)
    : json * State :=
  let repo_url := replace ".git" "" (rstrip "/" repo_url) in
  registry_loop env (registry_urls repo_url) st.

(** The keys of the dict that [_get_github_repo_info] returns. *)
Definition repo_info_keys : list string :=
  ["stars"; "forks"; "open_issues"; "updated_at_iso"; "last_commit_iso";
   "last_commit_date"; "language"; "license"; "default_branch"].

Definition has_keys (keys : list string) (data : json) : Prop :=
  ∃ fields, data = JObj fields ∧ Forall (λ key, is_Some (fields_get fields key)) keys.

End GitHub.

(** ** Concrete runs against GitHub *)

Module RemoteScenario.
Import Py GitHub.

(** The answer of the commits endpoint for the head of [main]. *)
Definition head_commit : json :=
  JObj [("sha", JStr "0123456789abcdef0123");
        ("commit",
         JObj [("author", JObj [("name", JStr "Ada"); ("date", JStr "2024-05-01T10:00:00Z")]);
               ("message", JStr "Fix the clock")])].

Definition repository_data : json :=
  JObj [("stargazers_count", JNum 42); ("pushed_at", JStr "2024-05-01T10:00:00Z");
        ("default_branch", JStr "main"); ("license", JNull)].

(** The repository [x/y] has a [main] branch only; it holds
    [manifest.json] and [plugins.json]. *)
Definition github_answers (url : string) : http_result :=
  if bool_decide (url = commits_url "x" "y" "main") then Resp 200 (Some head_commit)
  else if bool_decide (url = Store.raw_url "x" "y" "main" "manifest.json")
  then Resp 200 (Some (Scenario.manifest_of "clock"))
  else if bool_decide (url = Store.raw_url "x" "y" "main" "plugins.json")
  then Resp 200 (Some (JObj [("plugins", JArr [Scenario.manifest_of "clock"])]))
  else if bool_decide (url = repo_api_url "x" "y") then Resp 200 (Some repository_data)
  else Resp 404 None.

Definition github_env : Env :=
  {| clock := λ n, 1000 + Z.of_nat n;
     get := λ _, github_answers;
     strftime_date := λ s, Some (take 10 s) |}.

Definition github_start : State :=
  {| github_cache := ∅;
     commit_info_cache := ∅;
     manifest_cache := ∅;
     clock_reads := 0;
     requests := [] |}.

End RemoteScenario.

(** ** Looking a plugin up in the registry: [get_registry_info] and
    the first step of [get_plugin_info] *)

Module Lookup.
Import Py.

(** [registry.get('plugins', []) or []] *)
Definition plugins_of (registry : json) : outcome json :=
  match py_get registry "plugins" (JArr []) with
  | Returned plugins => Returned (if json_truthy plugins then plugins else JArr [])
  | Raised e => Raised e
  end.

Fixpoint characters (s : string) : list json :=
  match s with
  | "" => []
  | String c rest => JStr (String c "") :: characters rest
  end.

(** What [for p in plugins] goes through: the items of a list, the
    characters of a string, the keys of a dict; anything else is not
    iterable. *)
Definition py_iter (plugins : json) : outcome (list json) :=
  match plugins with
  | JArr items => Returned items
  | JStr s => Returned (characters s)
  | JObj fields => Returned (JStr <$> fields.*1)
  | _ => Raised TypeError
  end.

(** [value == plugin_id] for a string [plugin_id] *)
Definition equals_str (value : json) (plugin_id : string) : bool :=
  match value with
  | JStr s => bool_decide (s = plugin_id)
  | _ => false
  end.

(** [next((p for p in plugins if p.get('id') == plugin_id), None)] *)
Fixpoint next_by_get (items : list json) (plugin_id : string) : outcome json :=
  match items with
  | [] => Returned JNull
  | p :: rest =>
      match py_get p "id" JNull with
      | Raised e => Raised e
      | Returned value =>
          if equals_str value plugin_id then Returned p else next_by_get rest plugin_id
      end
  end.

(** [next((p for p in plugins if p['id'] == plugin_id), None)] *)
Fixpoint next_by_index (items : list json) (plugin_id : string) : outcome json :=
  match items with
  | [] => Returned JNull
  | p :: rest =>
      match Manifest.py_index p "id" with
      | Raised e => Raised e
      | Returned value =>
          if equals_str value plugin_id then Returned p else next_by_index rest plugin_id
      end
  end.

Definition lookup_with (next : list json → string → outcome json)
    (env : Registry.Env) (plugin_id : string) (st : Registry.State)
    : outcome json * Registry.State :=
  match Registry.fetch_registry env false st with
  | (Raised e, st1) => (Raised e, st1)
  | (Returned registry, st1) =>
      (Manifest.and_then (plugins_of registry) (λ plugins,
       Manifest.and_then (py_iter plugins) (λ items, next items plugin_id)),
       st1)
  end.

(** [None] is [JNull]. *)
Definition get_registry_info : Registry.Env → string → Registry.State
    → outcome json * Registry.State :=
  lookup_with next_by_get.

(** Lines 733-735 of [get_plugin_info]: the entry that the rest of
    the function works on; the function returns [None] when there is
    none, and an exception raised here leaves the function. *)
Definition get_plugin_info_entry : Registry.Env → string → Registry.State
    → outcome json * Registry.State :=
  lookup_with next_by_index.

End Lookup.

(** ** Facts about [_distinct_sequence] *)

Module SeqFacts.
Import Seq.

Lemma first_occurrences_filter (P : string → Prop) `{!∀ x, Decision (P x)} l :
  first_occurrences (filter P l) = filter P (first_occurrences l).
Proof.
  induction l as [|x l IH]; [done|].
  rewrite filter_cons. destruct (decide (P x)) as [Hx|Hx]; simpl.
  - rewrite filter_cons, decide_True by done. f_equal.
    rewrite IH, !list_filter_filter. apply list_filter_iff. naive_solver.
  - rewrite filter_cons, decide_False by done.
    rewrite IH, list_filter_filter. apply list_filter_iff. naive_solver.
Qed.

Lemma distinct_loop_spec values seen ordered :
  distinct_loop values seen ordered
  = ordered ++ first_occurrences (filter (λ s, s ∉ seen) (present values)).
Proof.
  revert seen ordered.
  induction values as [|[s|] rest IH]; intros seen ordered; simpl.
  - by rewrite app_nil_r.
  - case_bool_decide as Hs; simpl; [apply IH|].
    case_bool_decide as Hseen.
    + rewrite IH, filter_cons, decide_False; [done|]. by intros [].
    + rewrite IH, filter_cons, decide_True by done. simpl.
      rewrite <- app_assoc. simpl. do 2 f_equal.
      rewrite <- first_occurrences_filter, list_filter_filter.
      f_equal. apply list_filter_iff. intros y. set_solver.
  - apply IH.
Qed.

Lemma filter_everything {A} (P : A → Prop) `{!∀ x, Decision (P x)} (l : list A) :
  (∀ x, P x) → filter P l = l.
Proof.
  intros HP. induction l as [|x l IH]; [done|].
  by rewrite filter_cons_True, IH.
Qed.

Lemma distinct_sequence_refines values :
  _distinct_sequence values = order_preserving_dedup values.
Proof.
  unfold _distinct_sequence, order_preserving_dedup.
  rewrite distinct_loop_spec. simpl. f_equal.
  apply filter_everything. intros x. apply not_elem_of_empty.
Qed.

Lemma first_occurrences_elem x l : x ∈ first_occurrences l ↔ x ∈ l.
Proof.
  induction l as [|y l IH]; simpl; [done|].
  rewrite !elem_of_cons, list_elem_of_filter, IH.
  destruct (decide (x = y)); naive_solver.
Qed.

Lemma first_occurrences_NoDup l : NoDup (first_occurrences l).
Proof.
  induction l as [|y l IH]; simpl; [constructor|].
  constructor.
  - rewrite list_elem_of_filter. naive_solver.
  - by apply NoDup_filter.
Qed.

Lemma first_occurrences_sublist l : sublist (first_occurrences l) l.
Proof.
  induction l as [|y l IH]; simpl; [done|].
  constructor. etrans; [apply sublist_filter|done].
Qed.

Lemma present_elem s values : s ∈ present values ↔ Some s ∈ values ∧ s ≠ "".
Proof.
  induction values as [|[t|] rest IH]; simpl.
  - rewrite elem_of_nil. split; [done|]. intros [H _]. by apply elem_of_nil in H.
  - case_bool_decide as Ht; rewrite ?elem_of_cons, IH, ?elem_of_cons; naive_solver.
  - rewrite IH, elem_of_cons. naive_solver.
Qed.

End SeqFacts.

(** ** Facts about [_validate_github_token] *)

Module TokenFacts.
Import Py Token.

Lemma cache_check_miss env key st st1 :
  cache_check env key st = (None, st1) →
  ∃ n, st1 = {| _token_validation_cache := _token_validation_cache st;
                clock_reads := n;
                probes := probes st |}.
Proof.
  unfold cache_check. destruct (_ !! key) as [[[v t] e]|].
  - simpl. case_bool_decide; [done|]. intros [= <-]. by eexists.
  - intros [= <-]. exists (clock_reads st). by destruct st.
Qed.

(** The cache after [store]: the key holds the verdict, stamped with
    the clock reading taken at that moment. *)
Lemma store_cache env key valid error st :
  _token_validation_cache (store env key valid error st)
  = <[key := (valid, clock env (clock_reads st), error)]> (_token_validation_cache st).
Proof. done. Qed.

Lemma store_probes env key valid error st :
  probes (store env key valid error st) = probes st.
Proof. done. Qed.

(** C6. Token validation by cases, for a token of ASCII characters.
    A cache entry under the first ten characters of the token that is
    younger than 300 seconds answers the call with no probe and no
    change of the cache.  Without an entry, and with an entry that is
    300 seconds old or older, exactly one probe is sent, and: 200
    gives (valid, no error) and is cached; 401 gives "invalid or
    expired" and is cached; 403 with "rate limit" in the body gives
    "Rate limit exceeded" and leaves the cache as it was; any other
    403 gives "lacks required permissions" and is cached; a timeout,
    a network error or another exception gives invalid and leaves the
    cache as it was.  What is cached carries the time read after the
    probe. *)
Theorem C6_validate_token_cases env token st :
  token ≠ "" →
  ascii_only token = true →
  let key := take 10 token in
  let out := _validate_github_token env token st in
  let probed := λ stamp : Z,
    let cached := λ valid error,
      _token_validation_cache out.2
      = <[key := (valid, stamp, error)]> (_token_validation_cache st) in
    let not_cached := _token_validation_cache out.2 = _token_validation_cache st in
    probes out.2 = probes st ++ [token]
    ∧ match get_user env (length (probes st)) token with
      | Response 200 _ => out.1 = (true, None) ∧ cached true None
      | Response 401 _ =>
          out.1 = (false, Some "Token is invalid or expired")
          ∧ cached false (Some "Token is invalid or expired")
      | Response 403 text =>
          if contains "rate limit" (lower text)
          then out.1 = (false, Some "Rate limit exceeded") ∧ not_cached
          else out.1 = (false, Some "Token lacks required permissions")
               ∧ cached false (Some "Token lacks required permissions")
      | Response _ _ => out.1.1 = false
      | Timeout | NetworkError _ | Unexpected _ => out.1.1 = false ∧ not_cached
      end in
  (∀ valid stamp error,
     _token_validation_cache st !! key = Some (valid, stamp, error) →
     clock env (clock_reads st) - stamp < 300 →
     out.1 = (valid, error)
     ∧ probes out.2 = probes st
     ∧ _token_validation_cache out.2 = _token_validation_cache st)
  ∧ (_token_validation_cache st !! key = @None (bool * Z * option string) →
     probed (clock env (clock_reads st)))
  ∧ (∀ valid stamp error,
       _token_validation_cache st !! key = Some (valid, stamp, error) →
       300 ≤ clock env (clock_reads st) - stamp →
       probed (clock env (S (clock_reads st)))).
Proof.
  intros Htoken _ key out probed.
  assert (∀ st1,
            cache_check env key st = (None, st1) →
            probed (clock env (clock_reads st1))) as Hcore.
  { intros st1 Hmiss. subst probed out. cbv zeta. unfold _validate_github_token.
    rewrite bool_decide_eq_false_2 by done. fold key. rewrite Hmiss.
    destruct (cache_check_miss _ _ _ _ Hmiss) as [n ->]. simpl.
    destruct (get_user env (length (probes st)) token) as [code text| | |]; simpl;
      [|done..].
    destruct (decide (code = 200)) as [->|H200]; [done|].
    rewrite (bool_decide_eq_false_2 (code = 200)) by done.
    destruct (decide (code = 401)) as [->|H401]; [done|].
    rewrite (bool_decide_eq_false_2 (code = 401)) by done.
    destruct (decide (code = 403)) as [->|H403].
    { simpl. by destruct (contains _ _). }
    rewrite (bool_decide_eq_false_2 (code = 403)) by done. simpl.
    split; [done|].
    destruct code as [|p|p]; try done.
    repeat (destruct p as [p|p|]; try done). }
  split; [|split].
  - intros valid stamp error Hcache Hfresh. subst out. unfold _validate_github_token.
    rewrite bool_decide_eq_false_2 by done. fold key.
    unfold cache_check. rewrite Hcache. simpl.
    unfold _token_validation_cache_timeout.
    by rewrite bool_decide_eq_true_2 by done.
  - intros Hnone. apply (Hcore st). unfold cache_check. by rewrite Hnone.
  - intros valid stamp error Hcache Hold.
    apply (Hcore (time_time env st).2). unfold cache_check.
    rewrite Hcache. simpl. unfold _token_validation_cache_timeout.
    rewrite bool_decide_eq_false_2; [done|lia].
Qed.

End TokenFacts.

(** ** Facts about [fetch_registry] *)

Module RegistryFacts.
Import Py Registry.

Lemma retries_requests env n st o st1 :
  _http_get_with_retries env n st = (o, st1) →
  registry_cache st1 = registry_cache st
  ∧ registry_cache_time st1 = registry_cache_time st.
Proof.
  revert st. induction n as [|n IH]; intros st; simpl.
  - by intros [= <- <-].
  - destruct (get env (requests_made st)).
    + intros H. by destruct (IH _ H).
    + by intros [= <- <-].
Qed.

(** Whatever goes wrong on the way to a decoded document (no
    connection after three attempts, a 4xx or 5xx status, a body that
    is not JSON) gives the empty catalog and leaves the cache alone. *)
Lemma fetch_registry_fails_open env force st :
  (∀ i status document,
     get env i = Resp status (Some document) → is_error_status status = true) →
  cache_valid {| registry_cache := registry_cache st;
                 registry_cache_time := registry_cache_time st;
                 clock_reads := S (clock_reads st);
                 requests_made := requests_made st |}
              force (clock env (clock_reads st)) = false →
  let out := fetch_registry env force st in
  out.1 = Returned empty_catalog
  ∧ registry_cache out.2 = registry_cache st
  ∧ registry_cache_time out.2 = registry_cache_time st.
Proof.
  intros Hbad Hstale. unfold fetch_registry. rewrite Hstale.
  destruct (_http_get_with_retries _ _ _) as [[[status body]|e] st1] eqn:Hget.
  - destruct (retries_requests _ _ _ _ _ Hget) as [Hc Ht]. simpl in Hc, Ht.
    destruct (is_error_status status) eqn:Hs; [done|].
    destruct body as [document|]; [|done].
    exfalso. clear Hc Ht Hstale.
    assert (∃ i, get env i = Resp status (Some document)) as [i Hi].
    { revert Hget. generalize 3%nat.
      generalize ({| registry_cache := registry_cache st;
                     registry_cache_time := registry_cache_time st;
                     clock_reads := S (clock_reads st);
                     requests_made := requests_made st |}).
      intros s n. revert s. induction n as [|n IH]; intros s; simpl; [done|].
      destruct (get env (requests_made s)) eqn:Hg; [apply IH|].
      intros [= -> -> _]. eauto. }
    apply Hbad in Hi. congruence.
  - by destruct (retries_requests _ _ _ _ _ Hget).
Qed.

(** A document that is a dict whose ["plugins"] is absent or a list
    is returned and cached. *)
Lemma fetch_registry_caches env st fields status :
  get env (requests_made st) = Resp status (Some (JObj fields)) →
  is_error_status status = false →
  (∀ v, fields_get fields "plugins" = Some v → ∃ l, v = JArr l) →
  let out := fetch_registry env true st in
  out.1 = Returned (JObj fields)
  ∧ registry_cache out.2 = Some (JObj fields)
  ∧ registry_cache_time out.2 = Some (clock env (clock_reads st)).
Proof.
  intros Hget Hs Hplugins. unfold fetch_registry, cache_valid. simpl.
  assert (∀ b c, (b && c && negb true && bool_decide
     (clock env (clock_reads st) - 0 < 0)) = false) as Hf.
  { intros. by rewrite andb_false_r. }
  destruct (registry_cache st), (registry_cache_time st); simpl;
    rewrite ?andb_false_r; simpl; rewrite Hget, Hs; simpl;
    unfold count_plugins; simpl;
    (destruct (fields_get fields "plugins") as [v|] eqn:Hv;
     [destruct (Hplugins v eq_refl) as [l ->]|]; done).
Qed.

(** C7. [fetch_registry] lets an exception through: a 200 answer
    whose JSON document is a list makes the logging line call [get]
    on a list, and one whose ["plugins"] is null makes it take [len]
    of [None]; neither is a [RequestException] or a
    [JSONDecodeError].  The document is in the cache by then. *)
Theorem C7_fetch_registry_raises :
  let array_run := fetch_registry (Scenario.registry_serving (JArr [])) false
                     Scenario.registry_start in
  let null_run := fetch_registry
                    (Scenario.registry_serving (JObj [("plugins", JNull)])) false
                    Scenario.registry_start in
  array_run.1 = Raised AttributeError
  ∧ registry_cache array_run.2 = Some (JArr [])
  ∧ null_run.1 = Raised TypeError.
Proof. done. Qed.

End RegistryFacts.

(** ** A run of the token validation *)

Module TokenRuns.
Import Py Token.

(** The theorem at work on a first call with an empty cache: the
    probe answers 200, the token is valid and the verdict is cached
    under the first ten characters. *)
Lemma C6_validate_token_witness :
  Scenario.sample_token ≠ ""
  ∧ ascii_only Scenario.sample_token = true
  ∧ (_validate_github_token Scenario.token_env Scenario.sample_token
       Scenario.token_start).1 = (true, None)
  ∧ _token_validation_cache
      (_validate_github_token Scenario.token_env Scenario.sample_token
         Scenario.token_start).2 !! "ghp_012345"
    = Some (true, 1000, None).
Proof.
  assert (Scenario.sample_token ≠ "") as Hne by done.
  assert (ascii_only Scenario.sample_token = true) as Hascii by reflexivity.
  split; [exact Hne|]. split; [exact Hascii|].
  destruct (TokenFacts.C6_validate_token_cases Scenario.token_env
              Scenario.sample_token Scenario.token_start Hne Hascii) as (_ & Hprobe & _).
  destruct (Hprobe eq_refl) as [_ [Hres Hcache]].
  split; [exact Hres|]. rewrite Hcache. reflexivity.
Defined.

End TokenRuns.

(** ** Facts about removal and [uninstall_plugin] *)

Module RemovalFacts.
Import Py Store.

Lemma path_exists_true p w : path_exists p w = true ↔ is_Some (fs w !! p).
Proof. unfold path_exists. by rewrite bool_decide_eq_true. Qed.

Lemma path_exists_false p w : path_exists p w = false ↔ fs w !! p = None.
Proof.
  unfold path_exists. rewrite bool_decide_eq_false. by rewrite eq_None_not_Some.
Qed.

(** A removal that reports success leaves nothing at the path and
    touches nothing else. *)
Lemma safe_remove_true env p w w' :
  _safe_remove_directory env p w = (true, w') → fs w' = delete p (fs w).
Proof.
  unfold _safe_remove_directory.
  destruct (fs w !! p) as [t|] eqn:Hp.
  - destruct (rmtree _ _ _ _); [|by intros [= <-]].
    destruct (rmtree_after_chmod _ _ _ _); [|by intros [= <-]].
    destruct (sudo_remove_directory _ _ _ _); [done|by intros [= <-]].
  - intros [= <-]. symmetry. by apply delete_id.
Qed.

(** A removal that reports failure leaves something at the path. *)
Lemma safe_remove_false env p w w' :
  _safe_remove_directory env p w = (false, w') →
  ∃ rest, fs w' = <[p := rest]> (fs w) ∧ is_Some (fs w !! p).
Proof.
  unfold _safe_remove_directory.
  destruct (fs w !! p) as [t|] eqn:Hp; [|done].
  destruct (rmtree _ _ _ _); [|done].
  destruct (rmtree_after_chmod _ _ _ _); [|done].
  destruct (sudo_remove_directory _ _ _ _) as [t3|]; [|done].
  intros [= <-]. eauto.
Qed.

Lemma safe_remove_absent env p w :
  fs w !! p = None → _safe_remove_directory env p w = (true, w).
Proof. intros H. unfold _safe_remove_directory. by rewrite H. Qed.

Lemma find_plugin_path_none env plugin_id w :
  fs w !! InPlugins plugin_id = None →
  (standard_plugins_dir_usable env = true → fs w !! InStandard plugin_id = None) →
  _find_plugin_path env plugin_id w = None.
Proof.
  intros H1 H2. unfold _find_plugin_path.
  rewrite (proj2 (path_exists_false _ _) H1).
  destruct (standard_plugins_dir_usable env); [|done].
  by rewrite (proj2 (path_exists_false _ _) (H2 eq_refl)).
Qed.

(** C10. For a plugin id that is one path component: with no
    directory for the id, neither in the configured plugins directory
    nor in the standard one, [uninstall_plugin] returns [True] and
    leaves the world as it is; so a second call does the same and the
    directory stays absent. *)
Theorem C10_uninstall_absent_idempotent env plugin_id w :
  is_component plugin_id = true →
  fs w !! InPlugins plugin_id = None →
  (standard_plugins_dir_usable env = true → fs w !! InStandard plugin_id = None) →
  uninstall_plugin env plugin_id w = (true, w)
  ∧ uninstall_plugin env plugin_id (uninstall_plugin env plugin_id w).2 = (true, w)
  ∧ fs (uninstall_plugin env plugin_id (uninstall_plugin env plugin_id w).2).2
      !! InPlugins plugin_id = None.
Proof.
  intros _ H1 H2.
  assert (uninstall_plugin env plugin_id w = (true, w)) as Hrun.
  { unfold uninstall_plugin. by rewrite find_plugin_path_none. }
  rewrite Hrun. simpl. rewrite Hrun. done.
Qed.

(** After any call that reports success the directory it found is
    gone. *)
Lemma uninstall_success_removes env plugin_id w w' :
  uninstall_plugin env plugin_id w = (true, w') →
  fs w' !! InPlugins plugin_id = None.
Proof.
  unfold uninstall_plugin, _find_plugin_path.
  destruct (path_exists (InPlugins plugin_id) w) eqn:Hp.
  - rewrite Hp. simpl. intros H%safe_remove_true. rewrite H. apply lookup_delete_eq.
  - apply path_exists_false in Hp.
    destruct (standard_plugins_dir_usable env); simpl; [|by intros [= <-]].
    destruct (path_exists (InStandard plugin_id) w) eqn:Hs; simpl; [|by intros [= <-]].
    rewrite Hs. simpl.
    intros H%safe_remove_true. rewrite H. by rewrite lookup_delete_ne.
Qed.

(** The theorem at work on an empty plugins directory. *)
Lemma C10_uninstall_absent_witness :
  is_component "clock" = true
  ∧ uninstall_plugin Scenario.offline "clock" Scenario.empty_world
    = (true, Scenario.empty_world)
  ∧ uninstall_plugin Scenario.offline "clock"
      (uninstall_plugin Scenario.offline "clock" Scenario.empty_world).2
    = (true, Scenario.empty_world).
Proof.
  assert (is_component "clock" = true) as Hid by reflexivity.
  split; [exact Hid|].
  destruct (C10_uninstall_absent_idempotent Scenario.offline "clock" Scenario.empty_world
              Hid) as (H1 & H2 & _).
  - reflexivity.
  - intros _. reflexivity.
  - split; [exact H1 | exact H2].
Defined.

End RemovalFacts.

(** ** Facts about [update_plugin] *)

Module UpdateFacts.
Import Py Store.

(** C4, as the code has it.  For an installed git checkout whose
    bundled-install marker, if any, does not raise: when the registry
    reports a latest sha of which the non-empty local sha is a prefix,
    and the local remote URL is not set, or the registry names no
    repository, or both agree once normalized, [update_plugin] returns
    [True] and the world (directories and trace) is as before. *)
Theorem C4_update_noop_same_remote env plugin_id w plugin_path t info remote remote_sha :
  _find_plugin_path env plugin_id w = Some plugin_path →
  fs w !! plugin_path = Some t →
  (∀ e, bundled_marker t ≠ Raised e) →
  _get_local_git_info env plugin_path w = Returned (Some info) →
  get_plugin_info env (now w) plugin_id = Returned (Some remote) →
  info_last_commit_sha remote = Some remote_sha →
  git_sha info ≠ "" →
  startswith remote_sha (git_sha info) = true →
  (default "" (git_remote_url info) = ""
   ∨ default "" (info_repo remote) = ""
   ∨ _normalize_repo_url (default "" (git_remote_url info))
     = _normalize_repo_url (default "" (info_repo remote))) →
  update_plugin env plugin_id w = (true, w).
Proof.
  intros Hfind Ht Hmarker Hgit Hreg Hsha Hlocal Hprefix Hurl.
  unfold update_plugin. rewrite Hfind, Ht. simpl.
  destruct (bundled_marker t) as [[|]|e] eqn:Hm; [done| |by destruct (Hmarker e)].
  rewrite Hgit. unfold update_checkout. rewrite Hreg, Hsha. simpl.
  assert (remote_sha ≠ "") as Hremote.
  { intros ->. destruct (git_sha info); [done|]. by simpl in Hprefix. }
  assert ((negb (bool_decide (default "" (git_remote_url info) = ""))
           && negb (bool_decide (default "" (info_repo remote) = ""))
           && negb (bool_decide (_normalize_repo_url (default "" (git_remote_url info))
                                 = _normalize_repo_url (default "" (info_repo remote)))))
          = false) as ->.
  { repeat case_bool_decide; simpl; try done. by destruct Hurl as [?|[?|?]]. }
  rewrite !bool_decide_eq_false_2 by done. simpl. by rewrite Hprefix.
Qed.

(** C4 as stated fails: the checkout of [clock] is at a sha that the
    registry's latest sha starts with, but it was cloned from a
    repository that the registry no longer names; the migration test
    comes first, the directory is removed and a fresh install is
    tried (here without network, so the update fails and the plugin
    is gone). *)
Lemma C4_counterexample_migrated_remote :
  let env := Scenario.clock_env "https://github.com/new/mono" "https://github.com/old/clock" in
  let w := Scenario.world_with (InPlugins "clock") Scenario.clock_checkout in
  _get_local_git_info env (InPlugins "clock") w
  = Returned (Some (Scenario.clock_git "https://github.com/old/clock"))
  ∧ get_plugin_info env (now w) "clock"
    = Returned (Some (Scenario.clock_entry "https://github.com/new/mono"))
  ∧ startswith "abc123def4567890" "abc123d" = true
  ∧ (update_plugin env "clock" w).1 = false
  ∧ fs (update_plugin env "clock" w).2 !! InPlugins "clock" = None
  ∧ ¬ ((update_plugin env "clock" w).1 = true
       ∧ fs (update_plugin env "clock" w).2 = fs w).
Proof.
  repeat split; try (vm_compute; reflexivity).
  intros [H _]. vm_compute in H. discriminate.
Qed.

(** The theorem at work: the same checkout, its remote spelled with a
    trailing slash, the registry's with capitals and [.git]. *)
Lemma C4_update_noop_witness :
  let env := Scenario.clock_env "https://github.com/Old/Clock.git" "https://github.com/old/clock/" in
  let w := Scenario.world_with (InPlugins "clock") Scenario.clock_checkout in
  update_plugin env "clock" w = (true, w).
Proof.
  intros env w.
  apply (C4_update_noop_same_remote env "clock" w (InPlugins "clock")
           Scenario.clock_checkout
           (Scenario.clock_git "https://github.com/old/clock/")
           (Scenario.clock_entry "https://github.com/Old/Clock.git")
           "abc123def4567890").
  - vm_compute; reflexivity.
  - vm_compute; reflexivity.
  - intros e. vm_compute. discriminate.
  - vm_compute; reflexivity.
  - vm_compute; reflexivity.
  - reflexivity.
  - vm_compute. discriminate.
  - vm_compute; reflexivity.
  - right. right. vm_compute; reflexivity.
Defined.

End UpdateFacts.

(** ** Facts about the branch candidates and the loops over them *)

Module CandidateFacts.
Import Py Seq Store.

Lemma filter_members {A} (P : A → Prop) `{!∀ x, Decision (P x)} (l : list A) :
  (∀ x, x ∈ l → P x) → filter P l = l.
Proof.
  induction l as [|x l IH]; intros HP; [done|].
  rewrite filter_cons_True by (apply HP; left).
  f_equal. apply IH. intros y Hy. apply HP. by right.
Qed.

Lemma first_occurrences_fixed l : NoDup l → first_occurrences l = l.
Proof.
  induction 1 as [|x l Hx Hl IH]; simpl; [done|].
  rewrite IH. f_equal. apply filter_members. by intros y Hy ->.
Qed.

Lemma present_Some l : (∀ s, s ∈ l → s ≠ "") → present (Some <$> l) = l.
Proof.
  induction l as [|x l IH]; intros Hl; simpl; [done|].
  rewrite bool_decide_eq_false_2 by (apply Hl; left).
  f_equal. apply IH. intros s Hs. apply Hl. by right.
Qed.

(** [_distinct_sequence] leaves its own results alone, so the list
    that [_install_via_git] walks is the candidate list it is given. *)
Lemma distinct_sequence_idempotent values :
  _distinct_sequence (Some <$> _distinct_sequence values) = _distinct_sequence values.
Proof.
  rewrite !SeqFacts.distinct_sequence_refines. unfold order_preserving_dedup.
  rewrite present_Some.
  - apply first_occurrences_fixed, SeqFacts.first_occurrences_NoDup.
  - intros s Hs%SeqFacts.first_occurrences_elem%SeqFacts.present_elem. tauto.
Qed.

Lemma branch_candidates_main branch info : "main" ∈ branch_candidates_of branch info.
Proof.
  unfold branch_candidates_of. rewrite SeqFacts.distinct_sequence_refines.
  apply SeqFacts.first_occurrences_elem, SeqFacts.present_elem.
  split; [|done]. set_solver.
Qed.

Lemma first_success_won {A} (attempt : A → World → bool * World) candidates c w w' :
  first_success attempt candidates w = (Some c, w') →
  won_by attempt candidates c w w'.
Proof.
  revert w. induction candidates as [|x l IH]; intros w; simpl; [done|].
  destruct (attempt x w) as [[|] w1] eqn:Hx.
  - intros [= -> ->]. exists [], l, w. repeat split; [constructor|done].
  - intros (before & after & w2 & -> & Hfail & Hc)%IH.
    exists (x :: before), after, w2. repeat split; [|done].
    by econstructor.
Qed.

Lemma first_success_lost {A} (attempt : A → World → bool * World) candidates w w' :
  first_success attempt candidates w = (None, w') →
  all_failed attempt candidates w w'.
Proof.
  revert w. induction candidates as [|x l IH]; intros w; simpl.
  - intros [= ->]. constructor.
  - destruct (attempt x w) as [[|] w1] eqn:Hx; [done|].
    intros H%IH. by econstructor.
Qed.

(** The named-branch part of [_install_via_git] on the candidates of
    [install_plugin]. *)
Lemma install_via_git_candidates env repo_url target branch info w :
  let candidates := branch_candidates_of branch info in
  _install_via_git env repo_url target candidates w
  = match first_success (clone_attempt env repo_url target) candidates w with
    | (Some try_branch, w1) => (Some try_branch, w1)
    | (None, w1) => (None, (run_clone env repo_url None target w1).2)
    end.
Proof.
  intros candidates. unfold _install_via_git.
  unfold candidates at 1, branch_candidates_of.
  rewrite distinct_sequence_idempotent. fold (branch_candidates_of branch info).
  fold candidates.
  destruct candidates as [|c l] eqn:Hc; [|done].
  pose proof (branch_candidates_main branch info) as Hmain.
  fold candidates in Hmain. rewrite Hc in Hmain. by apply elem_of_nil in Hmain.
Qed.

(** C5. The branch candidates of [install_plugin] are the requested
    branch, the registry entry's branch, its default branch, the
    branch of the last known commit, "main" and "master", without the
    empty and absent ones, each kept at its first occurrence.  With a
    sub-path the partial-tree/archive attempt runs over them in that
    order and [branch_used] is the first candidate on which it
    succeeds.  Without a sub-path the checkout runs over them in that
    order and its first success is [branch_used]; when every named
    checkout failed, the clone without a branch follows, and only if
    nothing is at the target afterwards the archive download runs
    over the candidates in the same order, its first success being
    [branch_used]. *)
Theorem C5_branch_candidates_tried_in_order env repo_url plugin_subpath plugin_path
    branch info w :
  let candidates := branch_candidates_of branch info in
  let out := acquire env repo_url plugin_subpath plugin_path candidates w in
  candidates
  = order_preserving_dedup
      [branch; info_branch info; info_default_branch info;
       info_last_commit_branch info; Some "main"; Some "master"]
  ∧ (truthy plugin_subpath = true →
     let attempt := monorepo_attempt env repo_url (default "" plugin_subpath) plugin_path in
     (∃ c, out.1 = Some (Some c) ∧ won_by attempt candidates c w out.2)
     ∨ (out.1 = None ∧ all_failed attempt candidates w out.2))
  ∧ (truthy plugin_subpath = false →
     let checkout := clone_attempt env repo_url plugin_path in
     let archive := archive_attempt env repo_url plugin_path in
     (∃ c, out.1 = Some (Some c) ∧ won_by checkout candidates c w out.2)
     ∨ (∃ w1, all_failed checkout candidates w w1
          ∧ let w2 := (run_clone env repo_url None plugin_path w1).2 in
            (path_exists plugin_path w2 = true ∧ out = (Some None, w2))
            ∨ (path_exists plugin_path w2 = false
               ∧ ((∃ c, out.1 = Some (Some c) ∧ won_by archive candidates c w2 out.2)
                  ∨ ((out.1 = None ∨ out.1 = Some None)
                     ∧ all_failed archive candidates w2 out.2))))).
Proof.
  intros candidates out. split; [apply SeqFacts.distinct_sequence_refines|].
  split; intros Hsub; subst out; unfold acquire; rewrite Hsub.
  - simpl.
    destruct (first_success _ candidates w) as [[c|] w1] eqn:Hloop; simpl.
    + left. exists c. split; [done|]. by apply first_success_won.
    + right. split; [done|]. by apply first_success_lost.
  - subst candidates. rewrite install_via_git_candidates.
    set (candidates := branch_candidates_of branch info).
    destruct (first_success (clone_attempt env repo_url plugin_path) candidates w)
      as [[c|] w1] eqn:Hgit.
    + left. exists c. simpl. split; [done|]. by apply first_success_won.
    + right. exists w1. split; [by apply first_success_lost|]. simpl.
      set (w2 := (run_clone env repo_url None plugin_path w1).2).
      destruct (path_exists plugin_path w2) eqn:Hexists; simpl.
      * left. by rewrite Hexists.
      * right. split; [done|].
        destruct (first_success _ candidates w2) as [[c|] w3] eqn:Hzip; simpl.
        -- left. exists c. split; [done|]. exact (first_success_won _ _ _ _ _ Hzip).
        -- right. pose proof (first_success_lost _ _ _ _ Hzip).
           destruct (path_exists plugin_path w3); simpl; auto.
Qed.

(** The theorem at work: [hello-world] asked for on the branch [dev],
    which the monorepo does not have; the candidates are [dev], [main]
    and [master], and [main] wins. *)
Lemma C5_branch_candidates_witness :
  let candidates := branch_candidates_of (Some "dev") Scenario.hello_entry in
  let out := acquire Scenario.hello_env Scenario.hello_repo (Some "plugins/hello-world")
               (InPlugins "hello") candidates Scenario.empty_world in
  candidates = ["dev"; "main"; "master"]
  ∧ truthy (Some "plugins/hello-world") = true
  ∧ out.1 = Some (Some "main")
  ∧ ∃ c, out.1 = Some (Some c)
         ∧ won_by (monorepo_attempt Scenario.hello_env Scenario.hello_repo
                     "plugins/hello-world" (InPlugins "hello"))
             candidates c Scenario.empty_world out.2.
Proof.
  intros candidates out.
  destruct (C5_branch_candidates_tried_in_order Scenario.hello_env Scenario.hello_repo
              (Some "plugins/hello-world") (InPlugins "hello") (Some "dev")
              Scenario.hello_entry Scenario.empty_world) as (Hc & Hmono & _).
  split; [vm_compute; reflexivity|].
  split; [reflexivity|].
  split; [vm_compute; reflexivity|].
  destruct (Hmono eq_refl) as [H|[Hnone _]]; [exact H|].
  vm_compute in Hnone. discriminate.
Defined.

End CandidateFacts.

(** ** Facts about the naming of installed directories *)

Module NamingFacts.
Import Py Seq Store RemovalFacts.

Lemma fields_set_other fields key v other :
  key ≠ other → fields_get (fields_set fields key v) other = fields_get fields other.
Proof.
  intros Hne. induction fields as [|[k old] rest IH]; simpl.
  - by rewrite bool_decide_eq_false_2.
  - destruct (decide (k = key)) as [->|Hk].
    + rewrite bool_decide_eq_true_2 by done. simpl.
      by rewrite !bool_decide_eq_false_2.
    + rewrite (bool_decide_eq_false_2 (k = key)) by done. simpl.
      by rewrite IH.
Qed.

Lemma install_dependencies_fs env p w : fs (_install_dependencies env p w).2 = fs w.
Proof.
  unfold _install_dependencies. destruct (fs w !! p); [|done].
  by case_bool_decide.
Qed.

Lemma load_dumped p manifest w :
  ∃ t, fs (dump_manifest p manifest w) !! p = Some t
       ∧ load_json t manifest_key = Returned (JObj manifest).
Proof.
  unfold dump_manifest. simpl. rewrite lookup_insert_eq. eexists. split; [done|].
  unfold load_json. by rewrite lookup_insert_eq.
Qed.

Lemma dump_manifest_other p q manifest w :
  p ≠ q → fs (dump_manifest p manifest w) !! q = fs w !! q.
Proof. intros. unfold dump_manifest. simpl. by rewrite lookup_insert_ne. Qed.

(** A successful validation leaves, at the plugin path, a manifest
    with the id it was given, and leaves the other paths alone. *)
Lemma validate_fields_keeps_id env plugin_path id manifest t w w' :
  fs w !! plugin_path = Some t →
  load_json t manifest_key = Returned (JObj manifest) →
  fields_get manifest "id" = Some (JStr id) →
  validate_fields env plugin_path manifest w = (true, w') →
  (∃ t' manifest',
     fs w' !! plugin_path = Some t'
     ∧ load_json t' manifest_key = Returned (JObj manifest')
     ∧ fields_get manifest' "id" = Some (JStr id))
  ∧ ∀ q, q ≠ plugin_path → fs w' !! q = fs w !! q.
Proof.
  intros Hpath Hload Hid. unfold validate_fields.
  set (missing := filter _ required_fields).
  destruct (if bool_decide ("class_name" ∈ missing) then _ else _)
    as [detected|e]; [|done].
  set (state := match detected with Some _ => _ | None => _ end).
  assert (fields_get state.1.1 "id" = Some (JStr id)) as Hid'.
  { subst state. destruct detected; simpl; [|done]. by rewrite fields_set_other. }
  destruct state as [[manifest1 missing1] modified1]. simpl in Hid'.
  destruct missing1; [|done].
  destruct (fields_get manifest1 "entry_point") eqn:Hentry.
  - destruct modified1; intros [= <-]; rewrite install_dependencies_fs.
    + split.
      * destruct (load_dumped plugin_path manifest1 w) as (t' & Ht' & Hl). eauto.
      * intros q Hq. by apply dump_manifest_other.
    + split; [eauto|done].
  - intros [= <-]. rewrite install_dependencies_fs. split.
    + destruct (load_dumped plugin_path
                  (fields_set manifest1 "entry_point" (JStr "manager.py")) w)
        as (t' & Ht' & Hl).
      exists t', (fields_set manifest1 "entry_point" (JStr "manager.py")).
      by rewrite fields_set_other.
    + intros q Hq. by apply dump_manifest_other.
Qed.

(** What [install_plugin] guarantees: after a successful run from the
    manifest check on, the directory named by the manifest's id holds
    that manifest, and when this is not the requested id nothing is
    left under the requested id. *)
Lemma finish_install_names_by_manifest env plugin_id w w' :
  finish_install env plugin_id w = (true, w') →
  ∃ id t manifest,
    fs w' !! InPlugins id = Some t
    ∧ load_json t manifest_key = Returned (JObj manifest)
    ∧ fields_get manifest "id" = Some (JStr id)
    ∧ (id = plugin_id ∨ fs w' !! InPlugins plugin_id = None).
Proof.
  unfold finish_install.
  destruct (fs w !! InPlugins plugin_id) as [t|] eqn:Hpath; simpl;
    [|by rewrite lookup_empty].
  case_bool_decide as Hmanifest; [|done]. simpl.
  destruct (load_json t manifest_key) as [[| | | | |manifest]|] eqn:Hload; try done.
  destruct (fields_get manifest "id") as [[| | |id| |]|] eqn:Hid; try done.
  case_bool_decide as Hempty; [done|].
  case_bool_decide as Hsame.
  - subst id. intros Hv.
    destruct (validate_fields_keeps_id _ _ _ _ _ _ _ Hpath Hload Hid Hv)
      as [(t' & m' & ? & ? & ?) _].
    exists plugin_id, t', m'. auto.
  - destruct (if path_exists (InPlugins id) w then _ else _) as [removed w1] eqn:Hrm.
    destruct removed; [|done]. simpl.
    assert (fs w1 = delete (InPlugins id) (fs w)) as Hw1.
    { destruct (path_exists (InPlugins id) w) eqn:Hex.
      - by apply safe_remove_true in Hrm.
      - injection Hrm as <-. symmetry. apply delete_id. by apply path_exists_false. }
    assert (InPlugins id ≠ InPlugins plugin_id) as Hne by congruence.
    unfold move_path. rewrite Hw1, lookup_delete_ne, Hpath by done.
    unfold move_to. rewrite lookup_delete_ne, lookup_delete_eq by done.
    intros Hv.
    eapply validate_fields_keeps_id in Hv as [(t' & m' & ? & ? & ?) Hother];
      [|simpl; apply lookup_insert_eq|done..].
    exists id, t', m'. repeat split; [done..|]. right.
    rewrite Hother by congruence. simpl.
    rewrite lookup_insert_ne by done. apply lookup_delete_eq.
Qed.

Lemma install_plugin_names_by_manifest env info plugin_id branch w w' :
  install_plugin_with env info plugin_id branch w = (true, w') →
  ∃ id t manifest,
    fs w' !! InPlugins id = Some t
    ∧ load_json t manifest_key = Returned (JObj manifest)
    ∧ fields_get manifest "id" = Some (JStr id)
    ∧ (id = plugin_id ∨ fs w' !! InPlugins plugin_id = None).
Proof.
  unfold install_plugin_with. destruct info as [plugin_info|]; [|done].
  destruct (negb _); [done|].
  destruct (if path_exists _ w then _ else _) as [[|] w1]; [|done]. simpl.
  destruct (acquire _ _ _ _ _ _) as [[branch_used|] w2]; [|done].
  apply finish_install_names_by_manifest.
Qed.

(** C1. [install_from_url] with a caller-supplied id installs under
    that id, whatever the manifest says: the clock plugin, whose
    manifest has the id [clock], asked for as [my-clock], ends in the
    directory [my-clock] with its manifest unchanged, and no directory
    [clock] exists. *)
Theorem C1_install_from_url_keeps_caller_id :
  let out := install_from_url Scenario.clock_repo "https://github.com/old/clock.git"
               (Some "my-clock") None None Scenario.empty_world in
  out.1 = UrlInstalled "my-clock" (JStr "Clock") (Some "main")
  ∧ (fs out.2 !! InPlugins "my-clock" = Some Scenario.clock_checkout)
  ∧ load_json Scenario.clock_checkout manifest_key = Returned (Scenario.manifest_of "clock")
  ∧ fs out.2 !! InPlugins "clock" = None.
Proof. repeat split; vm_compute; reflexivity. Qed.

End NamingFacts.

(** ** Facts about the order of strategy attempts *)

Module TraceFacts.
Import Py Seq Store.

Lemma attempts_emit_quiet e w :
  is_attempt e = false → attempts_of (emit e w) = attempts_of w.
Proof.
  intros He. unfold attempts_of, emit. simpl.
  rewrite filter_app, filter_cons_False, filter_nil, app_nil_r; [done|].
  by rewrite He.
Qed.

Lemma attempts_emit_attempt s args w :
  attempts_of (emit (EvAttempt s args) w) = attempts_of w ++ [EvAttempt s args].
Proof.
  unfold attempts_of, emit. simpl. by rewrite filter_app, filter_cons_True.
Qed.

Lemma attempts_set_fs f w : attempts_of (set_fs f w) = attempts_of w.
Proof. done. Qed.

Lemma attempts_safe_remove env p w :
  attempts_of (_safe_remove_directory env p w).2 = attempts_of w.
Proof.
  unfold _safe_remove_directory. repeat case_match; simpl; try done;
    by rewrite attempts_emit_quiet.
Qed.

Lemma attempts_cleanup env p w : attempts_of (cleanup env p w) = attempts_of w.
Proof. unfold cleanup. case_match; [apply attempts_safe_remove|done]. Qed.

Lemma attempts_http env n url w :
  attempts_of (http_retry_loop env n url w).2 = attempts_of w.
Proof.
  revert w. induction n as [|n IH]; intros w; simpl; [done|].
  destruct (http_get env (now w) url); simpl.
  - rewrite IH. by apply attempts_emit_quiet.
  - by apply attempts_emit_quiet.
Qed.

Lemma attempts_http_eq env url w o w1 :
  _http_get_with_retries env url w = (o, w1) → attempts_of w1 = attempts_of w.
Proof.
  intros H. pose proof (attempts_http env 3 url w) as Ha.
  unfold _http_get_with_retries in H. by rewrite H in Ha.
Qed.

Lemma attempts_download_entries env owner repo branch n target entries w :
  attempts_of (download_entries env owner repo branch n target entries w).2
  = attempts_of w.
Proof.
  revert w. induction entries as [|entry rest IH]; intros w; simpl; [done|].
  destruct (negb (stays_inside _ _)); simpl.
  { rewrite attempts_cleanup. by apply attempts_emit_quiet. }
  destruct (make_parents _ _) as [t1|]; simpl; [|apply attempts_cleanup].
  destruct (_http_get_with_retries _ _ _) as [[[status b]|e] w2] eqn:Hget;
    apply attempts_http_eq in Hget; simpl in Hget; simpl.
  - destruct (negb _); simpl; [by rewrite attempts_cleanup|].
    destruct (write_bytes _ _ _); simpl; [|by rewrite attempts_cleanup].
    by rewrite IH.
  - by rewrite attempts_cleanup.
Qed.

Lemma attempts_api env repo_url branch plugin_subpath target w :
  attempts_of (_install_from_monorepo_api env repo_url branch plugin_subpath target w).2
  = attempts_of w ++ [EvAttempt PartialTree [repo_url; branch]].
Proof.
  unfold _install_from_monorepo_api.
  rewrite <- (attempts_emit_attempt PartialTree [repo_url; branch] w).
  set (w0 := emit _ w).
  destruct (owner_repo repo_url) as [[owner repo]|]; [|done].
  destruct (_http_get_with_retries _ _ _) as [[[status b]|e] w1] eqn:Hget;
    apply attempts_http_eq in Hget; simpl; [|by rewrite attempts_cleanup].
  destruct (negb _); [done|].
  destruct b as [truncated entries| |]; simpl; [|by rewrite attempts_cleanup..].
  destruct truncated; [done|].
  destruct (filter _ entries) as [|entry rest] eqn:Hfiltered; [done|].
  case_bool_decide; [done|].
  destruct (negb _); [simpl; by rewrite attempts_cleanup|].
  unfold mkdir_exist_ok.
  destruct (fs w1 !! target) as [t|].
  - destruct (is_file _); [simpl; by rewrite attempts_cleanup|]. cbv beta match.
    by rewrite attempts_download_entries.
  - cbv beta match. by rewrite attempts_download_entries.
Qed.

Lemma attempts_extract_guarded env members names t w :
  attempts_of (extract_guarded env members names t w).2 = attempts_of w.
Proof.
  revert t. induction names as [|name rest IH]; intros t; simpl; [done|].
  destruct (negb _); simpl; [by apply attempts_emit_quiet|].
  destruct (extract_member _ _ _); [apply IH|done].
Qed.

Lemma attempts_zip env download_url plugin_subpath target w :
  attempts_of (_install_from_monorepo_zip env download_url plugin_subpath target w).2
  = attempts_of w ++ [EvAttempt Archive [download_url]].
Proof.
  unfold _install_from_monorepo_zip.
  rewrite <- (attempts_emit_attempt Archive [download_url] w).
  set (w0 := emit _ w).
  destruct (_http_get_with_retries _ _ _) as [[[status b]|e] w1] eqn:Hget;
    apply attempts_http_eq in Hget; simpl; [|done].
  destruct (is_error_status _); [done|].
  destruct b as [|members|]; [done| |done].
  destruct (zm_name <$> members) as [|first names]; [done|].
  destruct (filter _ _) as [|m ms]; [done|].
  destruct (extract_guarded _ _ _ _ _) as [[extracted|] w2] eqn:Hx;
    pose proof (attempts_extract_guarded env members (m :: ms) ∅ w1) as Ha;
    rewrite Hx in Ha; simpl in Ha; simpl; [|congruence].
  destruct (negb _); simpl; [congruence|].
  destruct (if path_exists target w2 then _ else _) as [removed w3] eqn:Hrm.
  assert (attempts_of w3 = attempts_of w2) as Hw3.
  { destruct (path_exists target w2).
    - pose proof (attempts_safe_remove env target w2) as Hs. by rewrite Hrm in Hs.
    - by injection Hrm as _ <-. }
  destruct removed; simpl; [|congruence].
  unfold move_extracted.
  repeat case_match; simplify_eq; simpl; rewrite ?attempts_set_fs; congruence.
Qed.

(** One call of [_install_from_monorepo] attempts what its plan
    says, in that order, and stops inside the plan only when the
    partial tree succeeded. *)
Lemma attempts_monorepo env download_url plugin_subpath target w :
  let out := _install_from_monorepo env download_url plugin_subpath target w in
  ∃ log, attempts_of out.2 = attempts_of w ++ log
         ∧ log `prefix_of` monorepo_plan download_url
         ∧ (out.1 = false → log = monorepo_plan download_url).
Proof.
  unfold _install_from_monorepo, monorepo_plan.
  destruct (_parse_monorepo_download_url download_url) as [[repo_url|] [branch|]];
    try (eexists; split; [apply attempts_zip|done]).
  destruct (negb _ && negb _);
    [|eexists; split; [apply attempts_zip|done]].
  pose proof (attempts_api env repo_url branch plugin_subpath target w) as Hapi.
  destruct (_install_from_monorepo_api _ _ _ _ _ _) as [[|] w1]; simpl in *.
  - exists [EvAttempt PartialTree [repo_url; branch]].
    split; [done|]. split; [|done]. by eexists [_].
  - eexists. split; [|done].
    by rewrite attempts_zip, attempts_cleanup, Hapi, <- app_assoc.
Qed.

(** One candidate of the loop: the partial tree first; the archive
    of the same candidate exactly when the partial tree failed (or
    could not be started), in the world that the failed attempt and
    its clean-up left; after a partial tree that succeeded nothing
    more happens. *)
Lemma monorepo_attempt_steps env repo_url plugin_subpath target c w0 :
  let attempt := monorepo_attempt env repo_url plugin_subpath target in
  let download_url := archive_url repo_url c in
  let archive := _install_from_monorepo_zip env download_url plugin_subpath target in
  match _parse_monorepo_download_url download_url with
  | (Some repo, Some branch) =>
      if negb (bool_decide (repo = "")) && negb (bool_decide (branch = "")) then
        let tree := _install_from_monorepo_api env repo branch plugin_subpath target w0 in
        if tree.1
        then attempt c w0 = (true, tree.2)
             ∧ attempts_of (attempt c w0).2
               = attempts_of w0 ++ [EvAttempt PartialTree [repo; branch]]
        else attempt c w0 = archive (cleanup env target tree.2)
             ∧ attempts_of (attempt c w0).2
               = attempts_of w0 ++ [EvAttempt PartialTree [repo; branch];
                                    EvAttempt Archive [download_url]]
      else attempt c w0 = archive w0
           ∧ attempts_of (attempt c w0).2
             = attempts_of w0 ++ [EvAttempt Archive [download_url]]
  | _ => attempt c w0 = archive w0
         ∧ attempts_of (attempt c w0).2
           = attempts_of w0 ++ [EvAttempt Archive [download_url]]
  end.
Proof.
  cbv zeta. unfold monorepo_attempt, _install_from_monorepo.
  destruct (_parse_monorepo_download_url (archive_url repo_url c)) as [[repo|] [branch|]];
    try (split; [done|apply attempts_zip]).
  destruct (negb _ && negb _); [|split; [done|apply attempts_zip]].
  pose proof (attempts_api env repo branch plugin_subpath target w0) as Hapi.
  destruct (_install_from_monorepo_api _ _ _ _ _ _) as [[|] w1]; simpl in *.
  - done.
  - split; [done|]. by rewrite attempts_zip, attempts_cleanup, Hapi, <- app_assoc.
Qed.

(** C9, as the code has it.  With a monorepo sub-path the attempts
    go candidate by candidate, in the order of the list, and stop at
    the first candidate that succeeds.  On each candidate the partial
    tree is attempted first; the archive of that same candidate is
    attempted exactly when the partial tree failed on it (or could
    not be started), before anything is tried on the next candidate;
    after a partial tree that succeeded nothing more is attempted.
    The attempts of the whole loop are an initial part of the plan
    "tree, archive" per candidate, and all of it when no candidate
    succeeded. *)
Theorem C9_archive_follows_tree_per_candidate env repo_url plugin_subpath target
    candidates w :
  let attempt := monorepo_attempt env repo_url plugin_subpath target in
  let out := first_success attempt candidates w in
  let plan := flat_map (λ c, monorepo_plan (archive_url repo_url c)) candidates in
  (∃ log, attempts_of out.2 = attempts_of w ++ log
          ∧ log `prefix_of` plan
          ∧ (out.1 = None → log = plan))
  ∧ match out.1 with
    | Some c => won_by attempt candidates c w out.2
    | None => all_failed attempt candidates w out.2
    end
  ∧ ∀ c w0,
      let download_url := archive_url repo_url c in
      let archive := _install_from_monorepo_zip env download_url plugin_subpath target in
      match _parse_monorepo_download_url download_url with
      | (Some repo, Some branch) =>
          if negb (bool_decide (repo = "")) && negb (bool_decide (branch = "")) then
            let tree :=
              _install_from_monorepo_api env repo branch plugin_subpath target w0 in
            if tree.1
            then attempt c w0 = (true, tree.2)
                 ∧ attempts_of (attempt c w0).2
                   = attempts_of w0 ++ [EvAttempt PartialTree [repo; branch]]
            else attempt c w0 = archive (cleanup env target tree.2)
                 ∧ attempts_of (attempt c w0).2
                   = attempts_of w0 ++ [EvAttempt PartialTree [repo; branch];
                                        EvAttempt Archive [download_url]]
          else attempt c w0 = archive w0
               ∧ attempts_of (attempt c w0).2
                 = attempts_of w0 ++ [EvAttempt Archive [download_url]]
      | _ => attempt c w0 = archive w0
             ∧ attempts_of (attempt c w0).2
               = attempts_of w0 ++ [EvAttempt Archive [download_url]]
      end.
Proof.
  cbv zeta. split; [|split].
  - revert w. induction candidates as [|c rest IH]; intros w; simpl.
    + exists []. by rewrite app_nil_r.
    + destruct (attempts_monorepo env (archive_url repo_url c) plugin_subpath target w)
        as (log1 & Hlog1 & Hpre1 & Hfail1).
      change (monorepo_attempt env repo_url plugin_subpath target c w)
        with (_install_from_monorepo env (archive_url repo_url c) plugin_subpath target w).
      destruct (_install_from_monorepo _ _ _ _ _) as [[|] w1]; simpl in *.
      * exists log1. split; [done|]. split; [|done]. by apply prefix_app_r.
      * destruct (IH w1) as (log2 & Hlog2 & Hpre2 & Hfail2).
        exists (log1 ++ log2). rewrite Hlog2, Hlog1, app_assoc. split; [done|].
        rewrite (Hfail1 eq_refl). split.
        -- by apply prefix_app.
        -- intros Hnone. by rewrite (Hfail2 Hnone).
  - destruct (first_success _ candidates w) as [[c|] w'] eqn:Hloop; simpl.
    + by apply CandidateFacts.first_success_won.
    + by apply CandidateFacts.first_success_lost.
  - intros c w0. apply monorepo_attempt_steps.
Qed.

(** C9 as stated fails: [hello-world] asked for on the branch [dev]
    of a monorepo that only has [main].  The archive of [dev] is
    requested before the partial tree of [main] is tried. *)
Lemma C9_counterexample_archive_before_next_tree :
  let out := install_plugin_with Scenario.hello_env (Some Scenario.hello_entry) "hello"
               (Some "dev") Scenario.empty_world in
  out.1 = true
  ∧ attempts_of out.2
    = [EvAttempt PartialTree ["https://github.com/x/y"; "dev"];
       EvAttempt Archive ["https://github.com/x/y/archive/refs/heads/dev.zip"];
       EvAttempt PartialTree ["https://github.com/x/y"; "main"]]
  ∧ firstn 5 (trace out.2)
    = [EvAttempt PartialTree ["https://github.com/x/y"; "dev"];
       EvHttp "https://api.github.com/repos/x/y/git/trees/dev?recursive=true";
       EvAttempt Archive ["https://github.com/x/y/archive/refs/heads/dev.zip"];
       EvHttp "https://github.com/x/y/archive/refs/heads/dev.zip";
       EvAttempt PartialTree ["https://github.com/x/y"; "main"]]
  ∧ archive_after_all_trees (trace out.2) = false.
Proof. repeat split; vm_compute; reflexivity. Qed.

End TraceFacts.

(** ** Facts about path traversal and clean-up *)

Module SafetyFacts.
Import Py Seq Store RemovalFacts.

Lemma http_fs env n url w : fs (http_retry_loop env n url w).2 = fs w.
Proof.
  revert w. induction n as [|n IH]; intros w; simpl; [done|].
  destruct (http_get env (now w) url); simpl; [by rewrite IH|done].
Qed.

Lemma http_fs_eq env url w o w1 :
  _http_get_with_retries env url w = (o, w1) → fs w1 = fs w.
Proof.
  intros H. pose proof (http_fs env 3 url w) as Hf.
  unfold _http_get_with_retries in H. by rewrite H in Hf.
Qed.

Lemma cleanup_gone env p w :
  removal_succeeds env → fs (cleanup env p w) !! p = None.
Proof.
  intros Hrm. unfold cleanup.
  destruct (path_exists p w) eqn:Hp; [|by apply path_exists_false].
  specialize (Hrm p w).
  destruct (_safe_remove_directory env p w) as [ok w1] eqn:Hcall. simpl in *. subst ok.
  apply safe_remove_true in Hcall. rewrite Hcall. apply lookup_delete_eq.
Qed.

Lemma safe_remove_frame env p q w :
  q ≠ p → fs (_safe_remove_directory env p w).2 !! q = fs w !! q.
Proof.
  intros Hq. destruct (_safe_remove_directory env p w) as [[|] w1] eqn:Hcall; simpl.
  - apply safe_remove_true in Hcall. rewrite Hcall. by apply lookup_delete_ne.
  - apply safe_remove_false in Hcall as (rest & -> & _). by apply lookup_insert_ne.
Qed.

Lemma cleanup_frame env p q w : q ≠ p → fs (cleanup env p w) !! q = fs w !! q.
Proof.
  intros Hq. unfold cleanup. destruct (path_exists p w); [|done].
  by apply safe_remove_frame.
Qed.



(** The loop writes nowhere but at the target. *)
Lemma download_entries_frame env owner repo branch n target entries w q :
  q ≠ target →
  fs (download_entries env owner repo branch n target entries w).2 !! q = fs w !! q.
Proof.
  intros Hq. revert w. induction entries as [|entry rest IH]; intros w; simpl; [done|].
  destruct (negb _); simpl; [by rewrite cleanup_frame|].
  destruct (make_parents _ _) as [t1|]; simpl; [|by rewrite cleanup_frame].
  destruct (_http_get_with_retries _ _ _) as [[[status b]|e] w2] eqn:Hget;
    apply http_fs_eq in Hget; simpl in Hget; simpl.
  - destruct (negb _); simpl.
    { rewrite cleanup_frame, Hget by done. by apply lookup_insert_ne. }
    destruct (write_bytes _ _ _); simpl.
    + rewrite IH. simpl. rewrite lookup_insert_ne, Hget by done.
      by apply lookup_insert_ne.
    + rewrite cleanup_frame, Hget by done. by apply lookup_insert_ne.
  - rewrite cleanup_frame, Hget by done. by apply lookup_insert_ne.
Qed.


Lemma mkdir_exist_ok_frame target w w1 q :
  mkdir_exist_ok target w = Some w1 → q ≠ target → fs w1 !! q = fs w !! q.
Proof.
  unfold mkdir_exist_ok. destruct (fs w !! target).
  - destruct (is_file _); [done|]. by intros [= <-].
  - intros [= <-] Hq. simpl. by apply lookup_insert_ne.
Qed.

Lemma api_frame env repo_url branch plugin_subpath target w q :
  q ≠ target →
  fs (_install_from_monorepo_api env repo_url branch plugin_subpath target w).2 !! q
  = fs w !! q.
Proof.
  intros Hq. unfold _install_from_monorepo_api.
  set (w0 := emit _ w).
  destruct (owner_repo repo_url) as [[owner repo]|]; [|done].
  destruct (_http_get_with_retries _ _ _) as [[[status b]|e] w1] eqn:Hget;
    apply http_fs_eq in Hget; simpl in Hget;
    [|simpl; by rewrite cleanup_frame, Hget].
  destruct (negb _); [simpl; by rewrite Hget|].
  destruct b as [truncated entries| |]; [|simpl; by rewrite cleanup_frame, Hget..].
  destruct truncated; [simpl; by rewrite Hget|].
  destruct (filter _ entries) as [|entry rest]; [simpl; by rewrite Hget|].
  case_bool_decide; [simpl; by rewrite Hget|].
  destruct (negb _); [simpl; by rewrite cleanup_frame, Hget|].
  destruct (mkdir_exist_ok target w1) as [w2|] eqn:Hmk;
    [|simpl; by rewrite cleanup_frame, Hget].
  cbv beta match. rewrite download_entries_frame by done.
  by rewrite (mkdir_exist_ok_frame _ _ _ _ Hmk), Hget.
Qed.


Lemma extract_guarded_fs env members names t w :
  fs (extract_guarded env members names t w).2 = fs w.
Proof.
  revert t. induction names as [|name rest IH]; intros t; simpl; [done|].
  destruct (negb _); [done|]. destruct (extract_member _ _ _); [apply IH|done].
Qed.


(** A failed archive attempt on a sub-path leaves the target absent,
    or everything as it was. *)
Lemma zip_failed env download_url plugin_subpath target w :
  removal_succeeds env →
  let out := _install_from_monorepo_zip env download_url plugin_subpath target w in
  out.1 = false →
  fs out.2 !! target = None ∨ fs out.2 = fs w.
Proof.
  intros Hrm. unfold _install_from_monorepo_zip.
  set (w0 := emit _ w).
  destruct (_http_get_with_retries _ _ _) as [[[status b]|e] w1] eqn:Hget;
    apply http_fs_eq in Hget; simpl in Hget; [|by right].
  destruct (is_error_status _); [by right|].
  destruct b as [|members|]; [by right| |by right].
  destruct (zm_name <$> members) as [|first names]; [by right|].
  destruct (filter _ _) as [|m ms]; [by right|].
  pose proof (extract_guarded_fs env members (m :: ms) ∅ w1) as Hx.
  destruct (extract_guarded _ _ _ _ _) as [[extracted|] w2]; simpl in Hx;
    [|right; simpl; congruence].
  destruct (negb _); [right; simpl; congruence|].
  destruct (if path_exists target w2 then _ else _) as [removed w3] eqn:Hcall.
  assert (removed = true → fs w3 !! target = None) as Hgone.
  { intros ->. destruct (path_exists target w2) eqn:Hex.
    - apply safe_remove_true in Hcall. rewrite Hcall. apply lookup_delete_eq.
    - injection Hcall as <-. by apply path_exists_false. }
  destruct removed; simpl.
  - destruct (move_extracted _ _ _ _ _); [done|]. intros _. left. by apply Hgone.
  - destruct (path_exists target w2) eqn:Hex; [|done].
    specialize (Hrm target w2). rewrite Hcall in Hrm. done.
Qed.

Lemma move_extracted_frame env key extracted target w w1 q :
  move_extracted env key extracted target w = Some w1 →
  q ≠ target → fs w1 !! q = fs w !! q.
Proof.
  unfold move_extracted, move_to. intros H Hq.
  repeat case_match; simplify_eq; simpl; by rewrite lookup_insert_ne.
Qed.

Lemma zip_frame env download_url plugin_subpath target w q :
  q ≠ target →
  fs (_install_from_monorepo_zip env download_url plugin_subpath target w).2 !! q
  = fs w !! q.
Proof.
  intros Hq. unfold _install_from_monorepo_zip.
  set (w0 := emit _ w).
  destruct (_http_get_with_retries _ _ _) as [[[status b]|e] w1] eqn:Hget;
    apply http_fs_eq in Hget; simpl in Hget; [|simpl; by rewrite Hget].
  destruct (is_error_status _); [simpl; by rewrite Hget|].
  destruct b as [|members|]; [simpl; by rewrite Hget| |simpl; by rewrite Hget].
  destruct (zm_name <$> members) as [|first names]; [simpl; by rewrite Hget|].
  destruct (filter _ _) as [|m ms]; [simpl; by rewrite Hget|].
  pose proof (extract_guarded_fs env members (m :: ms) ∅ w1) as Hx.
  destruct (extract_guarded _ _ _ _ _) as [[extracted|] w2]; simpl in Hx;
    [|simpl; congruence].
  destruct (negb _); [simpl; congruence|].
  destruct (if path_exists target w2 then _ else _) as [removed w3] eqn:Hcall.
  assert (fs w3 !! q = fs w2 !! q) as Hw3.
  { destruct (path_exists target w2).
    - pose proof (safe_remove_frame env target q w2 Hq) as Hf. by rewrite Hcall in Hf.
    - by injection Hcall as _ <-. }
  destruct removed; simpl; [|congruence].
  destruct (move_extracted _ _ _ _ _) as [w4|] eqn:Hmove; simpl; [|congruence].
  rewrite (move_extracted_frame _ _ _ _ _ _ _ Hmove) by done. congruence.
Qed.








End SafetyFacts.

(** ** Facts about the file-count ceiling *)

Module CeilingFacts.
Import Py Seq Store RemovalFacts SafetyFacts.





End CeilingFacts.

(** ** A failed installation: what is left behind *)

Module RollbackFacts.
Import Py Seq Store RemovalFacts SafetyFacts.

(** When every removal succeeds, a removal deletes. *)
Lemma removal_deletes env p w :
  removal_succeeds env → fs (_safe_remove_directory env p w).2 = delete p (fs w).
Proof.
  intros Hrm. specialize (Hrm p w).
  destruct (_safe_remove_directory env p w) as [ok w1] eqn:Hcall. simpl in *. subst ok.
  by apply (safe_remove_true env).
Qed.

Lemma deleted_or_same (f : FS) p q : delete p f !! q = None ∨ delete p f !! q = f !! q.
Proof.
  destruct (decide (q = p)) as [->|Hq].
  - left. apply lookup_delete_eq.
  - right. by apply lookup_delete_ne.
Qed.

(** A loop over candidates writes where its attempts write. *)
Lemma first_success_frame {A} (attempt : A → World → bool * World) candidates q :
  (∀ c w, fs (attempt c w).2 !! q = fs w !! q) →
  ∀ w, fs (first_success attempt candidates w).2 !! q = fs w !! q.
Proof.
  intros Hf. induction candidates as [|c l IH]; intros w; simpl; [done|].
  specialize (Hf c w). destruct (attempt c w) as [[|] w1]; simpl in *; [done|].
  by rewrite IH.
Qed.

(** A loop whose failed attempts leave [p] absent leaves it absent when
    all of them fail. *)
Lemma first_success_absent {A} (attempt : A → World → bool * World) candidates p :
  (∀ c w, (attempt c w).1 = false → fs w !! p = None → fs (attempt c w).2 !! p = None) →
  ∀ w w', first_success attempt candidates w = (None, w') →
          fs w !! p = None → fs w' !! p = None.
Proof.
  intros Hf. induction candidates as [|c l IH]; intros w w'; simpl.
  - by intros [= ->].
  - specialize (Hf c w). destruct (attempt c w) as [[|] w1]; simpl in *; [done|].
    intros Hrest Hp. eapply IH; [done|]. by apply Hf.
Qed.

Lemma monorepo_frame env download_url plugin_subpath target w q :
  q ≠ target →
  fs (_install_from_monorepo env download_url plugin_subpath target w).2 !! q = fs w !! q.
Proof.
  intros Hq. unfold _install_from_monorepo.
  destruct (_parse_monorepo_download_url download_url) as [[repo_url|] [branch|]];
    try by apply zip_frame.
  destruct (negb _ && negb _); [|by apply zip_frame].
  pose proof (api_frame env repo_url branch plugin_subpath target w q Hq) as Hapi.
  destruct (_install_from_monorepo_api _ _ _ _ _ _) as [[|] w1]; simpl in *; [done|].
  by rewrite zip_frame, cleanup_frame.
Qed.

(** A failed monorepo attempt on a free target leaves it free. *)
Lemma monorepo_failed env download_url plugin_subpath target w :
  removal_succeeds env →
  (_install_from_monorepo env download_url plugin_subpath target w).1 = false →
  fs w !! target = None →
  fs (_install_from_monorepo env download_url plugin_subpath target w).2 !! target = None.
Proof.
  intros Hrm. unfold _install_from_monorepo.
  assert (∀ w0, fs w0 !! target = None →
            (_install_from_monorepo_zip env download_url plugin_subpath target w0).1 = false →
            fs (_install_from_monorepo_zip env download_url plugin_subpath target w0).2
              !! target = None) as Hzip.
  { intros w0 Hfree Hfail.
    destruct (zip_failed env download_url plugin_subpath target w0 Hrm Hfail) as [H|H];
      [done|by rewrite H]. }
  destruct (_parse_monorepo_download_url download_url) as [[repo_url|] [branch|]];
    try (intros Hfail Hfree; by apply Hzip).
  destruct (negb _ && negb _); [|intros Hfail Hfree; by apply Hzip].
  destruct (_install_from_monorepo_api _ _ _ _ _ _) as [[|] w1]; [done|].
  intros Hfail _. apply Hzip; [|done]. by apply cleanup_gone.
Qed.

Lemma download_frame env download_url target w q :
  q ≠ target →
  fs (_install_via_download env download_url target w).2 !! q = fs w !! q.
Proof.
  intros Hq. unfold _install_via_download. set (w0 := emit _ w).
  destruct (_http_get_with_retries _ _ _) as [[[status b]|e] w1] eqn:Hget;
    apply http_fs_eq in Hget; simpl in Hget; [|simpl; by rewrite Hget].
  repeat case_match; simpl; rewrite <- ?Hget; try done;
    by eapply move_extracted_frame.
Qed.

Lemma run_clone_frame env repo_url branch target w q :
  q ≠ target → fs (run_clone env repo_url branch target w).2 !! q = fs w !! q.
Proof.
  intros Hq. unfold run_clone.
  destruct (git_clone _ _ _ _ _) as [t|[r|]]; simpl.
  - by apply lookup_insert_ne.
  - rewrite cleanup_frame by done. by apply lookup_insert_ne.
  - rewrite cleanup_frame by done. by apply lookup_delete_ne.
Qed.

Lemma git_frame env repo_url target branches w q :
  q ≠ target → fs (_install_via_git env repo_url target branches w).2 !! q = fs w !! q.
Proof.
  intros Hq. unfold _install_via_git.
  set (branches_to_try := match _ with [] => _ | l => l end).
  pose proof (first_success_frame (clone_attempt env repo_url target) branches_to_try q
                (λ c w, run_clone_frame env repo_url (Some c) target w q Hq) w) as Hloop.
  destruct (first_success _ _ _) as [[b|] w1]; simpl in *; [done|].
  by rewrite run_clone_frame.
Qed.

(** The acquisition of [install_plugin] writes nowhere but at the
    plugin's path. *)
Lemma acquire_frame env repo_url plugin_subpath plugin_path candidates w q :
  q ≠ plugin_path →
  fs (acquire env repo_url plugin_subpath plugin_path candidates w).2 !! q = fs w !! q.
Proof.
  intros Hq. unfold acquire. destruct (truthy plugin_subpath).
  - pose proof (first_success_frame
                  (monorepo_attempt env repo_url (default "" plugin_subpath) plugin_path)
                  candidates q
                  (λ c w, monorepo_frame env _ _ plugin_path w q Hq) w) as Hloop.
    by destruct (first_success _ _ _) as [[c|] w1].
  - pose proof (git_frame env repo_url plugin_path candidates w q Hq) as Hgit.
    destruct (_install_via_git _ _ _ _ _) as [branch_used w1]. simpl in Hgit.
    pose proof (first_success_frame (archive_attempt env repo_url plugin_path) candidates q
                  (λ c w, download_frame env _ plugin_path w q Hq) w1) as Hloop.
    destruct (negb _ && negb (path_exists plugin_path w1)).
    + destruct (first_success _ _ _) as [branch_used' w2]. simpl in Hloop.
      destruct (negb _ && negb _); simpl; congruence.
    + destruct (negb _ && negb _); simpl; congruence.
Qed.

(** When the acquisition gives up, nothing is at the plugin's path. *)
Lemma acquire_failed env repo_url plugin_subpath plugin_path candidates w w' :
  removal_succeeds env →
  acquire env repo_url plugin_subpath plugin_path candidates w = (None, w') →
  fs w !! plugin_path = None →
  fs w' !! plugin_path = None.
Proof.
  intros Hrm. unfold acquire. destruct (truthy plugin_subpath).
  - destruct (first_success _ _ _) as [[c|] w1] eqn:Hloop; [done|].
    intros [= <-]. revert Hloop. apply first_success_absent.
    intros c w0. by apply monorepo_failed.
  - destruct (_install_via_git _ _ _ _ _) as [branch_used w1].
    destruct (if negb _ && negb (path_exists plugin_path w1) then _ else _)
      as [branch_used' w2].
    destruct (negb (bool_decide (is_Some branch_used'))); simpl; [|done].
    destruct (path_exists plugin_path w2) eqn:Hex; simpl; [done|].
    intros [= <-] _. by apply path_exists_false.
Qed.

Lemma move_path_spec env src dst w w' :
  move_path env src dst w = Some w' →
  ∀ q, q ≠ dst → fs w' !! q = delete src (fs w) !! q.
Proof.
  unfold move_path, move_to. intros H q Hq.
  repeat case_match; simplify_eq; simpl; by rewrite lookup_insert_ne.
Qed.

(** Every failure of the field checks removes the directory. *)
Lemma validate_fields_failed env plugin_path manifest w w' :
  removal_succeeds env →
  validate_fields env plugin_path manifest w = (false, w') →
  fs w' = delete plugin_path (fs w).
Proof.
  intros Hrm. unfold validate_fields.
  repeat case_match; intros [= <-]; by apply removal_deletes.
Qed.

(** A failure after the acquisition leaves nothing at the requested
    path, and nothing new anywhere. *)
Lemma finish_install_failed env plugin_id w w' :
  removal_succeeds env →
  finish_install env plugin_id w = (false, w') →
  fs w' !! InPlugins plugin_id = None
  ∧ ∀ q, fs w' !! q = None ∨ fs w' !! q = fs w !! q.
Proof.
  intros Hrm. unfold finish_install.
  assert (∀ w0, fs w0 = delete (InPlugins plugin_id) (fs w) →
            fs w0 !! InPlugins plugin_id = None
            ∧ ∀ q, fs w0 !! q = None ∨ fs w0 !! q = fs w !! q) as Hdel.
  { intros w0 ->. split; [apply lookup_delete_eq|]. intros q. apply deleted_or_same. }
  destruct (negb _); [intros [= <-]; apply Hdel; by apply removal_deletes|].
  destruct (load_json _ _) as [[| | | | |manifest]|e];
    try (intros [= <-]; apply Hdel; by apply removal_deletes).
  destruct (fields_get manifest "id") as [[| | |manifest_plugin_id| |]|];
    try (intros [= <-]; apply Hdel; by apply removal_deletes).
  case_bool_decide; [intros [= <-]; apply Hdel; by apply removal_deletes|].
  case_bool_decide as Hsame.
  { intros Hv%validate_fields_failed; [|done]. by apply Hdel. }
  destruct (if path_exists (InPlugins manifest_plugin_id) w then _ else _)
    as [removed w1] eqn:Hcall.
  assert (removed = true ∧ ∀ q, fs w1 !! q = None ∨ fs w1 !! q = fs w !! q) as [-> Hw1].
  { destruct (path_exists _ w).
    - pose proof (Hrm (InPlugins manifest_plugin_id) w) as Hok.
      pose proof (removal_deletes env (InPlugins manifest_plugin_id) w Hrm) as Hfs.
      rewrite Hcall in Hok, Hfs. simpl in *. split; [done|].
      intros q. rewrite Hfs. apply deleted_or_same.
    - injection Hcall as <- <-. split; [done|]. by right. }
  simpl. destruct (move_path _ _ _ _) as [w2|] eqn:Hmove.
  - intros Hv%validate_fields_failed; [|done].
    assert (InPlugins plugin_id ≠ InPlugins manifest_plugin_id) as Hne by congruence.
    split.
    + rewrite Hv, lookup_delete_ne by done.
      rewrite (move_path_spec _ _ _ _ _ Hmove) by done. apply lookup_delete_eq.
    + intros q. rewrite Hv.
      destruct (decide (q = InPlugins manifest_plugin_id)) as [->|Hq];
        [left; apply lookup_delete_eq|].
      rewrite lookup_delete_ne by done.
      rewrite (move_path_spec _ _ _ _ _ Hmove) by done.
      destruct (deleted_or_same (fs w1) (InPlugins plugin_id) q) as [Hd|Hd];
        [by left|]. rewrite Hd. apply Hw1.
  - intros [= <-]. rewrite removal_deletes by done. split; [apply lookup_delete_eq|].
    intros q. destruct (deleted_or_same (fs w1) (InPlugins plugin_id) q) as [Hd|Hd];
      [by left|]. rewrite Hd. apply Hw1.
Qed.

(** [install_plugin] once the registry has answered: a failure leaves
    every directory absent or as it was. *)
Lemma install_plugin_with_failed env info plugin_id branch w :
  removal_succeeds env →
  (install_plugin_with env info plugin_id branch w).1 = false →
  ∀ q, fs (install_plugin_with env info plugin_id branch w).2 !! q = None
       ∨ fs (install_plugin_with env info plugin_id branch w).2 !! q = fs w !! q.
Proof.
  intros Hrm. unfold install_plugin_with.
  destruct info as [plugin_info|]; [|by right].
  destruct (negb _); [by right|].
  set (plugin_path := InPlugins plugin_id).
  destruct (if path_exists plugin_path w then _ else _) as [removed w1] eqn:Hcall.
  assert (removed = true ∧ fs w1 !! plugin_path = None
          ∧ ∀ q, q ≠ plugin_path → fs w1 !! q = fs w !! q) as (-> & Hfree & Hw1).
  { destruct (path_exists _ w) eqn:Hex.
    - pose proof (Hrm plugin_path w) as Hok.
      pose proof (removal_deletes env plugin_path w Hrm) as Hfs.
      rewrite Hcall in Hok, Hfs. simpl in *. split; [done|]. rewrite Hfs.
      split; [apply lookup_delete_eq|]. intros q Hq. by apply lookup_delete_ne.
    - injection Hcall as <- <-. split; [done|]. split; [|done].
      by apply path_exists_false. }
  simpl.
  pose proof (acquire_frame env (default "" (info_repo plugin_info))
                (info_plugin_path plugin_info) plugin_path
                (branch_candidates_of branch plugin_info) w1) as Hframe.
  destruct (acquire _ _ _ _ _ _) as [[branch_used|] w2] eqn:Hacq; simpl in *.
  - intros Hfail q.
    destruct (finish_install env plugin_id w2) as [ok w3] eqn:Hfin. simpl in *. subst ok.
    destruct (finish_install_failed env plugin_id w2 w3 Hrm Hfin) as [Hgone Hrest].
    destruct (decide (q = plugin_path)) as [->|Hq]; [by left|].
    destruct (Hrest q) as [Hd|Hd]; [by left|]. right.
    by rewrite Hd, Hframe, Hw1.
  - intros _ q. destruct (decide (q = plugin_path)) as [->|Hq].
    + left. by apply (acquire_failed _ _ _ _ _ _ _ Hrm Hacq).
    + right. by rewrite Hframe, Hw1.
Qed.

(** *** [install_from_url]: the work happens in the temporary directory *)












End RollbackFacts.

(** ** Properties of the helpers *)

Module SequenceProperties.
Import Seq SeqFacts.

Lemma present_sublist values : sublist (Some <$> present values) values.
Proof.
  induction values as [|[s|] rest IH]; simpl; [done| |by constructor].
  case_bool_decide; [by constructor|]. rewrite fmap_cons. by constructor.
Qed.

(** A value that comes before another one in the list of first
    occurrences occurs before every occurrence of the other. *)
Lemma first_occurrences_order l a b :
  sublist [a; b] (first_occurrences l) →
  ∃ l1 l2, l = l1 ++ a :: l2 ∧ b ∉ l1.
Proof.
  induction l as [|x l IH]; simpl; [by intros ?%sublist_nil_r|].
  intros Hsub. apply sublist_cons_r in Hsub as [Hskip|(rest & [= <- <-] & Hrest)].
  - assert (b ≠ x) as Hb.
    { assert (b ∈ filter (λ y, y ≠ x) (first_occurrences l)) as Hin.
      { eapply elem_of_sublist; [|exact Hskip]. set_solver. }
      apply list_elem_of_filter in Hin. tauto. }
    destruct IH as (l1 & l2 & -> & Hl1).
    { etrans; [exact Hskip|]. apply sublist_filter. }
    exists (x :: l1), l2. split; [done|]. set_solver.
  - exists [], l. split; [done|]. apply not_elem_of_nil.
Qed.

Lemma present_split values l1 a l2 :
  present values = l1 ++ a :: l2 →
  ∃ before after, values = before ++ Some a :: after ∧ present before = l1.
Proof.
  revert l1. induction values as [|[s|] rest IH]; intros l1; simpl.
  - by destruct l1.
  - case_bool_decide as Hs.
    + intros (before & after & -> & Hbefore)%IH.
      exists (Some s :: before), after. split; [done|]. simpl.
      by rewrite bool_decide_eq_true_2.
    + destruct l1 as [|x l1]; simpl.
      * intros [= -> _]. by exists [], rest.
      * intros [= <- (before & after & -> & Hbefore)%IH].
        exists (Some s :: before), after. split; [done|]. simpl.
        rewrite bool_decide_eq_false_2 by done. by rewrite Hbefore.
  - intros (before & after & -> & Hbefore)%IH.
    by exists (None :: before), after.
Qed.

(** X1. [_distinct_sequence] returns every non-empty input value
    exactly once, in the order of the first occurrences: the result
    has no duplicates, holds exactly the values that occur in the
    input and are not empty, and a value that comes before another
    one in the result occurs in the input before every occurrence of
    the other; so the result is the list of first occurrences of the
    non-empty values, a subsequence of the input that a second pass
    leaves alone. *)
Theorem distinct_sequence_characterised values :
  NoDup (_distinct_sequence values)
  ∧ (∀ s, s ∈ _distinct_sequence values ↔ Some s ∈ values ∧ s ≠ "")
  ∧ (∀ a b, sublist [a; b] (_distinct_sequence values) →
       ∃ before after, values = before ++ Some a :: after ∧ Some b ∉ before)
  ∧ _distinct_sequence values = order_preserving_dedup values
  ∧ sublist (Some <$> _distinct_sequence values) values
  ∧ _distinct_sequence (Some <$> _distinct_sequence values) = _distinct_sequence values.
Proof.
  split; [|split; [|split; [|split; [|split]]]].
  - rewrite distinct_sequence_refines. apply first_occurrences_NoDup.
  - intros s. rewrite distinct_sequence_refines. unfold order_preserving_dedup.
    by rewrite first_occurrences_elem, present_elem.
  - intros a b. rewrite distinct_sequence_refines. unfold order_preserving_dedup.
    intros Hsub.
    assert (b ≠ "") as Hb.
    { assert (b ∈ first_occurrences (present values)) as Hin.
      { eapply elem_of_sublist; [|exact Hsub]. set_solver. }
      apply first_occurrences_elem, present_elem in Hin. tauto. }
    apply first_occurrences_order in Hsub as (l1 & l2 & Hsplit & Hl1).
    apply present_split in Hsplit as (before & after & -> & <-).
    exists before, after. split; [done|].
    intros Hin. apply Hl1, present_elem. by split.
  - apply distinct_sequence_refines.
  - rewrite distinct_sequence_refines. unfold order_preserving_dedup.
    etrans; [|apply present_sublist].
    apply (fmap_sublist Some), first_occurrences_sublist.
  - apply CandidateFacts.distinct_sequence_idempotent.
Qed.

End SequenceProperties.

(** ** Properties of the manifest warnings *)

Module ManifestProperties.
Import Py Store Manifest.

Lemma versions_loop_elem msg k entries :
  msg ∈ versions_loop k entries
  ↔ ∃ i version_entry,
      msg = deprecated_ledmatrix_min (k + i)
      ∧ entries !! i = Some version_entry
      ∧ uses_ledmatrix_min version_entry = true.
Proof.
  revert k. induction entries as [|e rest IH]; intros k; simpl.
  - rewrite elem_of_nil. split; [done|]. by intros (i & v & _ & ? & _).
  - rewrite elem_of_app, IH. split.
    + intros [Hhere|(i & v & -> & Hi & Hv)].
      * destruct (uses_ledmatrix_min e) eqn:He; [|by apply elem_of_nil in Hhere].
        apply list_elem_of_singleton in Hhere as ->.
        exists 0%nat, e. by rewrite Nat.add_0_r.
      * exists (S i), v. by rewrite Nat.add_succ_r.
    + intros ([|i] & v & -> & Hi & Hv); simpl in Hi.
      * injection Hi as ->. left. rewrite Hv, Nat.add_0_r. by apply list_elem_of_singleton.
      * right. exists i, v. by rewrite Nat.add_succ_r.
Qed.

(** X2. On a manifest that is a dict [_validate_manifest_version_fields]
    returns, and its messages are exactly these: "must be an array"
    when [compatible_versions] is present and not a list; "cannot be
    empty" when it is the empty list; the deprecation of
    [ledmatrix_version] when that key is present; and, when [versions]
    is a list, one message per index whose entry is a dict with
    [ledmatrix_min] and without [ledmatrix_min_version]. *)
Theorem version_warnings_of_dict fields :
  ∃ errors,
    _validate_manifest_version_fields (JObj fields) = Returned errors
    ∧ ∀ msg, msg ∈ errors ↔
        (msg = "compatible_versions must be an array"
         ∧ ∃ v, fields_get fields "compatible_versions" = Some v ∧ ∀ l, v ≠ JArr l)
        ∨ (msg = "compatible_versions array cannot be empty"
           ∧ fields_get fields "compatible_versions" = Some (JArr []))
        ∨ (msg = deprecated_ledmatrix_version
           ∧ is_Some (fields_get fields "ledmatrix_version"))
        ∨ (∃ i entries version_entry,
             msg = deprecated_ledmatrix_min i
             ∧ fields_get fields "versions" = Some (JArr entries)
             ∧ entries !! i = Some version_entry
             ∧ uses_ledmatrix_min version_entry = true).
Proof.
  unfold _validate_manifest_version_fields, py_in, py_index. simpl.
  set (errors1 := match fields_get fields "compatible_versions" with
                  | Some (JArr []) => ["compatible_versions array cannot be empty"]
                  | Some (JArr _) => []
                  | Some _ => ["compatible_versions must be an array"]
                  | None => []
                  end).
  set (errors2 := if bool_decide (is_Some (fields_get fields "ledmatrix_version"))
                  then [deprecated_ledmatrix_version] else []).
  set (errors3 := match fields_get fields "versions" with
                  | Some (JArr entries) => versions_loop 0 entries
                  | _ => []
                  end).
  exists (errors1 ++ errors2 ++ errors3). split.
  { subst errors1 errors2 errors3.
    destruct (fields_get fields "compatible_versions") as [[| | | |[|]|]|];
      destruct (fields_get fields "versions") as [[]|]; simpl;
      repeat case_bool_decide; simpl; try done;
      match goal with H : ¬ is_Some (Some _) |- _ => by destruct H end. }
  intros msg. rewrite !elem_of_app.
  assert (msg ∈ errors1 ↔
            (msg = "compatible_versions must be an array"
             ∧ ∃ v, fields_get fields "compatible_versions" = Some v ∧ ∀ l, v ≠ JArr l)
            ∨ (msg = "compatible_versions array cannot be empty"
               ∧ fields_get fields "compatible_versions" = Some (JArr []))) as ->.
  { subst errors1.
    destruct (fields_get fields "compatible_versions") as [[| | | |[|]|]|];
      rewrite ?list_elem_of_singleton, ?elem_of_nil; naive_solver. }
  assert (msg ∈ errors2 ↔
            msg = deprecated_ledmatrix_version
            ∧ is_Some (fields_get fields "ledmatrix_version")) as ->.
  { subst errors2. case_bool_decide;
      rewrite ?list_elem_of_singleton, ?elem_of_nil; naive_solver. }
  assert (msg ∈ errors3 ↔
            ∃ i entries version_entry,
              msg = deprecated_ledmatrix_min i
              ∧ fields_get fields "versions" = Some (JArr entries)
              ∧ entries !! i = Some version_entry
              ∧ uses_ledmatrix_min version_entry = true) as ->.
  { subst errors3.
    destruct (fields_get fields "versions") as [[| | | |entries|]|];
      rewrite ?versions_loop_elem, ?elem_of_nil; try naive_solver. }
  tauto.
Qed.

(** X3. On a manifest that is not a dict the check raises
    [TypeError] exactly when the manifest is null, a boolean or a
    number, or is a list or a string that contains
    ["compatible_versions"] or ["versions"]; otherwise it returns.
    This is the test that [install_from_url] relies on. *)
Theorem version_warnings_raise manifest :
  if version_fields_raise manifest
  then _validate_manifest_version_fields manifest = Raised TypeError
  else ∃ errors, _validate_manifest_version_fields manifest = Returned errors.
Proof.
  destruct manifest as [| | |s|items|fields]; try done.
  - unfold version_fields_raise, _validate_manifest_version_fields. simpl.
    destruct (contains "compatible_versions" s); simpl; [done|].
    destruct (contains "ledmatrix_version" s), (contains "versions" s); simpl; by eauto.
  - unfold version_fields_raise, _validate_manifest_version_fields. simpl.
    repeat match goal with
           | |- context [existsb ?f items] => destruct (existsb f items); simpl
           end; by eauto.
  - simpl. destruct (version_warnings_of_dict fields) as (errors & -> & _). by eauto.
Qed.

End ManifestProperties.

(** ** Properties of the downloads *)

Module DownloadProperties.
Import Py Seq Store RemovalFacts SafetyFacts RollbackFacts.

Lemma now_emit e w : now (emit e w) = S (now w).
Proof. unfold now, emit. simpl. rewrite length_app. simpl. lia. Qed.

Lemma retry_loop_attempts env k url w :
  ∃ n, (n ≤ k)%nat
    ∧ trace (http_retry_loop env k url w).2 = trace w ++ replicate n (EvHttp url)
    ∧ (∀ i, (S i < n)%nat → http_get env (now w + i) url = ConnectionFailed)
    ∧ match (http_retry_loop env k url w).1 with
      | Returned (status_code, b) =>
          (0 < n)%nat ∧ http_get env (now w + (n - 1)) url = Resp status_code b
      | Raised e =>
          n = k ∧ ∀ i, (i < k)%nat → http_get env (now w + i) url = ConnectionFailed
      end.
Proof.
  revert w. induction k as [|k IH]; intros w; simpl.
  { exists 0%nat. simpl. rewrite app_nil_r. repeat split; [lia..|]. intros; lia. }
  destruct (http_get env (now w) url) as [|status_code b] eqn:Hget; simpl.
  - destruct (IH (emit (EvHttp url) w)) as (n & Hn & Htrace & Hbefore & Hlast).
    rewrite now_emit in Hbefore, Hlast.
    exists (S n). split; [lia|]. split.
    { rewrite Htrace. simpl. by rewrite <- app_assoc. }
    split.
    { intros [|i] Hi; [by rewrite Nat.add_0_r|].
      rewrite Nat.add_succ_r. apply Hbefore. lia. }
    destruct (http_retry_loop env k url (emit (EvHttp url) w)).1 as [[status_code b]|e].
    + destruct Hlast as [Hpos Hlast]. split; [lia|].
      replace (now w + (S n - 1))%nat with (S (now w) + (n - 1))%nat by lia. done.
    + destruct Hlast as [-> Hall]. split; [done|].
      intros [|i] Hi; [by rewrite Nat.add_0_r|].
      rewrite Nat.add_succ_r. apply Hall. lia.
  - exists 1%nat. split; [lia|]. split; [done|]. split; [intros; lia|].
    split; [lia|]. by rewrite Nat.add_0_r.
Qed.

(** X4. [_http_get_with_retries] sends between one and three
    requests for the URL and nothing else happens: it returns the
    first response it gets, whatever its status, after connection
    failures only; it raises only when all three requests failed to
    connect. *)
Theorem http_get_with_retries_attempts env url w :
  ∃ n, (1 ≤ n ≤ 3)%nat
    ∧ trace (_http_get_with_retries env url w).2 = trace w ++ replicate n (EvHttp url)
    ∧ fs (_http_get_with_retries env url w).2 = fs w
    ∧ (∀ i, (S i < n)%nat → http_get env (now w + i) url = ConnectionFailed)
    ∧ match (_http_get_with_retries env url w).1 with
      | Returned (status_code, b) =>
          http_get env (now w + (n - 1)) url = Resp status_code b
      | Raised e =>
          n = 3%nat ∧ http_get env (now w + 2) url = ConnectionFailed
      end.
Proof.
  unfold _http_get_with_retries.
  destruct (retry_loop_attempts env 3 url w) as (n & Hn & Htrace & Hbefore & Hlast).
  exists n. rewrite http_fs.
  destruct (http_retry_loop env 3 url w).1 as [[status_code b]|e].
  - destruct Hlast as [Hpos Hlast]. repeat split; try done; lia.
  - destruct Hlast as [-> Hall]. repeat split; try done; try lia. apply Hall. lia.
Qed.

End DownloadProperties.

(** ** Properties of the installed plugins *)

Module InstalledProperties.
Import Py Seq Store RemovalFacts NamingFacts.

Lemma NoDup_omap_inj {A B} (f : A → option B) (l : list A) :
  (∀ x y z, x ∈ l → y ∈ l → f x = Some z → f y = Some z → x = y) →
  NoDup l → NoDup (omap f l).
Proof.
  intros Hinj Hl. induction Hl as [|x l Hx Hl IH]; simpl; [constructor|].
  destruct (f x) as [z|] eqn:Hfx.
  - constructor.
    + rewrite list_elem_of_omap. intros (y & Hy & Hfy).
      assert (x = y) as -> by (eapply Hinj; [by left|by right|done..]). done.
    + apply IH. intros a b c Ha Hb. apply Hinj; by right.
  - apply IH. intros a b c Ha Hb. apply Hinj; by right.
Qed.

(** X6. [list_installed_plugins] names exactly the entries of the
    plugins directory that are directories holding a [manifest.json],
    each of them once; entries of the standard [plugins/] directory
    and temporary directories are never listed. *)
Theorem list_installed_plugins_exact w :
  NoDup (list_installed_plugins w)
  ∧ ∀ name,
      name ∈ list_installed_plugins w
      ↔ ∃ t, fs w !! InPlugins name = Some t
             ∧ is_file (t !! []) = false
             ∧ is_Some (t !! ["manifest.json"]).
Proof.
  unfold list_installed_plugins. split.
  - apply NoDup_omap_inj; [|apply NoDup_map_to_list].
    intros [p t] [q u] name Hp Hq. simpl.
    apply elem_of_map_to_list in Hp, Hq.
    destruct p, q; try done; repeat case_match; try done.
    intros [= ->] [= ->]. f_equal. congruence.
  - intros name. rewrite list_elem_of_omap. unfold has_manifest, manifest_key. split.
    + intros ([p t] & Hin & Hf). simpl in Hf. apply elem_of_map_to_list in Hin.
      destruct p; try done. destruct (negb _) eqn:Hdir; simpl in Hf; [|done].
      case_bool_decide; [|done]. injection Hf as ->.
      exists t. by apply negb_true_iff in Hdir.
    + intros (t & Hin & Hdir & Hm). exists (InPlugins name, t).
      split; [by apply elem_of_map_to_list|]. simpl.
      by rewrite Hdir, bool_decide_eq_true_2.
Qed.

Lemma fields_set_same fields key v : fields_get (fields_set fields key v) key = Some v.
Proof.
  induction fields as [|[k old] rest IH]; simpl.
  - by rewrite bool_decide_eq_true_2.
  - case_bool_decide as Hk; simpl.
    + by rewrite bool_decide_eq_true_2.
    + by rewrite bool_decide_eq_false_2.
Qed.

Lemma fields_set_keeps fields key v other :
  is_Some (fields_get fields other) → is_Some (fields_get (fields_set fields key v) other).
Proof.
  intros H. destruct (decide (other = key)) as [->|Hne].
  - rewrite fields_set_same. by eexists.
  - by rewrite fields_set_other.
Qed.

(** A manifest that passes the checks has the required fields and an
    entry point when the checks are done, on disk as well. *)
Lemma validate_fields_complete env plugin_path manifest t w w' :
  fs w !! plugin_path = Some t →
  load_json t manifest_key = Returned (JObj manifest) →
  validate_fields env plugin_path manifest w = (true, w') →
  ∃ t' manifest',
    fs w' !! plugin_path = Some t'
    ∧ load_json t' manifest_key = Returned (JObj manifest')
    ∧ Forall (λ field, is_Some (fields_get manifest' field))
        (required_fields ++ ["entry_point"]).
Proof.
  intros Hpath Hload. unfold validate_fields.
  set (missing := filter _ required_fields).
  assert (∀ field, field ∈ required_fields → field ∉ missing →
            is_Some (fields_get manifest field)) as Hpresent.
  { intros field Hin Hnot. destruct (fields_get manifest field) eqn:Hf; [by eexists|].
    destruct Hnot. subst missing. by apply list_elem_of_filter. }
  destruct (if bool_decide ("class_name" ∈ missing) then _ else _)
    as [detected|e]; [|done].
  set (state := match detected with Some _ => _ | None => _ end).
  assert (state.1.2 = [] →
          Forall (λ field, is_Some (fields_get state.1.1 field)) required_fields
          ∧ (state.2 = false → state.1.1 = manifest)) as Hstate.
  { subst state. destruct detected as [detected_class|]; simpl.
    - intros Hnone. split; [|done]. apply Forall_forall. intros field Hin.
      destruct (decide (field = "class_name")) as [->|Hne].
      + rewrite fields_set_same. by eexists.
      + apply fields_set_keeps, Hpresent; [done|]. intros Hmiss.
        assert (field ∈ filter (λ f, f ≠ "class_name") missing) as Hbad
          by (by apply list_elem_of_filter).
        rewrite Hnone in Hbad. by apply elem_of_nil in Hbad.
    - intros Hnone. split; [|done]. apply Forall_forall. intros field Hin.
      apply Hpresent; [done|]. rewrite Hnone. apply not_elem_of_nil. }
  destruct state as [[manifest1 missing1] modified1]. simpl in Hstate.
  destruct missing1; [|done]. destruct (Hstate eq_refl) as [Hreq Hsame].
  destruct (fields_get manifest1 "entry_point") eqn:Hentry.
  - assert (Forall (λ field, is_Some (fields_get manifest1 field))
              (required_fields ++ ["entry_point"])) as Hall.
    { apply Forall_app. split; [done|]. constructor; [by eexists|constructor]. }
    destruct modified1; intros [= <-]; rewrite install_dependencies_fs.
    + destruct (load_dumped plugin_path manifest1 w) as (t' & Ht' & Hl). eauto.
    + rewrite Hsame in Hall by done. eauto.
  - intros [= <-]. rewrite install_dependencies_fs.
    destruct (load_dumped plugin_path
                (fields_set manifest1 "entry_point" (JStr "manager.py")) w)
      as (t' & Ht' & Hl).
    exists t', (fields_set manifest1 "entry_point" (JStr "manager.py")).
    split; [done|]. split; [done|]. apply Forall_app. split.
    + eapply Forall_impl; [exact Hreq|]. intros field. apply fields_set_keeps.
    + constructor; [|constructor]. rewrite fields_set_same. by eexists.
Qed.

Lemma load_json_some t key manifest :
  load_json t key = Returned manifest → is_Some (t !! key).
Proof. unfold load_json. destruct (t !! key) as [[[]|]|]; by eauto. Qed.

Lemma finish_install_complete env plugin_id w w' :
  finish_install env plugin_id w = (true, w') →
  ∃ id t manifest,
    fs w' !! InPlugins id = Some t
    ∧ load_json t manifest_key = Returned (JObj manifest)
    ∧ fields_get manifest "id" = Some (JStr id)
    ∧ Forall (λ field, is_Some (fields_get manifest field))
        (required_fields ++ ["entry_point"])
    ∧ (id = plugin_id ∨ fs w' !! InPlugins plugin_id = None).
Proof.
  unfold finish_install.
  destruct (fs w !! InPlugins plugin_id) as [t|] eqn:Hpath; simpl;
    [|by rewrite lookup_empty].
  case_bool_decide as Hmanifest; [|done]. simpl.
  destruct (load_json t manifest_key) as [[| | | | |manifest]|] eqn:Hload; try done.
  destruct (fields_get manifest "id") as [[| | |id| |]|] eqn:Hid; try done.
  case_bool_decide as Hempty; [done|].
  case_bool_decide as Hsame.
  - subst id. intros Hv.
    destruct (validate_fields_keeps_id _ _ _ _ _ _ _ Hpath Hload Hid Hv)
      as [(t1 & m1 & Ht1 & Hl1 & Hid1) _].
    destruct (validate_fields_complete _ _ _ _ _ _ Hpath Hload Hv)
      as (t2 & m2 & Ht2 & Hl2 & Hall).
    assert (t2 = t1) as -> by congruence. assert (m2 = m1) as -> by congruence.
    exists plugin_id, t1, m1. repeat split; try done. by left.
  - destruct (if path_exists (InPlugins id) w then _ else _) as [removed w1] eqn:Hrm.
    destruct removed; [|done]. simpl.
    assert (fs w1 = delete (InPlugins id) (fs w)) as Hw1.
    { destruct (path_exists (InPlugins id) w) eqn:Hex.
      - by apply safe_remove_true in Hrm.
      - injection Hrm as <-. symmetry. apply delete_id. by apply path_exists_false. }
    assert (InPlugins id ≠ InPlugins plugin_id) as Hne by congruence.
    unfold move_path. rewrite Hw1, lookup_delete_ne, Hpath by done.
    unfold move_to. rewrite lookup_delete_ne, lookup_delete_eq by done.
    intros Hv.
    assert (fs (set_fs (<[InPlugins id := t]>
                          (delete (InPlugins plugin_id) (delete (InPlugins id) (fs w))))
                  w1) !! InPlugins id = Some t) as Hmoved
      by (simpl; apply lookup_insert_eq).
    destruct (validate_fields_keeps_id _ _ _ _ _ _ _ Hmoved Hload Hid Hv)
      as [(t1 & m1 & Ht1 & Hl1 & Hid1) Hother].
    destruct (validate_fields_complete _ _ _ _ _ _ Hmoved Hload Hv)
      as (t2 & m2 & Ht2 & Hl2 & Hall).
    assert (t2 = t1) as -> by congruence. assert (m2 = m1) as -> by congruence.
    exists id, t1, m1. repeat split; [done..|]. right.
    rewrite Hother by congruence. simpl.
    rewrite lookup_insert_ne by done. apply lookup_delete_eq.
Qed.

(** X7. After a successful [install_plugin] the plugin is stored under
    the id of its manifest: [get_installed_plugin_info] of that id
    returns a dict whose ["id"] is that id and which has [name],
    [class_name], [display_modes] and [entry_point]; when that id is
    not the one that was asked for, nothing is left under the
    requested id. *)
Theorem installed_plugin_is_complete env plugin_id branch w :
  (install_plugin env plugin_id branch w).1 = Returned true →
  ∃ id manifest,
    get_installed_plugin_info id (install_plugin env plugin_id branch w).2
    = Some (JObj manifest)
    ∧ fields_get manifest "id" = Some (JStr id)
    ∧ Forall (λ field, is_Some (fields_get manifest field))
        ["id"; "name"; "class_name"; "display_modes"; "entry_point"]
    ∧ (id = plugin_id
       ∨ fs (install_plugin env plugin_id branch w).2 !! InPlugins plugin_id = None).
Proof.
  unfold install_plugin.
  destruct (get_plugin_info env (now w) plugin_id) as [info|e]; [|done].
  destruct (install_plugin_with env info plugin_id branch w) as [ok w'] eqn:Hrun.
  simpl. intros [= ->]. revert Hrun. unfold install_plugin_with.
  destruct info as [plugin_info|]; [|done].
  destruct (negb _); [done|].
  destruct (if path_exists _ w then _ else _) as [[|] w1]; [|done]. simpl.
  destruct (acquire _ _ _ _ _ _) as [[branch_used|] w2]; [|done].
  intros (id & t & manifest & Ht & Hload & Hid & Hall & Hwhere)%finish_install_complete.
  exists id, manifest. repeat split; try done.
  unfold get_installed_plugin_info. rewrite Ht. simpl.
  rewrite bool_decide_eq_true_2 by (by eapply load_json_some). simpl.
  by rewrite Hload.
Qed.

(** The theorem at work: the monorepo serves the hello-world plugin,
    which ends up readable under its id. *)
Lemma installed_plugin_is_complete_witness :
  let env := Scenario.with_registry (λ _ _, Returned (Some Scenario.hello_entry))
               Scenario.hello_env in
  let out := install_plugin env "hello-world" None Scenario.empty_world in
  out.1 = Returned true
  ∧ ∃ id manifest,
      get_installed_plugin_info id out.2 = Some (JObj manifest)
      ∧ fields_get manifest "id" = Some (JStr id)
      ∧ Forall (λ field, is_Some (fields_get manifest field))
          ["id"; "name"; "class_name"; "display_modes"; "entry_point"]
      ∧ (id = "hello-world" ∨ fs out.2 !! InPlugins "hello-world" = None).
Proof.
  intros env out.
  assert (out.1 = Returned true) as Hrun by (vm_compute; reflexivity).
  split; [exact Hrun|].
  exact (installed_plugin_is_complete env "hello-world" None Scenario.empty_world Hrun).
Defined.

End InstalledProperties.

(** ** Properties of installing from a URL and of updating *)

Module LifecycleProperties.
Import Py Seq Store RemovalFacts NamingFacts SafetyFacts RollbackFacts.







Lemma rmtree_removal_succeeds env :
  (∀ i q t, rmtree env i q t = None) → removal_succeeds env.
Proof.
  intros Hrm p w. unfold _safe_remove_directory.
  destruct (fs w !! p); [|done]. by rewrite Hrm.
Qed.

(** X9. A failed update uninstalls.  For a plugin of the plugins
    directory that is not bundled and not a git checkout, that the
    registry lists, and whose manifest version is not the registry's
    [latest_version]: [update_plugin] removes the directory and calls
    [install_plugin]; when [shutil.rmtree] does not fail and the
    update returns [False], nothing is left of the plugin. *)
Theorem failed_update_uninstalls env plugin_id w t info :
  (∀ i q u, rmtree env i q u = None) →
  fs w !! InPlugins plugin_id = Some t →
  t !! [".plugin_metadata.json"] = None →
  t !! [".git"] = None →
  get_plugin_info env (now w) plugin_id = Returned (Some info) →
  (∀ fields version,
     load_json t manifest_key = Returned (JObj fields) →
     fields_get fields "version" = Some (JStr version) →
     info_latest_version info ≠ Some version) →
  (update_plugin env plugin_id w).1 = false →
  fs (update_plugin env plugin_id w).2 !! InPlugins plugin_id = None.
Proof.
  intros Hrm Hpath Hmeta Hgit Hinfo Hversion.
  pose proof (rmtree_removal_succeeds env Hrm) as Hok.
  unfold update_plugin, _find_plugin_path.
  rewrite (proj2 (path_exists_true _ _)) by (rewrite Hpath; by eexists).
  rewrite Hpath. simpl. unfold bundled_marker. rewrite Hmeta.
  unfold _get_local_git_info. rewrite Hpath. simpl. rewrite Hgit.
  rewrite bool_decide_eq_false_2 by (by intros []).
  unfold update_archive. rewrite Hinfo, Hpath. simpl.
  assert (match load_json t manifest_key with
          | Returned (JObj fields) =>
              match fields_get fields "version", info_latest_version info with
              | Some (JStr local_version), Some remote_version =>
                  negb (bool_decide (local_version = ""))
                  && bool_decide (local_version = remote_version)
              | _, _ => false
              end
          | _ => false
          end = false) as ->.
  { destruct (load_json t manifest_key) as [[| | | | |fields]|] eqn:Hload; try done.
    destruct (fields_get fields "version") as [[| | |version| |]|] eqn:Hv; try done.
    destruct (info_latest_version info) as [remote|] eqn:Hremote; [|done].
    rewrite (bool_decide_eq_false_2 (version = remote)); [by rewrite andb_false_r|].
    intros ->. by eapply Hversion. }
  pose proof (Hok (InPlugins plugin_id) w) as Hremoved.
  pose proof (removal_deletes env (InPlugins plugin_id) w Hok) as Hdeleted.
  destruct (_safe_remove_directory env (InPlugins plugin_id) w) as [removed w1].
  simpl in Hremoved, Hdeleted. subst removed.
  assert (fs w1 !! InPlugins plugin_id = None) as Hgone
    by (rewrite Hdeleted; apply lookup_delete_eq).
  unfold install_plugin.
  destruct (get_plugin_info env (now w1) plugin_id) as [again|e]; simpl; [|done].
  pose proof (install_plugin_with_failed env again plugin_id None w1 Hok) as Hfailed.
  destruct (install_plugin_with env again plugin_id None w1) as [ok w2]. simpl in *.
  intros ->. destruct (Hfailed eq_refl (InPlugins plugin_id)) as [Hnone|Hsame];
    [done|congruence].
Qed.

(** The theorem at work: the registry lists the installed plugin but
    the network is down; the update fails and the plugin is gone. *)
Lemma failed_update_uninstalls_witness :
  let env := Scenario.unreachable_env in
  let out := update_plugin env "hello-world" Scenario.hello_installed in
  is_Some (fs Scenario.hello_installed !! InPlugins "hello-world")
  ∧ out.1 = false
  ∧ fs out.2 !! InPlugins "hello-world" = None.
Proof.
  intros env out.
  assert (out.1 = false) as Hrun by (vm_compute; reflexivity).
  split; [by eexists|]. split; [exact Hrun|].
  eapply (failed_update_uninstalls env "hello-world" Scenario.hello_installed _
            Scenario.hello_entry); try done; vm_compute; reflexivity.
Defined.

(** X20. When [update_plugin] does nothing.  A plugin that is not
    installed gives [False]; a plugin whose [.plugin_metadata.json]
    says [install_type] is [bundled] gives [True]; a plugin of the
    plugins directory that is not a git checkout and whose manifest
    [version] is the registry's [latest_version] gives [True].  In
    the three cases no directory is changed and nothing is fetched or
    removed. *)
Theorem update_plugin_leaves_alone env plugin_id w :
  (_find_plugin_path env plugin_id w = None →
   update_plugin env plugin_id w = (false, w))
  ∧ (∀ t metadata,
       fs w !! InPlugins plugin_id = Some t →
       t !! [".plugin_metadata.json"] = Some (NFile (Json (JObj metadata))) →
       fields_get metadata "install_type" = Some (JStr "bundled") →
       update_plugin env plugin_id w = (true, w))
  ∧ (∀ t info fields version,
       fs w !! InPlugins plugin_id = Some t →
       t !! [".plugin_metadata.json"] = None →
       t !! [".git"] = None →
       get_plugin_info env (now w) plugin_id = Returned (Some info) →
       load_json t manifest_key = Returned (JObj fields) →
       fields_get fields "version" = Some (JStr version) →
       version ≠ "" →
       info_latest_version info = Some version →
       update_plugin env plugin_id w = (true, w)).
Proof.
  split; [|split].
  - intros Hnone. unfold update_plugin. by rewrite Hnone.
  - intros t metadata Hpath Hmeta Htype.
    unfold update_plugin, _find_plugin_path.
    rewrite (proj2 (path_exists_true _ _)) by (rewrite Hpath; by eexists).
    rewrite Hpath. simpl. unfold bundled_marker. by rewrite Hmeta, Htype.
  - intros t info fields version Hpath Hmeta Hgit Hinfo Hload Hversion Hne Hlatest.
    unfold update_plugin, _find_plugin_path.
    rewrite (proj2 (path_exists_true _ _)) by (rewrite Hpath; by eexists).
    rewrite Hpath. simpl. unfold bundled_marker. rewrite Hmeta.
    unfold _get_local_git_info. rewrite Hpath. simpl. rewrite Hgit.
    rewrite bool_decide_eq_false_2 by (by intros []).
    unfold update_archive. rewrite Hinfo, Hpath. simpl.
    rewrite Hload, Hversion, Hlatest.
    rewrite bool_decide_eq_false_2 by done. by rewrite bool_decide_eq_true_2.
Qed.

End LifecycleProperties.

(** ** Properties of the caches *)

Module CacheProperties.
Import Py.

(** X10. A registry that was just fetched is served from the cache:
    after a fetch that got a non-empty dict (with ["plugins"] absent
    or a list) at a clock reading other than 0, a call without
    [force_refresh] less than 300 seconds later returns the same
    document and sends no request. *)
Theorem registry_served_from_cache env st fields status :
  Registry.get env (Registry.requests_made st) = Registry.Resp status (Some (JObj fields)) →
  Registry.is_error_status status = false →
  (∀ v, fields_get fields "plugins" = Some v → ∃ l, v = JArr l) →
  fields ≠ [] →
  Registry.clock env (Registry.clock_reads st) ≠ 0 →
  Registry.clock env (S (Registry.clock_reads st))
    - Registry.clock env (Registry.clock_reads st) < 300 →
  let first := Registry.fetch_registry env true st in
  let second := Registry.fetch_registry env false first.2 in
  first.1 = Returned (JObj fields)
  ∧ Registry.requests_made first.2 = S (Registry.requests_made st)
  ∧ second.1 = Returned (JObj fields)
  ∧ Registry.requests_made second.2 = Registry.requests_made first.2.
Proof.
  intros Hget Hstatus Hplugins Hfields Hclock Hage.
  assert (Registry.fetch_registry env true st
          = (Returned (JObj fields),
             {| Registry.registry_cache := Some (JObj fields);
                Registry.registry_cache_time :=
                  Some (Registry.clock env (Registry.clock_reads st));
                Registry.clock_reads := S (Registry.clock_reads st);
                Registry.requests_made := S (Registry.requests_made st) |})) as Hfirst.
  { unfold Registry.fetch_registry, Registry.cache_valid. simpl.
    assert (∀ o1 o2,
              match o1, o2 with
              | Some cached, Some cached_time =>
                  json_truthy cached && negb (bool_decide (cached_time = 0)) && negb true
                  && bool_decide (Registry.clock env (Registry.clock_reads st) - cached_time
                                  < Registry.registry_cache_timeout)
              | _, _ => false
              end = false) as ->.
    { intros [c|] [t|]; try done. by rewrite andb_false_r. }
    rewrite Hget, Hstatus. unfold Registry.count_plugins. simpl.
    destruct (fields_get fields "plugins") as [v|] eqn:Hv; simpl; [|done].
    by destruct (Hplugins v eq_refl) as [l ->]. }
  simpl. rewrite Hfirst. simpl. repeat split.
  - unfold Registry.fetch_registry, Registry.cache_valid. simpl.
    destruct fields; [done|]. simpl.
    rewrite (bool_decide_eq_false_2 (_ = 0)) by done.
    unfold Registry.registry_cache_timeout. simpl.
    by rewrite bool_decide_eq_true_2 by done.
  - unfold Registry.fetch_registry, Registry.cache_valid. simpl.
    destruct fields; [done|]. simpl.
    rewrite (bool_decide_eq_false_2 (_ = 0)) by done.
    unfold Registry.registry_cache_timeout. simpl.
    by rewrite bool_decide_eq_true_2 by done.
Qed.

(** The theorem at work on a manager without a cache. *)
Lemma registry_served_from_cache_witness :
  let document := [("plugins", JArr [Scenario.manifest_of "clock"])] in
  let env := Scenario.registry_serving (JObj document) in
  let first := Registry.fetch_registry env true Scenario.registry_start in
  let second := Registry.fetch_registry env false first.2 in
  second.1 = Returned (JObj document)
  ∧ Registry.requests_made second.2 = 1%nat.
Proof.
  intros document env first second.
  assert (∀ v, fields_get document "plugins" = Some v → ∃ l, v = JArr l) as Hplugins.
  { intros v [= <-]. by eexists. }
  destruct (registry_served_from_cache env Scenario.registry_start document 200
              eq_refl eq_refl Hplugins)
    as (_ & Hone & Hsecond & Hsame); [done..|].
  split; [exact Hsecond|]. etransitivity; [exact Hsame|exact Hone].
Defined.

(** X11. A forced refresh fails open and does not fall back on the
    cache: when no request gets a JSON document with a status below
    400, [fetch_registry(force_refresh=True)] returns
    [{"plugins": []}], even if a registry is cached, and the cache and
    its time stay as they were. *)
Theorem forced_refresh_fails_open env st :
  (∀ i status document,
     Registry.get env i = Registry.Resp status (Some document) →
     Registry.is_error_status status = true) →
  let out := Registry.fetch_registry env true st in
  out.1 = Returned Registry.empty_catalog
  ∧ Registry.registry_cache out.2 = Registry.registry_cache st
  ∧ Registry.registry_cache_time out.2 = Registry.registry_cache_time st.
Proof.
  intros Hbad. apply RegistryFacts.fetch_registry_fails_open; [done|].
  unfold Registry.cache_valid. simpl.
  destruct (Registry.registry_cache st), (Registry.registry_cache_time st); try done.
  by rewrite andb_false_r.
Qed.

(** The theorem at work: the registry cannot be reached and a catalog
    of one plugin is cached. *)
Lemma forced_refresh_fails_open_witness :
  let out := Registry.fetch_registry Scenario.registry_down true Scenario.registry_cached in
  out.1 = Returned (JObj [("plugins", JArr [])])
  ∧ Registry.registry_cache out.2
    = Some (JObj [("plugins", JArr [Scenario.manifest_of "clock"])]).
Proof.
  destruct (forced_refresh_fails_open Scenario.registry_down Scenario.registry_cached)
    as (Hout & Hcache & _); [done|].
  split; [exact Hout|exact Hcache].
Defined.

(** X12. Token verdicts are shared by prefix: the cache is keyed by
    the first ten characters, so once a token was accepted (status
    200), another token with the same first ten characters is
    reported valid for the next 300 seconds without being sent to
    GitHub.  Stated for tokens of ASCII characters, where the first
    ten characters are the first ten bytes. *)
Theorem token_verdict_shared_by_prefix env token other st text :
  token ≠ "" → other ≠ "" →
  Token.ascii_only token = true → Token.ascii_only other = true →
  take 10 other = take 10 token →
  Token._token_validation_cache st !! take 10 token = None →
  Token.get_user env (length (Token.probes st)) token = Token.Response 200 text →
  Token.clock env (S (Token.clock_reads st)) - Token.clock env (Token.clock_reads st) < 300 →
  let first := Token._validate_github_token env token st in
  let second := Token._validate_github_token env other first.2 in
  first.1 = (true, None)
  ∧ second.1 = (true, None)
  ∧ Token.probes second.2 = Token.probes st ++ [token].
Proof.
  intros Htoken Hother _ _ Hprefix Hmiss Hget Hage.
  assert (Token.cache_check env (take 10 token) st = (None, st)) as Hcheck.
  { unfold Token.cache_check.
    destruct (Token._token_validation_cache st !! take 10 token) eqn:Hhit; [|done].
    first [done | pose proof (eq_trans (eq_sym Hhit) Hmiss); done]. }
  set (st1 := {| Token._token_validation_cache :=
                   <[take 10 token := (true, Token.clock env (Token.clock_reads st), None)]>
                     (Token._token_validation_cache st);
                 Token.clock_reads := S (Token.clock_reads st);
                 Token.probes := Token.probes st ++ [token] |}).
  assert (Token._validate_github_token env token st = ((true, None), st1)) as Hfirst.
  { unfold Token._validate_github_token.
    rewrite bool_decide_eq_false_2 by done. cbv zeta. rewrite Hcheck. simpl.
    by rewrite Hget. }
  assert (Token.cache_check env (take 10 token) st1
          = (Some (true, None),
             {| Token._token_validation_cache := Token._token_validation_cache st1;
                Token.clock_reads := S (Token.clock_reads st1);
                Token.probes := Token.probes st1 |})) as Hsecond.
  { unfold Token.cache_check.
    pose proof (lookup_insert_eq (Token._token_validation_cache st) (take 10 token)
                  (true, Token.clock env (Token.clock_reads st), None)) as Hhit.
    change (<[take 10 token := _]> _) with (Token._token_validation_cache st1) in Hhit.
    assert (∀ o, o = Token._token_validation_cache st1 !! take 10 token →
                 o = Some (true, Token.clock env (Token.clock_reads st), None)) as Hsame
      by (intros o ->; exact Hhit).
    destruct (Token._token_validation_cache st1 !! take 10 token)
      as [[[v t] e]|]; specialize (Hsame _ eq_refl); [|done].
    injection Hsame as -> -> ->. simpl.
    unfold Token._token_validation_cache_timeout.
    by rewrite bool_decide_eq_true_2 by done. }
  cbv zeta. rewrite Hfirst. split; [done|].
  change (((true, None), st1).2) with st1.
  unfold Token._validate_github_token.
  rewrite bool_decide_eq_false_2 by done. cbv zeta. rewrite Hprefix, Hsecond.
  done.
Qed.

(** The theorem at work on two tokens that differ after the tenth
    character. *)
Lemma token_verdict_shared_by_prefix_witness :
  let first := Token._validate_github_token Scenario.token_env Scenario.sample_token
                 Scenario.token_start in
  let second := Token._validate_github_token Scenario.token_env Scenario.other_token
                  first.2 in
  Scenario.other_token ≠ Scenario.sample_token
  ∧ Token.ascii_only Scenario.sample_token = true
  ∧ Token.ascii_only Scenario.other_token = true
  ∧ take 10 Scenario.other_token = take 10 Scenario.sample_token
  ∧ second.1 = (true, None)
  ∧ Token.probes second.2 = [Scenario.sample_token].
Proof.
  intros first second. split; [done|].
  assert (Token.ascii_only Scenario.sample_token = true) as Hascii by reflexivity.
  assert (Token.ascii_only Scenario.other_token = true) as Hascii' by reflexivity.
  assert (take 10 Scenario.other_token = take 10 Scenario.sample_token) as Hprefix
    by reflexivity.
  split; [exact Hascii|]. split; [exact Hascii'|]. split; [exact Hprefix|].
  destruct (token_verdict_shared_by_prefix Scenario.token_env Scenario.sample_token
              Scenario.other_token Scenario.token_start "")
    as (_ & Hsecond & Hprobes); try done.
Defined.

End CacheProperties.

(** ** Properties of the GitHub metadata *)

Module GitHubProperties.
Import Py Seq GitHub.

#[local] Arguments Store.raw_url : simpl never.
#[local] Arguments commits_url : simpl never.

(** What a step leaves alone. *)
Lemma time_time_requests env st : requests (time_time env st).2 = requests st.
Proof. done. Qed.

Lemma commit_result_branch env branch_name commit_data result :
  commit_result env branch_name commit_data = Some result →
  ∃ fields, result = JObj fields ∧ fields_get fields "branch" = Some (JStr branch_name).
Proof.
  unfold commit_result. intros H.
  destruct (get_or commit_data "sha" (JStr "")) as [sha|]; simpl in H; [|done].
  destruct (short_sha sha); simpl in H; [|done].
  destruct (get_or commit_data "commit" (JObj [])) as [meta|]; simpl in H; [|done].
  destruct (get_or meta "author" (JObj [])) as [author|]; simpl in H; [|done].
  destruct (get_or author "date" (JStr "")); simpl in H; [|done].
  destruct (get_or author "name" (JStr "")); simpl in H; [|done].
  destruct (get_or meta "message" (JStr "")); simpl in H; [|done].
  injection H as <-. by eexists.
Qed.

Lemma commit_loop_spec env owner repo branches st :
  ∃ tried,
    tried `prefix_of` branches
    ∧ requests (commit_loop env owner repo branches st).2
      = requests st ++ (commits_url owner repo <$> tried)
    ∧ commit_info_cache (commit_loop env owner repo branches st).2 = commit_info_cache st
    ∧ clock_reads (commit_loop env owner repo branches st).2 = clock_reads st
    ∧ match (commit_loop env owner repo branches st).1 with
      | Found result =>
          ∃ branch_name fields,
            last tried = Some branch_name
            ∧ result = JObj fields
            ∧ fields_get fields "branch" = Some (JStr branch_name)
      | Failed => True
      | Exhausted => tried = branches
      end.
Proof.
  revert st. induction branches as [|branch_name rest IH]; intros st; simpl.
  { exists []. simpl. by rewrite app_nil_r. }
  destruct (get env (length (requests st)) (commits_url owner repo branch_name))
    as [|status_code body]; simpl.
  { exists [branch_name]. split; [by apply prefix_cons, prefix_nil|done]. }
  case_bool_decide as Hstatus.
  - destruct body as [commit_data|]; simpl.
    + destruct (commit_result env branch_name commit_data) as [result|] eqn:Hresult; simpl.
      * exists [branch_name]. split; [by apply prefix_cons, prefix_nil|].
        repeat split; try done.
        destruct (commit_result_branch _ _ _ _ Hresult) as (fields & -> & Hb).
        by exists branch_name, fields.
      * exists [branch_name]. split; [by apply prefix_cons, prefix_nil|done].
    + exists [branch_name]. split; [by apply prefix_cons, prefix_nil|done].
  - match goal with
    | |- context [commit_loop env owner repo rest ?s] =>
        destruct (IH s) as (tried & Hprefix & Hreq & Hcache & Hclock & Hend)
    end.
    exists (branch_name :: tried). split; [by apply prefix_cons|].
    rewrite Hreq, Hcache, Hclock. simpl. rewrite <- app_assoc. simpl.
    repeat split; try done.
    destruct (commit_loop _ _ _ _ _).1 as [result| |]; [|done|by rewrite Hend].
    destruct Hend as (b & fields & Hlast & -> & Hb).
    exists b, fields. repeat split; try done.
    destruct tried as [|x tried']; [done|]. by rewrite last_cons_cons.
Qed.



Lemma commit_loop_not_failed env owner repo branches st :
  (∀ i url, ∃ status_code body,
     get env i url = Resp status_code body ∧ status_code ≠ 200) →
  (commit_loop env owner repo branches st).1 ≠ Failed.
Proof.
  intros Hdown. revert st. induction branches as [|b rest IH]; intros st; simpl; [done|].
  destruct (Hdown (length (requests st)) (commits_url owner repo b))
    as (status_code & body & -> & Hs).
  rewrite bool_decide_eq_false_2 by done. apply IH.
Qed.

(** X14. [_get_latest_commit_info] remembers its answer for 300
    seconds, the negative one too: after a forced refresh that
    returned a dict, or during which every request was answered with
    a status other than 200 (the result is [None]), the next call for
    the same repository and branch within 300 seconds returns the
    same value without a request. *)
Theorem latest_commit_is_cached env repo_url branch st owner repo :
  contains "github.com" repo_url = true →
  Store.owner_repo repo_url = Some (owner, repo) →
  clock env (S (clock_reads st)) - clock env (clock_reads st) < 300 →
  let first := _get_latest_commit_info env repo_url branch true st in
  let second := _get_latest_commit_info env repo_url branch false first.2 in
  (first.1 ≠ JNull
   ∨ ∀ i url, ∃ status_code body,
       get env i url = Resp status_code body ∧ status_code ≠ 200) →
  second.1 = first.1 ∧ requests second.2 = requests first.2.
Proof.
  intros Hgithub Hparse Hage. cbv zeta.
  set (remember := λ (value : json) (st2 : State),
         set_commit_info_cache
           (<[owner +:+ "/" +:+ repo +:+ ":" +:+ branch
              := (clock env (clock_reads st2), value)]> (commit_info_cache st2))
           (time_time env st2).2).
  assert (∀ value st2,
            clock_reads st2 = clock_reads st →
            _get_latest_commit_info env repo_url branch false (remember value st2)
            = (value, (time_time env (remember value st2)).2)) as Hhit.
  { intros value st2 Hclock. subst remember.
    unfold _get_latest_commit_info. rewrite Hgithub, Hparse. simpl.
    unfold cache_check. simpl. rewrite lookup_insert_eq. simpl. rewrite Hclock.
    unfold commit_cache_timeout. by rewrite bool_decide_eq_true_2 by done. }
  assert (_get_latest_commit_info env repo_url branch true st
          = match commit_loop env owner repo
                    (_distinct_sequence [Some branch; Some "main"; Some "master"]) st with
            | (Found result, st2) => (result, remember result st2)
            | (Failed, st2) => (JNull, st2)
            | (Exhausted, st2) => (JNull, remember JNull st2)
            end) as ->.
  { unfold _get_latest_commit_info. rewrite Hgithub, Hparse. simpl.
    by destruct (commit_loop _ _ _ _ _) as [[result| |] st2]. }
  set (branches := _distinct_sequence _).
  destruct (commit_loop_spec env owner repo branches st)
    as (tried & _ & _ & _ & Hclock & _).
  pose proof (commit_loop_not_failed env owner repo branches st) as Hnot.
  destruct (commit_loop env owner repo branches st) as [[result| |] st2];
    cbn [fst snd] in *.
  - intros _. by rewrite (Hhit result st2 Hclock).
  - intros [Hdict|Hdown]; [done|]. by destruct (Hnot Hdown).
  - intros _. by rewrite (Hhit JNull st2 Hclock).
Qed.

(** The theorem at work: the second call is answered from the
    cache. *)
Lemma latest_commit_is_cached_witness :
  let first := _get_latest_commit_info RemoteScenario.github_env "https://github.com/x/y"
                 "dev" true RemoteScenario.github_start in
  let second := _get_latest_commit_info RemoteScenario.github_env "https://github.com/x/y"
                  "dev" false first.2 in
  first.1 ≠ JNull
  ∧ second.1 = first.1
  ∧ requests second.2 = [commits_url "x" "y" "dev"; commits_url "x" "y" "main"].
Proof.
  intros first second.
  assert (first.1 ≠ JNull) as Hdict by (vm_compute; discriminate).
  destruct (latest_commit_is_cached RemoteScenario.github_env "https://github.com/x/y"
              "dev" RemoteScenario.github_start "x" "y") as [Hsame Hreq];
    [vm_compute; reflexivity..|by left|].
  split; [exact Hdict|]. split; [exact Hsame|].
  etransitivity; [exact Hreq|]. vm_compute. reflexivity.
Defined.

(** X15. [_fetch_manifest_from_github] falls back to [main]: when
    the manifest of another branch answers 404 and the one of [main]
    answers 200, the manifest of [main] is returned after these two
    requests, and it is remembered under the branch that was asked
    for. *)
Theorem manifest_falls_back_to_main env repo_url branch manifest_path st owner repo
    missing manifest :
  contains "github.com" repo_url = true →
  Store.owner_repo repo_url = Some (owner, repo) →
  branch ≠ "main" →
  get env (length (requests st)) (Store.raw_url owner repo branch manifest_path)
  = Resp 404 missing →
  get env (S (length (requests st))) (Store.raw_url owner repo "main" manifest_path)
  = Resp 200 (Some manifest) →
  let out := _fetch_manifest_from_github env repo_url branch manifest_path true st in
  out.1 = manifest
  ∧ requests out.2
    = requests st ++ [Store.raw_url owner repo branch manifest_path;
                      Store.raw_url owner repo "main" manifest_path]
  ∧ manifest_cache out.2
    = <[owner +:+ "/" +:+ repo +:+ ":" +:+ branch +:+ ":" +:+ manifest_path
        := (clock env (clock_reads st), manifest)]> (manifest_cache st).
Proof.
  intros Hgithub Hparse Hbranch Hfirst Hsecond.
  unfold _fetch_manifest_from_github, _http_get_with_retries.
  rewrite Hgithub, Hparse. simpl.
  rewrite Hfirst. simpl.
  rewrite (bool_decide_eq_false_2 (branch = "main")) by done. simpl.
  rewrite length_app. simpl. rewrite Nat.add_1_r, Hsecond. simpl.
  by rewrite <- app_assoc.
Qed.

(** The theorem at work: the manifest of [dev] is the one of
    [main]. *)
Lemma manifest_falls_back_to_main_witness :
  let out := _fetch_manifest_from_github RemoteScenario.github_env "https://github.com/x/y"
               "dev" "manifest.json" true RemoteScenario.github_start in
  out.1 = Scenario.manifest_of "clock"
  ∧ manifest_cache out.2 !! "x/y:dev:manifest.json"
    = Some (1000, Scenario.manifest_of "clock").
Proof.
  intros out.
  destruct (manifest_falls_back_to_main RemoteScenario.github_env "https://github.com/x/y"
              "dev" "manifest.json" RemoteScenario.github_start "x" "y" None
              (Scenario.manifest_of "clock")) as (Hout & _ & Hcache);
    [vm_compute; reflexivity|vm_compute; reflexivity|done|vm_compute; reflexivity..|].
  split; [exact Hout|]. subst out. rewrite Hcache. vm_compute. reflexivity.
Defined.

Lemma retry_loop_requests env k url st :
  ∃ n, (n ≤ k)%nat
    ∧ requests (http_retry_loop env k url st).2 = requests st ++ replicate n url.
Proof.
  revert st. induction k as [|k IH]; intros st; simpl.
  { exists 0%nat. simpl. by rewrite app_nil_r. }
  destruct (get env (length (requests st)) url); simpl.
  - match goal with
    | |- context [http_retry_loop env k url ?s] => destruct (IH s) as (n & Hn & Hreq)
    end.
    exists (S n). split; [lia|]. rewrite Hreq. simpl. by rewrite <- app_assoc.
  - exists 1%nat. split; [lia|done].
Qed.

Lemma registry_loop_spec env urls st :
  ((registry_loop env urls st).1 = JNull
   ∨ ∃ fields, (registry_loop env urls st).1 = JObj fields
               ∧ is_Some (fields_get fields "plugins"))
  ∧ ∃ asked,
      requests (registry_loop env urls st).2 = requests st ++ asked
      ∧ (length asked ≤ 3 * length urls)%nat
      ∧ ∀ url, url ∈ asked → url ∈ urls.
Proof.
  revert st. induction urls as [|url rest IH]; intros st; simpl.
  { split; [by left|]. exists []. rewrite app_nil_r.
    split; [done|]. split; [simpl; lia|].
    intros url H. by apply elem_of_nil in H. }
  unfold _http_get_with_retries.
  destruct (retry_loop_requests env 3 url st) as (n & Hn & Hreq).
  assert (∀ st1, requests st1 = requests st ++ replicate n url →
            ((registry_loop env rest st1).1 = JNull
             ∨ ∃ fields, (registry_loop env rest st1).1 = JObj fields
                         ∧ is_Some (fields_get fields "plugins"))
            ∧ ∃ asked,
                requests (registry_loop env rest st1).2 = requests st ++ asked
                ∧ (length asked ≤ 3 * S (length rest))%nat
                ∧ ∀ u, u ∈ asked → u ∈ url :: rest) as Hnext.
  { intros st1 Hst1. destruct (IH st1) as [Hvalue (asked & Hasked & Hlen & Hin)].
    split; [done|]. exists (replicate n url ++ asked).
    rewrite Hasked, Hst1, <- app_assoc. split; [done|]. split.
    - rewrite length_app, length_replicate. lia.
    - intros u [Hu|Hu]%elem_of_app.
      + apply elem_of_replicate in Hu as [-> _]. by left.
      + right. by apply Hin. }
  destruct (http_retry_loop env 3 url st) as [[[status_code [registry|]]|] st1];
    simpl in Hreq; try (by apply Hnext).
  destruct (bool_decide (status_code = 200) && looks_like_registry registry) eqn:Hok;
    [|by apply Hnext].
  apply andb_true_iff in Hok as [_ Hlooks]. simpl. split.
  - right. destruct registry; try done. simpl in Hlooks.
    apply bool_decide_eq_true in Hlooks. by eexists.
  - exists (replicate n url). split; [done|]. split.
    + rewrite length_replicate. lia.
    + intros u Hu. apply elem_of_replicate in Hu as [-> _]. by left.
Qed.

(** X16. [fetch_registry_from_url] returns [None] or a dict that has
    the key ["plugins"]; it asks only for [plugins.json] and
    [registry.json] on [main] and [master] of the repository, with at
    most twelve requests in all, and for a URL that does not name
    GitHub it sends none. *)
Theorem fetch_registry_from_url_answers env repo_url st :
  let cleaned := replace ".git" "" (rstrip "/" repo_url) in
  let out := fetch_registry_from_url env repo_url st in
  (out.1 = JNull
   ∨ ∃ fields, out.1 = JObj fields ∧ is_Some (fields_get fields "plugins"))
  ∧ (∃ asked,
       requests out.2 = requests st ++ asked
       ∧ (length asked ≤ 12)%nat
       ∧ ∀ url, url ∈ asked → url ∈ registry_urls cleaned)
  ∧ (contains "github.com" cleaned = false → out = (JNull, st)).
Proof.
  intros cleaned out. subst out. unfold fetch_registry_from_url. fold cleaned.
  destruct (registry_loop_spec env (registry_urls cleaned) st)
    as [Hvalue (asked & Hasked & Hlen & Hin)].
  split; [done|]. split.
  - exists asked. split; [done|]. split; [|done].
    etrans; [exact Hlen|]. unfold registry_urls.
    destruct (contains "github.com" cleaned); [|simpl; lia].
    destruct (last2 (split "/" cleaned)), (last1 (split "/" cleaned)); simpl; lia.
  - intros Hnot. unfold registry_urls. by rewrite Hnot.
Qed.

Lemma default_repo_info_keys : has_keys repo_info_keys default_repo_info.
Proof.
  eexists. split; [done|]. repeat constructor; vm_compute; by eexists.
Qed.

Lemma repo_info_of_keys env data repo_info :
  repo_info_of env data = Some repo_info → has_keys repo_info_keys repo_info.
Proof.
  unfold repo_info_of. intros H.
  destruct (get_or data "pushed_at" (JStr "")); simpl in H; [|done].
  destruct (get_or data "updated_at" (JStr "")); simpl in H; [|done].
  destruct (get_or data "stargazers_count" (JNum 0)); simpl in H; [|done].
  destruct (get_or data "forks_count" (JNum 0)); simpl in H; [|done].
  destruct (get_or data "open_issues_count" (JNum 0)); simpl in H; [|done].
  destruct (get_or data "language" (JStr "")); simpl in H; [|done].
  destruct (get_or data "license" JNull) as [license|]; simpl in H; [|done].
  destruct (if json_truthy license then _ else _); simpl in H; [|done].
  destruct (get_or data "default_branch" (JStr "main")); simpl in H; [|done].
  injection H as <-. eexists. split; [done|].
  repeat constructor; vm_compute; by eexists.
Qed.

(** X17. [_get_github_repo_info] always answers with a dict that has
    the nine keys [stars], [forks], [open_issues], [updated_at_iso],
    [last_commit_iso], [last_commit_date], [language], [license] and
    [default_branch], whatever the URL and the network do, as long as
    the cache holds such dicts, which it then still does; the call
    sends at most one request. *)
Theorem repo_info_is_always_complete env repo_url st :
  (∀ key stamp data,
     github_cache st !! key = Some (stamp, data) → has_keys repo_info_keys data) →
  let out := _get_github_repo_info env repo_url st in
  has_keys repo_info_keys out.1
  ∧ (∀ key stamp data,
       github_cache out.2 !! key = Some (stamp, data) → has_keys repo_info_keys data)
  ∧ (length (requests out.2) ≤ S (length (requests st)))%nat.
Proof.
  intros Hcache. cbv zeta. unfold _get_github_repo_info.
  pose proof default_repo_info_keys as Hdefault.
  destruct (negb _); [by auto|].
  destruct (repo_key repo_url) as [[owner repo]|]; [|by auto].
  assert (∀ st1,
            github_cache st1 = github_cache st → requests st1 = requests st →
            let out :=
              match requests_get env (repo_api_url owner repo) st1 with
              | (ConnectionFailed, st2) => (default_repo_info, st2)
              | (Resp status_code body, st2) =>
                  if bool_decide (status_code = 200) then
                    match body with
                    | None => (default_repo_info, st2)
                    | Some data =>
                        match repo_info_of env data with
                        | None => (default_repo_info, st2)
                        | Some repo_info =>
                            let '(now, st3) := time_time env st2 in
                            (repo_info,
                             set_github_cache
                               (<[owner +:+ "/" +:+ repo := (now, repo_info)]>
                                  (github_cache st3)) st3)
                        end
                    end
                  else (default_repo_info, st2)
              end in
            has_keys repo_info_keys out.1
            ∧ (∀ key stamp data,
                 github_cache out.2 !! key = Some (stamp, data) →
                 has_keys repo_info_keys data)
            ∧ (length (requests out.2) ≤ S (length (requests st)))%nat) as Hfetch.
  { intros st1 Hsame Hreq. cbv zeta. unfold requests_get. rewrite Hreq.
    assert (length (requests st ++ [repo_api_url owner repo]) ≤ S (length (requests st)))%nat
      as Hone by (rewrite length_app; simpl; lia).
    destruct (get env (length (requests st)) (repo_api_url owner repo))
      as [|status_code body]; simpl.
    { rewrite Hsame. by auto. }
    case_bool_decide; simpl; [|rewrite Hsame; by auto].
    destruct body as [data|]; simpl; [|rewrite Hsame; by auto].
    destruct (repo_info_of env data) as [repo_info|] eqn:Hinfo; simpl;
      [|rewrite Hsame; by auto].
    apply repo_info_of_keys in Hinfo. split; [done|]. split; [|done].
    rewrite Hsame.
    intros key stamp data' [[<- [= <- <-]]|[_ Hold]]%lookup_insert_Some; [done|].
    by eapply Hcache. }
  unfold cache_check.
  destruct (github_cache st !! (owner +:+ "/" +:+ repo)) as [[cached_time cached_data]|]
    eqn:Hhit.
  - simpl. case_bool_decide.
    + simpl. split; [by eapply Hcache|]. split; [exact Hcache|lia].
    + by apply Hfetch.
  - by apply Hfetch.
Qed.

(** The theorem at work on an empty cache: the repository answers,
    and its stars are in the dict. *)
Lemma repo_info_is_always_complete_witness :
  let out := _get_github_repo_info RemoteScenario.github_env "https://github.com/x/y"
               RemoteScenario.github_start in
  has_keys repo_info_keys out.1
  ∧ py_get out.1 "stars" JNull = Returned (JNum 42).
Proof.
  intros out.
  destruct (repo_info_is_always_complete RemoteScenario.github_env "https://github.com/x/y"
              RemoteScenario.github_start) as (Hkeys & _ & _).
  - intros key stamp data Hhit. vm_compute in Hhit. discriminate.
  - split; [exact Hkeys|]. vm_compute. reflexivity.
Defined.

End GitHubProperties.

(** ** Properties of the registry lookups *)

Module LookupProperties.
Import Py Lookup.

Lemma next_by_get_skips before rest plugin_id :
  Forall (λ p, ∃ f, p = JObj f ∧ fields_get f "id" ≠ Some (JStr plugin_id)) before →
  next_by_get (before ++ rest) plugin_id = next_by_get rest plugin_id.
Proof.
  induction 1 as [|p before (f & -> & Hid) _ IH]; simpl; [done|].
  destruct (fields_get f "id") as [[| | |s| |]|]; simpl; try done.
  rewrite bool_decide_eq_false_2; [done|]. intros ->. by apply Hid.
Qed.

Lemma plugins_of_list fields items :
  fields_get fields "plugins" = Some (JArr items) → items ≠ [] →
  plugins_of (JObj fields) = Returned (JArr items).
Proof.
  intros Hplugins Hitems. unfold plugins_of. simpl. rewrite Hplugins. simpl.
  by destruct items.
Qed.

(** X18. An entry without ["id"] breaks [get_plugin_info] and not
    [get_registry_info].  When the registry lists, before the plugin
    that is asked for, an entry that has no ["id"] (the entries before
    it having other ids), [get_plugin_info] raises [KeyError] at
    [p['id']], while [get_registry_info], which uses [p.get('id')],
    returns the plugin's entry. *)
Theorem entry_without_id_breaks_get_plugin_info env plugin_id st fields
    before entry wanted rest :
  (Registry.fetch_registry env false st).1 = Returned (JObj fields) →
  fields_get fields "plugins"
  = Some (JArr (before ++ JObj entry :: JObj wanted :: rest)) →
  Forall (λ p, ∃ f id, p = JObj f ∧ fields_get f "id" = Some (JStr id) ∧ id ≠ plugin_id)
    before →
  fields_get entry "id" = None →
  fields_get wanted "id" = Some (JStr plugin_id) →
  (get_plugin_info_entry env plugin_id st).1 = Raised KeyError
  ∧ (get_registry_info env plugin_id st).1 = Returned (JObj wanted).
Proof.
  intros Hfetch Hplugins Hbefore Hentry Hwanted.
  unfold get_plugin_info_entry, get_registry_info, lookup_with.
  destruct (Registry.fetch_registry env false st) as [registry st1].
  simpl in Hfetch. subst registry. cbn [fst snd].
  rewrite (plugins_of_list _ _ Hplugins) by (by destruct before).
  cbn [Manifest.and_then py_iter]. split.
  - clear Hwanted Hplugins.
    induction Hbefore as [|p before (f & id & -> & Hid & Hne) _ IH]; simpl.
    + by rewrite Hentry.
    + rewrite Hid. simpl. by rewrite bool_decide_eq_false_2.
  - rewrite next_by_get_skips.
    + simpl. rewrite Hentry. simpl. rewrite Hwanted. simpl.
      by rewrite bool_decide_eq_true_2.
    + eapply Forall_impl; [exact Hbefore|]. intros p (f & id & -> & Hid & Hne).
      exists f. split; [done|]. rewrite Hid. congruence.
Qed.

(** The theorem at work on a registry whose first entry has a name
    only. *)
Lemma entry_without_id_breaks_get_plugin_info_witness :
  let nameless := [("name", JStr "Draft")] in
  let clock := [("id", JStr "clock"); ("name", JStr "Clock")] in
  let env := Scenario.registry_serving
               (JObj [("plugins", JArr [JObj nameless; JObj clock])]) in
  (get_plugin_info_entry env "clock" Scenario.registry_start).1 = Raised KeyError
  ∧ (get_registry_info env "clock" Scenario.registry_start).1 = Returned (JObj clock).
Proof.
  intros nameless clock env.
  by apply (entry_without_id_breaks_get_plugin_info env "clock" Scenario.registry_start
              [("plugins", JArr [JObj nameless; JObj clock])] [] nameless clock []).
Defined.




End LookupProperties.
